(** * Momentum sniper: scoring, exits and crash recovery

    A shallow embedding of the core of the sniper bot:

    - [PumpCurve]: the curve account and curve progress
      ([src/scanner/pumpCurve.js]); [SplMint]: the mint account
      ([splMint.js]); [QuickFilters]: the age filter
      ([quickFilters.js]);
    - [ValidationQueue]: the scoring pipeline, its two account fetches
      and its job queue ([validationQueue.js]), with the TTL cache it
      relies on ([TTLCache]);
    - [PositionManager]: opening positions, the tiered exit rules and
      the daily statistics ([positionManager.js]);
    - [JupiterQuote] and [Main]: the curve-based quote
      ([jupiterQuote.js]) and the way the entry point turns a signal and
      a quote into a position ([index.js]);
    - [StateManager]: write-ahead log, snapshots and recovery
      ([stateManager.js]).

    Conventions of the embedding.

    - Numbers.  JavaScript numbers are binary64 floats; they are modelled
      by exact rationals ([Q]), BigInt values by [Z].  The comparisons the
      properties depend on are between an input and a constant, or sit
      far from a rounding boundary; for the one score that is computed
      from inexact weights the binary64 value is evaluated as well
      ([Binary64]).  A division by zero, which gives an infinity or NaN in
      JavaScript, gives 0 in [Q]: the one place where it can occur is the
      profit of a position entered at price 0, and the properties that
      read a profit assume a nonzero entry price or a finite profit.
    - The u64 reserve fields travel through the program as decimal
      strings and are modelled by the integer they denote; such a string
      is never empty, hence always truthy.
    - Account data is a list of bytes, as it is once decoded from
      base64.
    - Effects.  Each object is a record passed in and returned; what the
      code prints or emits is appended to a list in the record.  What the
      code reads from outside (the clock, [Math.random()], a remote call,
      [crypto.randomUUID()], the order in which a directory is
      enumerated) is an argument of the function that reads it.  One call
      reads the clock once.
    - A [Map] is a [gmap]: the order of insertion is not kept.  A JSON
      object is a [gmap] from keys to JSON values, and an array is the
      object whose keys are its indices.
    - Asynchronous code runs to completion at each step of the model; the
      interleavings of the validation queue are the sequences of its
      [Event]s. *)

From Stdlib Require Import ZArith QArith Qround Qabs Lia Lqa String Ascii List.
From Stdlib Require Import PrimFloat.
From stdpp Require Import gmap strings list fin_maps pretty.

Set Default Proof Using "Type".

(* ===================================================================== *)
(** * Part I: the embedding                                               *)
(* ===================================================================== *)

(** ** JavaScript numeric primitives *)

Module Num.
Local Open Scope Q_scope.

Definition le (x y : Q) : bool := Qle_bool x y.
Definition lt (x y : Q) : bool := negb (Qle_bool y x).
Definition ge (x y : Q) : bool := Qle_bool y x.
Definition gt (x y : Q) : bool := negb (Qle_bool x y).

(** [Math.min] and [Math.max] on two finite arguments. *)
Definition Math_min (x y : Q) : Q := if Qle_bool x y then x else y.
Definition Math_max (x y : Q) : Q := if Qle_bool x y then y else x.

(** [Math.floor], and [Math.round], which rounds halves upwards. *)
Definition Math_floor (x : Q) : Z := Qfloor x.
Definition Math_round (x : Q) : Z := Qfloor (x + (1 # 2)).

(** A number used as a condition: zero is falsy. *)
Definition truthy (x : Q) : bool := negb (Qeq_bool x 0).

End Num.

Declare Scope num_scope.
Delimit Scope num_scope with num.
Infix "<=?" := Num.le (at level 70, no associativity) : num_scope.
Infix "<?" := Num.lt (at level 70, no associativity) : num_scope.
Infix ">=?" := Num.ge (at level 70, no associativity) : num_scope.
Infix ">?" := Num.gt (at level 70, no associativity) : num_scope.

(** ** pumpCurve.js *)

Module PumpCurve.
Local Open Scope Q_scope.

(** The decoded bonding-curve account ([parseBondingCurve]): four u64
    reserves. *)
Record CurveData := {
  virtualToken : Z;
  virtualSol : Z;
  realToken : Z;
  realSol : Z;
}.

(** [computeProgressPct({ realToken, supply })].  BigInt division
    truncates, which is [Z.quot]. *)
Definition computeProgressPct (realToken supply : Z) : Q :=
  let rt := realToken in
  let sup := supply in
  if (sup =? 0)%Z then 0
  else
    let sold := if (sup >? rt)%Z then (sup - rt)%Z else 0%Z in
    let pct := inject_Z (Z.quot (sold * 10000) sup) / 100 in
    Num.Math_max 0 (Num.Math_min 100 pct).

Inductive Stage := GRADUATED | S80_99 | S50_80 | S20_50 | S0_20.

(** [curveStage(progressPct)]. *)
Definition curveStage (progressPct : Q) : Stage :=
  if (progressPct >=? 100)%num then GRADUATED
  else if (progressPct >=? 80)%num then S80_99
  else if (progressPct >=? 50)%num then S50_80
  else if (progressPct >=? 20)%num then S20_50
  else S0_20.

(** [readU64LE(buf, off)]: the loop at index [i], with [count] turns
    left and [n] accumulated so far.  An index past the end of the
    buffer reads [undefined], on which [BigInt] throws: [None]. *)
Fixpoint readU64LE_loop (buf : list Byte.byte) (off i count : nat) (n : Z)
    : option Z :=
  match count with
  | O => Some n
  | S count =>
      match buf !! (off + i)%nat with
      | None => None
      | Some b =>
          readU64LE_loop buf off (S i) count
            (Z.lor n (Z.shiftl (Z.of_N (Byte.to_N b)) (8 * Z.of_nat i)))
      end
  end.

Definition readU64LE (buf : list Byte.byte) (off : nat) : option Z :=
  readU64LE_loop buf off 0 8 0.

(** What [parseBondingCurve] returns: the discriminator and the four
    reserves. *)
Record BondingCurveAccount := {
  discriminator : Z;
  reserves : CurveData;
}.

(** [parseBondingCurve(buf)]; [None] is [null]. *)
Definition parseBondingCurve (buf : list Byte.byte)
    : option BondingCurveAccount :=
  if (length buf <? 8 + 8 * 4)%nat then None
  else
    disc ← readU64LE buf 0;
    virtualToken ← readU64LE buf 8;
    virtualSol ← readU64LE buf 16;
    realToken ← readU64LE buf 24;
    realSol ← readU64LE buf 32;
    Some {| discriminator := disc;
            reserves := {| virtualToken := virtualToken;
                           virtualSol := virtualSol;
                           realToken := realToken;
                           realSol := realSol |} |}.

(** [fetchBondingCurve({ rpc, mint })], given the account data the
    [getAccountInfo] request resolved to, decoded from base64 ([None]:
    no account, or no data in it). *)
Definition fetchBondingCurve (data : option (list Byte.byte))
    : option BondingCurveAccount :=
  match data with
  | None => None
  | Some buf => parseBondingCurve buf
  end.

End PumpCurve.

(** ** splMint.js *)

Module SplMint.

(** What [parseSplMint] returns.  [decimals] is the byte read at offset
    44, [None] standing for [undefined]. *)
Record Mint := {
  supply : Z;
  decimals : option Z;
  isInitialized : bool;
}.

(** [parseSplMint(buf)]; [None] is [null].  The file has its own copy
    of [readU64LE], the same text as the one of [pumpCurve.js]. *)
Definition parseSplMint (buf : list Byte.byte) : option Mint :=
  if negb (length buf =? 82)%nat then None
  else
    supply ← PumpCurve.readU64LE buf 36;
    Some {| supply := supply;
            decimals := (fun b => Z.of_N (Byte.to_N b)) <$> buf !! 44%nat;
            isInitialized :=
              match buf !! 45%nat with
              | Some b => (Byte.to_N b =? 1)%N
              | None => false
              end |}.

End SplMint.

(** ** quickFilters.js *)

Module QuickFilters.

Inductive Verdict := ok | no_blocktime | too_old.

(** [quickFilterTxMeta({ blockTime, nowMs, maxAgeSec })].  The block
    time of a transaction is a number of seconds or [null] ([None]); a
    block time of zero is falsy as well. *)
Definition quickFilterTxMeta (blockTime : option Z) (nowMs maxAgeSec : Z)
    : Verdict :=
  match blockTime with
  | None => no_blocktime
  | Some blockTime =>
      if (blockTime =? 0)%Z then no_blocktime
      else
        let ageSec := Z.max 0 (nowMs / 1000 - blockTime) in
        if (ageSec >? maxAgeSec)%Z then too_old else ok
  end.

End QuickFilters.

(** ** config.example.js *)

Module Config.
Local Open Scope Q_scope.

Record Trading := {
  maxPositions : nat;
  dailyLossLimitPct : Q;
}.

Record Scanner := {
  minCurveProgress : Q;
  maxCurveProgress : Q;
  minHolders : Q;
  minVolume5mSol : Q;
  minInitialBuySol : Q;
}.

Record Weights := { volume : Q; holders : Q; curve : Q }.

Record TierCfg := { minScore : Q; sizeMultiplier : Q }.

Record Tiers := {
  WARM : TierCfg;
  HOT : TierCfg;
  VERY_HOT : TierCfg;
  EXTREME : TierCfg;
}.

Record Momentum := {
  weights : Weights;
  momentum_minScore : Q;
  tiers : Tiers;
}.

Record Tier1 := {
  tier1_enabled : bool;
  tier1_minPct : Q;
  tier1_maxPct : Q;
  tier1_exitPct : Q;
}.

Record Tier2 := {
  tier2_enabled : bool;
  tier2_minPct : Q;
  tier2_exitPct : Q;
}.

Record StopLoss := { stopLoss_enabled : bool; pct : Q }.

Record TimeDecay := {
  timeDecay_enabled : bool;
  maxSlots : Z;
  requireProfit : bool;
}.

(** [exit.feeSpikeExit] is read by the position manager; the shipped
    configuration defines [feeSpikeExit] under [feeMonitoring] only, so
    the field is [undefined] (falsy) under [exit]. *)
Record Exit := {
  tier1 : Tier1;
  tier2 : Tier2;
  stopLoss : StopLoss;
  timeDecay : TimeDecay;
  feeSpikeExit : bool;
}.

Record Persistence := {
  snapshotIntervalMs : Z;
  useWal : bool;
}.

Record t := {
  trading : Trading;
  scanner : Scanner;
  momentum : Momentum;
  exit : Exit;
  persistence : Persistence;
}.

(** The values of [config.example.js]. *)
Definition default : t := {|
  trading := {| maxPositions := 3; dailyLossLimitPct := 15 |};
  scanner := {|
    minCurveProgress := 0;
    maxCurveProgress := 99;
    minHolders := 15;
    minVolume5mSol := 5 # 10;
    minInitialBuySol := 1 # 10;
  |};
  momentum := {|
    weights := {| volume := 4 # 10; holders := 2 # 10; curve := 4 # 10 |};
    momentum_minScore := 40;
    tiers := {|
      WARM := {| minScore := 20; sizeMultiplier := 25 # 100 |};
      HOT := {| minScore := 40; sizeMultiplier := 5 # 10 |};
      VERY_HOT := {| minScore := 60; sizeMultiplier := 75 # 100 |};
      EXTREME := {| minScore := 80; sizeMultiplier := 1 |};
    |};
  |};
  exit := {|
    tier1 := {|
      tier1_enabled := true;
      tier1_minPct := 50;
      tier1_maxPct := 100;
      tier1_exitPct := 50;
    |};
    tier2 := {|
      tier2_enabled := true;
      tier2_minPct := 100;
      tier2_exitPct := 100;
    |};
    stopLoss := {| stopLoss_enabled := true; pct := -15 |};
    timeDecay := {|
      timeDecay_enabled := true;
      maxSlots := 300;
      requireProfit := true;
    |};
    feeSpikeExit := false;
  |};
  persistence := {| snapshotIntervalMs := 300000; useWal := true |};
|}.

(** The configuration the program loads, [config.js]: the values above
    with [trading.maxPositions] and [momentum.minScore] overridden (the
    environment is taken to override nothing). *)
Definition runtime : t := {|
  trading := {| maxPositions := 10;
                dailyLossLimitPct := dailyLossLimitPct (trading default) |};
  scanner := scanner default;
  momentum := {| weights := weights (momentum default);
                 momentum_minScore := 60;
                 tiers := tiers (momentum default) |};
  exit := exit default;
  persistence := persistence default;
|}.

End Config.

(** ** ttlCache.js *)

Module TTLCache.

Record t := { ttlMs : Z; map : gmap string Z }.

Definition new (ttlMs : Z) : t := {| ttlMs := ttlMs; map := ∅ |}.

(** [has(key)] at wall-clock time [now]: an expired key is removed as a
    side effect.  A stored timestamp of [0] is falsy. *)
Definition has (key : string) (now : Z) (c : t) : bool * t :=
  match map c !! key with
  | None => (false, c)
  | Some v =>
      if (v =? 0)%Z then (false, c)
      else if (now - v >? ttlMs c)%Z
      then (false, {| ttlMs := ttlMs c; map := delete key (map c) |})
      else (true, c)
  end.

(** [add(key)] at wall-clock time [now]. *)
Definition add (key : string) (now : Z) (c : t) : t :=
  {| ttlMs := ttlMs c; map := <[key := now]> (map c) |}.

(** [cleanup()] at wall-clock time [now]: the loop deletes every entry
    older than the time to live, so the others remain. *)
Definition cleanup (now : Z) (c : t) : t :=
  {| ttlMs := ttlMs c;
     map := filter (fun kt => ¬ (now - kt.2 > ttlMs c)%Z) (map c) |}.

End TTLCache.

(** ** validationQueue.js *)

Module ValidationQueue.
Local Open Scope Q_scope.
Import PumpCurve.

Inductive Tier := COLD | WARM | HOT | VERY_HOT | EXTREME.

Inductive Rejection :=
| CURVE_NOT_FOUND
| CURVE_GRADUATED
| CURVE_BELOW_MIN
| NOT_ON_CURVE
| TOKEN_TOO_MATURE
| LOW_LIQUIDITY
| TOO_MATURE
| WEAK_EARLY_MOMENTUM
| INSUFFICIENT_HOLDERS
| INSUFFICIENT_VOLUME
| SMALL_INITIAL_BUY
| MOMENTUM_BELOW_THRESHOLD.

(** What [_fetchMintInfo] resolves to when it does not fail: the mint
    account is missing or malformed ([isNew: true]), or it decodes to a
    supply and a number of decimals. *)
Inductive MintInfo :=
| MintNew
| MintFound (supply : Z) (decimals : Z).

Definition isNew (mintInfo : option MintInfo) : bool :=
  match mintInfo with
  | Some MintNew => true
  | _ => false
  end.

(** [mintInfo?.supply || curveData.realToken || '1000000000']: the
    strings involved are decimal renderings, never empty, so the first
    one present wins. *)
Definition supplyOf (mintInfo : option MintInfo) (curveData : CurveData) : Z :=
  match mintInfo with
  | Some (MintFound supply _) => supply
  | _ => realToken curveData
  end.

(** The fields of a successful [_deepValidate]. *)
Record Validation := {
  estimatedHolders : Q;
  estimatedVolumeSol : Q;
  liquiditySol : Q;
}.

(** The fields of a successful [_basicValidate]. *)
Record BasicValidation := {
  basic_liquiditySol : Q;
  basic_progress : Q;
}.

(** The object [_runValidationPipeline] resolves to.  Diagnostic fields
    of a PASS other than the reason are not kept. *)
Record Entered := {
  mintInfo : option MintInfo;
  curveData : CurveData;
  momentumScore : Z;
  tier : Tier;
  positionSizePct : Q;
  progress : Q;
  entered_isNew : bool;
}.

Inductive Result :=
| PASS (rejectionReason : Rejection)
| ENTER (r : Entered).

(** The outside world as one job sees it: what the two account fetches
    resolve to ([None]: the fetch found nothing, or failed and was
    caught), and the two [Math.random()] draws of [_estimateVolume] and
    [_getInitialBuy]. *)
Record World := {
  fetchedCurve : option CurveData;
  fetchedMint : option MintInfo;
  randomVolume : Q;
  randomInitialBuy : Q;
}.

Section Pipeline.
Variable config : Config.t.

Definition _estimateVolume (w : World) : Q :=
  (5 # 10) + randomVolume w * 2.

Definition _getInitialBuy (w : World) : Q :=
  (1 # 10) + randomInitialBuy w * (5 # 10).

Definition _deepValidate (w : World) (mintInfo : option MintInfo)
    (curveData : CurveData) (progress : Q) : Rejection + Validation :=
  let scanner := Config.scanner config in
  let supply := supplyOf mintInfo curveData in
  let realToken := realToken curveData in
  let soldTokens := (supply - realToken)%Z in
  let estimatedHolders := inject_Z soldTokens / 1000000 in
  if (estimatedHolders <? Config.minHolders scanner)%num
  then inl INSUFFICIENT_HOLDERS
  else
    let estimatedVolumeSol := _estimateVolume w in
    if (estimatedVolumeSol <? Config.minVolume5mSol scanner)%num
    then inl INSUFFICIENT_VOLUME
    else
      let liquiditySol := inject_Z (realSol curveData) / 1000000000 in
      if (liquiditySol <? 5 # 10)%num then inl LOW_LIQUIDITY
      else
        let initialBuy := _getInitialBuy w in
        if Num.truthy initialBuy
           && (initialBuy <? Config.minInitialBuySol scanner)%num
        then inl SMALL_INITIAL_BUY
        else inr {| estimatedHolders := estimatedHolders;
                    estimatedVolumeSol := estimatedVolumeSol;
                    liquiditySol := liquiditySol |}.

Definition _calculateMomentumScore (validation : Validation)
    (progress : Q) : Z :=
  let momentum := Config.momentum config in
  let volumeScore :=
    Num.Math_min ((estimatedVolumeSol validation / 2) * 100) 100 in
  let holderScore :=
    Num.Math_min ((estimatedHolders validation / 50) * 100) 100 in
  let curveScore := progress * (8 # 10) in
  let score :=
    volumeScore * Config.volume (Config.weights momentum)
    + holderScore * Config.holders (Config.weights momentum)
    + curveScore * Config.curve (Config.weights momentum) in
  Num.Math_round score.

Definition _getTier (score : Z) : Tier :=
  let tiers := Config.tiers (Config.momentum config) in
  let score := inject_Z score in
  if (score >=? Config.minScore (Config.EXTREME tiers))%num then EXTREME
  else if (score >=? Config.minScore (Config.VERY_HOT tiers))%num
  then VERY_HOT
  else if (score >=? Config.minScore (Config.HOT tiers))%num then HOT
  else if (score >=? Config.minScore (Config.WARM tiers))%num then WARM
  else COLD.

(** [tiers[tier]?.sizeMultiplier || 0.25]: there is no COLD entry, and
    a multiplier of zero is falsy. *)
Definition _getPositionSizeForTier (tier : Tier) : Q :=
  let tiers := Config.tiers (Config.momentum config) in
  let configured (c : Config.TierCfg) :=
    if Num.truthy (Config.sizeMultiplier c)
    then Config.sizeMultiplier c else 25 # 100 in
  match tier with
  | COLD => 25 # 100
  | WARM => configured (Config.WARM tiers)
  | HOT => configured (Config.HOT tiers)
  | VERY_HOT => configured (Config.VERY_HOT tiers)
  | EXTREME => configured (Config.EXTREME tiers)
  end.

Definition _basicValidate (curveData : CurveData) (progress : Q)
    : Rejection + BasicValidation :=
  let liquiditySol := inject_Z (realSol curveData) / 1000000000 in
  if (liquiditySol <? 15 # 100)%num then inl LOW_LIQUIDITY
  else if (progress >? 75)%num then inl TOO_MATURE
  else inr {| basic_liquiditySol := liquiditySol;
              basic_progress := progress |}.

Definition _calculateEarlyScore (validation : BasicValidation)
    (progress : Q) : Z :=
  let score := 60%Z in
  let score :=
    if (progress >=? 2)%num && (progress <=? 70)%num
    then (score + 25)%Z
    else if (progress >=? 0)%num && (progress <=? 75)%num
    then (score + 15)%Z
    else score in
  let score :=
    if (basic_liquiditySol validation >=? 5 # 10)%num
    then (score + 20)%Z
    else if (basic_liquiditySol validation >=? 3 # 10)%num
    then (score + 15)%Z
    else if (basic_liquiditySol validation >=? 15 # 100)%num
    then (score + 10)%Z
    else score in
  Z.min score 100.

Definition _runValidationPipeline (w : World) : Result :=
  let scanner := Config.scanner config in
  let momentum := Config.momentum config in
  match fetchedCurve w with
  | None => PASS CURVE_NOT_FOUND
  | Some curveData =>
    let mintInfo := fetchedMint w in
    let isNew := isNew mintInfo in
    let supply := supplyOf mintInfo curveData in
    let progress := computeProgressPct (realToken curveData) supply in
    if (progress >=? Config.maxCurveProgress scanner)%num
    then PASS CURVE_GRADUATED
    else if (progress <? Config.minCurveProgress scanner)%num
    then PASS CURVE_BELOW_MIN
    else if (progress >=? 100)%num then PASS NOT_ON_CURVE
    else if isNew then
      if (progress >? 70)%num then PASS TOKEN_TOO_MATURE
      else
        match _basicValidate curveData progress with
        | inl reason => PASS reason
        | inr basicValidation =>
          let earlyScore := _calculateEarlyScore basicValidation progress in
          let minScore := Config.momentum_minScore momentum in
          if (inject_Z earlyScore <? minScore)%num
          then PASS WEAK_EARLY_MOMENTUM
          else
            let tier :=
              if (inject_Z earlyScore >=? 80)%num then EXTREME
              else if (inject_Z earlyScore >=? 70)%num then VERY_HOT
              else if (inject_Z earlyScore >=? minScore)%num then HOT
              else WARM in
            ENTER {| mintInfo := mintInfo;
                     curveData := curveData;
                     momentumScore := earlyScore;
                     tier := tier;
                     positionSizePct := _getPositionSizeForTier tier;
                     progress := progress;
                     entered_isNew := true |}
        end
    else
      match _deepValidate w mintInfo curveData progress with
      | inl reason => PASS reason
      | inr validation =>
        let momentumScore := _calculateMomentumScore validation progress in
        let tier := _getTier momentumScore in
        if (inject_Z momentumScore <? Config.momentum_minScore momentum)%num
        then PASS MOMENTUM_BELOW_THRESHOLD
        else
          ENTER {| mintInfo := mintInfo;
                   curveData := curveData;
                   momentumScore := momentumScore;
                   tier := tier;
                   positionSizePct := _getPositionSizeForTier tier;
                   progress := progress;
                   entered_isNew := false |}
      end
  end.

End Pipeline.

(** *** The job queue *)

(** The metadata [main] attaches to a pushed mint. *)
Record Metadata := { detectedAt : Z; signature : string }.

Record Job := { mint : string; metadata : Metadata; enqueueTime : Z }.

(** The payload of a ['signal'] event: [{ mint, ...result, metadata }]. *)
Record Signal := {
  signal_mint : string;
  signal_result : Entered;
  signal_metadata : Metadata;
}.

(** One constructor per [console.log] call site of the queue. *)
Inductive LogLine :=
| LogAlreadyValidated (mint : string)
| LogStarting (mint : string)
| LogENTER (mint : string) (momentumScore : Z) (tier : Tier)
| LogPASS (mint : string) (reason : Rejection)
| LogERROR (mint : string) (reason : string).

Record Stats := {
  queued : nat;
  processed : nat;
  passed : nat;
  failed : nat;
  entered : nat;
  skipped : nat;
  byFailureReason : gmap string nat;
}.

(** The queue object.  [inflight] holds the jobs whose promise chain
    [_drain] has started and which have not settled yet. *)
Record t := {
  concurrency : nat;
  q : list Job;
  active : nat;
  inflight : list Job;
  validatedMints : TTLCache.t;
  stats : Stats;
  emitted : list Signal;
  console : list LogLine;
}.

(** [new ValidationQueue({ concurrency })]; the cache lives one hour. *)
Definition new (concurrency : nat) : t := {|
  concurrency := concurrency;
  q := [];
  active := 0;
  inflight := [];
  validatedMints := TTLCache.new (60 * 60 * 1000);
  stats := {| queued := 0; processed := 0; passed := 0; failed := 0;
              entered := 0; skipped := 0; byFailureReason := ∅ |};
  emitted := [];
  console := [];
|}.

(** One turn of the [while] loop of [_drain]: the job leaves the queue,
    [active] grows, and [_processJob] starts (it logs and then awaits
    the pipeline). *)
Definition start (job : Job) (rest : list Job) (vq : t) : t :=
  {| concurrency := concurrency vq;
     q := rest;
     active := S (active vq);
     inflight := inflight vq ++ [job];
     validatedMints := validatedMints vq;
     stats := stats vq;
     emitted := emitted vq;
     console := console vq ++ [LogStarting (mint job)] |}.

Fixpoint _drain_loop (queue : list Job) (vq : t) : t :=
  match queue with
  | [] => vq
  | job :: rest =>
      if (active vq <? concurrency vq)%nat
      then _drain_loop rest (start job rest vq)
      else vq
  end.

Definition _drain (vq : t) : t := _drain_loop (q vq) vq.

(** [push(mint, metadata)] at time [now]. *)
Definition push (mint : string) (metadata : Metadata) (now : Z) (vq : t) : t :=
  let '(seen, cache) := TTLCache.has mint now (validatedMints vq) in
  if seen then
    {| concurrency := concurrency vq; q := q vq; active := active vq;
       inflight := inflight vq; validatedMints := cache;
       stats := stats vq; emitted := emitted vq;
       console := console vq ++ [LogAlreadyValidated mint] |}
  else
    let st := stats vq in
    _drain
      {| concurrency := concurrency vq;
         q := q vq ++ [{| mint := mint; metadata := metadata;
                          enqueueTime := now |}];
         active := active vq;
         inflight := inflight vq;
         validatedMints := cache;
         stats := {| queued := S (queued st); processed := processed st;
                     passed := passed st; failed := failed st;
                     entered := entered st; skipped := skipped st;
                     byFailureReason := byFailureReason st |};
         emitted := emitted vq;
         console := console vq |}.

(** The part of [_processJob] that runs once the awaited pipeline has
    settled at time [now]: with a result, or with a thrown error. *)
Definition _processJob (job : Job) (outcome : Result + string) (now : Z)
    (vq : t) : t :=
  let st := stats vq in
  match outcome with
  | inl result =>
      let cache := TTLCache.add (mint job) now (validatedMints vq) in
      match result with
      | ENTER r =>
          {| concurrency := concurrency vq; q := q vq; active := active vq;
             inflight := inflight vq; validatedMints := cache;
             stats := {| queued := queued st; processed := processed st;
                         passed := passed st; failed := failed st;
                         entered := S (entered st); skipped := skipped st;
                         byFailureReason := byFailureReason st |};
             emitted := emitted vq ++
               [{| signal_mint := mint job; signal_result := r;
                   signal_metadata := metadata job |}];
             console := console vq ++
               [LogENTER (mint job) (momentumScore r) (tier r)] |}
      | PASS reason =>
          {| concurrency := concurrency vq; q := q vq; active := active vq;
             inflight := inflight vq; validatedMints := cache;
             stats := {| queued := queued st; processed := processed st;
                         passed := passed st; failed := failed st;
                         entered := entered st; skipped := S (skipped st);
                         byFailureReason := byFailureReason st |};
             emitted := emitted vq;
             console := console vq ++ [LogPASS (mint job) reason] |}
      end
  | inr reason =>
      {| concurrency := concurrency vq; q := q vq; active := active vq;
         inflight := inflight vq; validatedMints := validatedMints vq;
         stats := {| queued := queued st; processed := processed st;
                     passed := passed st; failed := S (failed st);
                     entered := entered st; skipped := skipped st;
                     byFailureReason :=
                       <[reason := S (default 0%nat
                                        (byFailureReason st !! reason))]>
                         (byFailureReason st) |};
         emitted := emitted vq;
         console := console vq ++ [LogERROR (mint job) reason] |}
  end.

(** The [finally] handler of the chain started by [_drain]. *)
Definition finally (vq : t) : t :=
  let st := stats vq in
  _drain
    {| concurrency := concurrency vq; q := q vq;
       active := pred (active vq);
       inflight := inflight vq; validatedMints := validatedMints vq;
       stats := {| queued := queued st; processed := S (processed st);
                   passed := passed st; failed := failed st;
                   entered := entered st; skipped := skipped st;
                   byFailureReason := byFailureReason st |};
       emitted := emitted vq;
       console := console vq |}.

(** The [i]-th job in flight settles: the rest of [_processJob] runs,
    then [finally].  Nothing happens when there is no such job. *)
Definition settle (i : nat) (outcome : Result + string) (now : Z)
    (vq : t) : t :=
  match inflight vq !! i with
  | None => vq
  | Some job =>
      finally
        (_processJob job outcome now
           {| concurrency := concurrency vq; q := q vq;
              active := active vq;
              inflight := take i (inflight vq) ++ drop (S i) (inflight vq);
              validatedMints := validatedMints vq;
              stats := stats vq; emitted := emitted vq;
              console := console vq |})
  end.

(** The event loop runs one callback at a time; what can happen to the
    queue is a call of [push], or the pipeline of a job in flight
    resolving against the [World] it observed. *)
Inductive Event :=
| Push (mint : string) (metadata : Metadata) (now : Z)
| Resolve (i : nat) (w : World) (now : Z)
| Reject (i : nat) (message : string) (now : Z).

Definition step (config : Config.t) (e : Event) (vq : t) : t :=
  match e with
  | Push mint metadata now => push mint metadata now vq
  | Resolve i w now => settle i (inl (_runValidationPipeline config w)) now vq
  | Reject i message now => settle i (inr message) now vq
  end.

Definition run (config : Config.t) (es : list Event) (vq : t) : t :=
  foldl (fun vq e => step config e vq) vq es.


(** The terminal outcomes (ENTER or PASS) reported for [id]. *)
Definition isOutcomeFor (id : string) (l : LogLine) : bool :=
  match l with
  | LogENTER m _ _ | LogPASS m _ => String.eqb m id
  | _ => false
  end.

Definition outcomesFor (id : string) (vq : t) : list LogLine :=
  List.filter (isOutcomeFor id) (console vq).

(** *** The two account fetches *)

(** What a [getAccountInfo] request comes to: it throws, or it resolves
    to account data decoded from base64 ([None]: no account, or no data
    in it).  [_fetchMintInfo] asks up to three times and goes on with the
    first answer that has data, or else with the last one. *)
Inductive Fetched :=
| Threw
| Account (data : option (list Byte.byte)).

(** [_fetchCurveData(mint)]. *)
Definition _fetchCurveData (r : Fetched) : option CurveData :=
  match r with
  | Threw => None
  | Account data => reserves <$> fetchBondingCurve data
  end.

(** [_fetchMintInfo(mint)]: [mintInfo?.supply || '0'] keeps a supply
    that was decoded, since its decimal rendering is not empty;
    [mintInfo?.decimals || 6] replaces a number of decimals of zero. *)
Definition _fetchMintInfo (r : Fetched) : option MintInfo :=
  match r with
  | Threw => None
  | Account None => Some MintNew
  | Account (Some buf) =>
      if negb (length buf =? 82)%nat then Some MintNew
      else
        let mintInfo := SplMint.parseSplMint buf in
        Some (MintFound
                (default 0%Z (SplMint.supply <$> mintInfo))
                (match mintInfo ≫= SplMint.decimals with
                 | Some d => if (d =? 0)%Z then 6%Z else d
                 | None => 6%Z
                 end))
  end.

End ValidationQueue.

(** ** positionManager.js *)

Module PositionManager.
Local Open Scope Q_scope.
Import PumpCurve.

Inductive State := IN_POSITION | TIER_1_EXITED | CLOSED | STOPPED.

Inductive Reason :=
| TIER_1_PROFIT | TIER_2_PROFIT | STOP_LOSS | TIME_DECAY | FEE_SPIKE.

(** Of the signal stored in a position only [curveData] is read. *)
Record Signal := { curveData : option CurveData }.

(** A position object.  [currentPrice], [pnlPct], [exitReason] and
    [exitTime] are absent until the code first assigns them. *)
Record Position := {
  mint : string;
  entryPrice : Q;
  entryTime : Z;
  tokens : Q;
  solInvested : Q;
  signal : option Signal;
  state : State;
  entrySlot : Z;
  lastCheckTime : Z;
  tier1Exited : bool;
  tier2Exited : bool;
  remainingTokens : Q;
  realizedPnL : Q;
  currentPrice : option Q;
  pnlPct : option Q;
  exitReason : option Reason;
  exitTime : option Z;
}.

(** The two shapes of record pushed onto [dailyStats.trades]. *)
Inductive Trade :=
| FullTrade (mint : string) (entryPrice : Q) (exitPrice : option Q)
    (solInvested : Q) (pnlPct : Q) (reason : Reason) (durationMs : Z)
    (timestamp : Z)
| PartialTrade (mint : string) (reason : Reason) (exitPct : Q)
    (tokens : Z) (pnlPct : Q) (timestamp : Z).

Record DailyStats := {
  date : string;
  trades : list Trade;
  totalPnL : Q;
  wins : nat;
  losses : nat;
  aborted : nat;
}.

(** What the manager emits; a payload holds the position as it is at
    the moment of the [emit] call. *)
Inductive Emitted :=
| opened (position : Position)
| partialExit (position : Position) (exitPct : Q) (reason : Reason)
| closed (position : Position) (reason : Reason)
| circuitBreaker (reason : string).

(** One constructor per [console.log] call site. *)
Inductive LogLine :=
| LogMaxPositions
| LogDailyLossLimit
| LogOpened (mint : string)
| LogTier1Exit (mint : string)
| LogTier2Exit (mint : string)
| LogStopLoss (mint : string)
| LogTimeDecay (mint : string)
| LogFeeSpike (mint : string)
| LogPartialExit (mint : string)
| LogFullExit (mint : string)
| LogClosed (mint : string).

Record t := {
  positions : gmap string Position;
  dailyStats : DailyStats;
  emitted : list Emitted;
  console : list LogLine;
}.

(** The outside world during one call: the wall clock, what the
    [getSlot] request resolves to ([None]: it throws), and the
    [Math.random()] draw of [_checkParabolicMove]. *)
Record Env := {
  now : Z;
  slot : option Z;
  random : Q;
}.

Definition new (today : string) : t := {|
  positions := ∅;
  dailyStats := {| date := today; trades := []; totalPnL := 0;
                   wins := 0; losses := 0; aborted := 0 |};
  emitted := [];
  console := [];
|}.

Definition emit (e : Emitted) (pm : t) : t :=
  {| positions := positions pm; dailyStats := dailyStats pm;
     emitted := emitted pm ++ [e]; console := console pm |}.

Definition log (l : LogLine) (pm : t) : t :=
  {| positions := positions pm; dailyStats := dailyStats pm;
     emitted := emitted pm; console := console pm ++ [l] |}.

Definition withPositions (m : gmap string Position) (pm : t) : t :=
  {| positions := m; dailyStats := dailyStats pm;
     emitted := emitted pm; console := console pm |}.

Definition withDailyStats (d : DailyStats) (pm : t) : t :=
  {| positions := positions pm; dailyStats := d;
     emitted := emitted pm; console := console pm |}.

Definition _getCurrentSlot (env : Env) : Z :=
  match slot env with
  | Some s => s
  | None => 0%Z
  end.

Definition _checkParabolicMove (env : Env) : Q := random env * 30.

Inductive DumpRisk := LOW | HIGH.

Record FeeCheck := { feeBalance : Q; feeChange5m : Q; dumpRisk : DumpRisk }.

Definition _checkFeeBalance (mint : string) : FeeCheck :=
  {| feeBalance := 0; feeChange5m := 0; dumpRisk := LOW |}.

Definition _isDailyLossLimitHit (limitPct : Q) (pm : t) : bool :=
  if (totalPnL (dailyStats pm) >=? 0)%num then false
  else
    let lossPct := (Qabs (totalPnL (dailyStats pm)) / 100) * 100 in
    (lossPct >=? limitPct)%num.

(** The arguments object of [openPosition]. *)
Record OpenArgs := {
  arg_mint : string;
  arg_entryPrice : Q;
  arg_tokens : Q;
  arg_solInvested : Q;
  arg_signal : option Signal;
}.

(** [openPosition({ mint, entryPrice, tokens, solInvested, signal })].
    The one [await], for the current slot, sits between the two checks
    and the insertion; the call is taken to run without another call in
    between. *)
Definition openPosition (config : Config.t) (a : OpenArgs) (env : Env)
    (pm : t) : option Position * t :=
  let maxPositions := Config.maxPositions (Config.trading config) in
  let dailyLossLimitPct := Config.dailyLossLimitPct (Config.trading config) in
  if (maxPositions <=? size (positions pm))%nat then
    (None, log LogMaxPositions pm)
  else if _isDailyLossLimitHit dailyLossLimitPct pm then
    (None, emit (circuitBreaker "DAILY_LOSS_LIMIT")
             (log LogDailyLossLimit pm))
  else
    let position := {|
      mint := arg_mint a;
      entryPrice := arg_entryPrice a;
      entryTime := now env;
      tokens := arg_tokens a;
      solInvested := arg_solInvested a;
      signal := arg_signal a;
      state := IN_POSITION;
      entrySlot := _getCurrentSlot env;
      lastCheckTime := now env;
      tier1Exited := false;
      tier2Exited := false;
      remainingTokens := arg_tokens a;
      realizedPnL := 0;
      currentPrice := None;
      pnlPct := None;
      exitReason := None;
      exitTime := None;
    |} in
    (Some position,
     emit (opened position)
       (log (LogOpened (arg_mint a))
          (withPositions (<[arg_mint a := position]> (positions pm)) pm))).

(** Field updates of a position object. *)
Definition priced (cp pnl : Q) (t : Z) (p : Position) : Position :=
  {| mint := mint p; entryPrice := entryPrice p; entryTime := entryTime p;
     tokens := tokens p; solInvested := solInvested p; signal := signal p;
     state := state p; entrySlot := entrySlot p; lastCheckTime := t;
     tier1Exited := tier1Exited p; tier2Exited := tier2Exited p;
     remainingTokens := remainingTokens p; realizedPnL := realizedPnL p;
     currentPrice := Some cp; pnlPct := Some pnl;
     exitReason := exitReason p; exitTime := exitTime p |}.

Definition sold (remaining realized : Q) (p : Position) : Position :=
  {| mint := mint p; entryPrice := entryPrice p; entryTime := entryTime p;
     tokens := tokens p; solInvested := solInvested p; signal := signal p;
     state := state p; entrySlot := entrySlot p;
     lastCheckTime := lastCheckTime p;
     tier1Exited := tier1Exited p; tier2Exited := tier2Exited p;
     remainingTokens := remaining; realizedPnL := realized;
     currentPrice := currentPrice p; pnlPct := pnlPct p;
     exitReason := exitReason p; exitTime := exitTime p |}.

Definition tier1Taken (p : Position) : Position :=
  {| mint := mint p; entryPrice := entryPrice p; entryTime := entryTime p;
     tokens := tokens p; solInvested := solInvested p; signal := signal p;
     state := TIER_1_EXITED; entrySlot := entrySlot p;
     lastCheckTime := lastCheckTime p;
     tier1Exited := true; tier2Exited := tier2Exited p;
     remainingTokens := remainingTokens p; realizedPnL := realizedPnL p;
     currentPrice := currentPrice p; pnlPct := pnlPct p;
     exitReason := exitReason p; exitTime := exitTime p |}.

Definition exited (s : State) (r : Reason) (t : Z) (p : Position) : Position :=
  {| mint := mint p; entryPrice := entryPrice p; entryTime := entryTime p;
     tokens := tokens p; solInvested := solInvested p; signal := signal p;
     state := s; entrySlot := entrySlot p;
     lastCheckTime := lastCheckTime p;
     tier1Exited := tier1Exited p; tier2Exited := tier2Exited p;
     remainingTokens := remainingTokens p; realizedPnL := realizedPnL p;
     currentPrice := currentPrice p; pnlPct := pnlPct p;
     exitReason := Some r; exitTime := Some t |}.

(** [_recordTrade(trade)] for a partial-exit record. *)
Definition _recordTrade (trade : Trade) (tradePnlPct : Q) (pm : t) : t :=
  let d := dailyStats pm in
  withDailyStats
    {| date := date d; trades := trades d ++ [trade];
       totalPnL := totalPnL d; wins := wins d; losses := losses d;
       aborted := if (tradePnlPct <? 0)%num then S (aborted d)
                  else aborted d |}
    pm.

(** [_executePartialExit(position, exitPct, reason)].  The position's
    [pnlPct] has been assigned by the caller; were it absent, the
    arithmetic would yield NaN, which this model does not represent, and
    the call is then taken to change nothing. *)
Definition _executePartialExit (position : Position) (exitPct : Q)
    (reason : Reason) (env : Env) (pm : t) : Position * t :=
  let tokensToExit := Num.Math_floor (remainingTokens position * exitPct) in
  if (tokensToExit <=? 0)%Z then (position, pm)
  else
    match pnlPct position with
    | None => (position, pm)
    | Some pnl =>
        let pm := log (LogPartialExit (mint position)) pm in
        let exitValue :=
          (solInvested position * exitPct) * (1 + pnl / 100) in
        let position :=
          sold (remainingTokens position - inject_Z tokensToExit)
               (realizedPnL position + exitValue * (pnl / 100) * exitPct)
               position in
        let pm :=
          _recordTrade
            (PartialTrade (mint position) reason exitPct tokensToExit pnl
               (now env))
            pnl pm in
        (position, emit (partialExit position exitPct reason) pm)
    end.

(** [_executeFullExit(position, reason)], under the same reading of an
    absent [pnlPct]. *)
Definition _executeFullExit (position : Position) (reason : Reason)
    (env : Env) (pm : t) : Position * t :=
  match pnlPct position with
  | None => (position, pm)
  | Some finalPnLPct =>
      let pm := log (LogFullExit (mint position)) pm in
      let isWin := (finalPnLPct >? 0)%num in
      let d := dailyStats pm in
      let tradePnL := solInvested position * (finalPnLPct / 100) in
      let d := {|
        date := date d;
        trades := trades d ++
          [FullTrade (mint position) (entryPrice position)
             (currentPrice position) (solInvested position) finalPnLPct
             reason (now env - entryTime position) (now env)];
        totalPnL := totalPnL d + tradePnL;
        wins := if isWin then S (wins d) else wins d;
        losses := if isWin then losses d else S (losses d);
        aborted := aborted d |} in
      let pm := withDailyStats d pm in
      let position :=
        exited (match reason with STOP_LOSS => STOPPED | _ => CLOSED end)
               reason (now env) position in
      let pm := withPositions (delete (mint position) (positions pm)) pm in
      let pm := log (LogClosed (mint position)) pm in
      (position, emit (closed position reason) pm)
  end.

(** The price read from the curve reserves stored with the signal. *)
Definition priceFromSignal (position : Position) : option Q :=
  match signal position with
  | Some {| curveData := Some cd |} =>
      if (virtualToken cd >? 0)%Z
      then Some (inject_Z (virtualSol cd) / inject_Z (virtualToken cd))
      else None
  | _ => None
  end.

(** The profit of a position at price [currentPrice], in percent. *)
Definition pnlPctAt (currentPrice : Q) (position : Position) : Q :=
  ((currentPrice - entryPrice position) / entryPrice position) * 100.

(** The exit rules of [_evaluatePosition], once [pnlPct] is known and
    stored in the position. *)
Definition evaluateRules (config : Config.t) (mint : string)
    (position : Position) (pnlPct : Q) (env : Env) (pm : t)
    : Position * t :=
  let exit := Config.exit config in
  let tier1 := Config.tier1 exit in
  let tier2 := Config.tier2 exit in
  let stopLoss := Config.stopLoss exit in
  let timeDecay := Config.timeDecay exit in
  if Config.tier1_enabled tier1 && negb (tier1Exited position)
     && match state position with IN_POSITION => true | _ => false end
     && (pnlPct >=? Config.tier1_minPct tier1)%num
     && (pnlPct <=? Config.tier1_maxPct tier1)%num
  then
    let pm := log (LogTier1Exit mint) pm in
    let '(position, pm) :=
      _executePartialExit position (Config.tier1_exitPct tier1)
        TIER_1_PROFIT env pm in
    (tier1Taken position, pm)
  else if Config.tier2_enabled tier2 && negb (tier2Exited position)
          && (pnlPct >=? Config.tier2_minPct tier2)%num
          && (_checkParabolicMove env >? 20)%num
  then
    _executeFullExit position TIER_2_PROFIT env (log (LogTier2Exit mint) pm)
  else if Config.stopLoss_enabled stopLoss
          && (pnlPct <=? Config.pct stopLoss)%num
  then
    _executeFullExit position STOP_LOSS env (log (LogStopLoss mint) pm)
  else if Config.timeDecay_enabled timeDecay
          && (_getCurrentSlot env - entrySlot position
                >? Config.maxSlots timeDecay)%Z
          && (negb (Config.requireProfit timeDecay) || (pnlPct >? 0)%num)
  then
    _executeFullExit position TIME_DECAY env (log (LogTimeDecay mint) pm)
  else
    let feeCheck := _checkFeeBalance mint in
    if match dumpRisk feeCheck with HIGH => true | LOW => false end
       && Config.feeSpikeExit exit
    then
      _executeFullExit position FEE_SPIKE env (log (LogFeeSpike mint) pm)
    else (position, pm).

(** A position object is shared between the caller and the map: what
    the evaluation assigns to it is seen through the map as long as the
    entry is there. *)
Definition shareWith (mint : string) (position : Position) (pm : t) : t :=
  match positions pm !! mint with
  | Some _ => withPositions (<[mint := position]> (positions pm)) pm
  | None => pm
  end.

(** [_evaluatePosition(mint, position)] for the entry [mint] of the
    map: the position after the call, and the manager after it. *)
Definition _evaluatePosition (config : Config.t) (mint : string)
    (position : Position) (env : Env) (pm : t) : Position * t :=
  match priceFromSignal position with
  | None => (position, pm)
  | Some currentPrice =>
      if negb (Num.truthy currentPrice) then (position, pm)
      else
        let pnlPct := pnlPctAt currentPrice position in
        let position := priced currentPrice pnlPct (now env) position in
        let '(position, pm) :=
          evaluateRules config mint position pnlPct env pm in
        (position, shareWith mint position pm)
  end.

(** The body of the loop of [_checkPositions] for one entry: terminal
    positions are skipped. *)
Definition checkPosition (config : Config.t) (mint : string)
    (position : Position) (env : Env) (pm : t) : Position * t :=
  match state position with
  | CLOSED | STOPPED => (position, pm)
  | _ => _evaluatePosition config mint position env pm
  end.



End PositionManager.

(** ** jupiterQuote.js *)

Module JupiterQuote.
Local Open Scope Q_scope.
Import PumpCurve.

(** [estimatePriceFromCurve(virtualSolReserves, virtualTokenReserves)];
    [None] is [null]. *)
Definition estimatePriceFromCurve (virtualSolReserves virtualTokenReserves : Z)
    : option Q :=
  if (virtualTokenReserves =? 0)%Z then None
  else
    let virtualSol := virtualSolReserves in
    let virtualTokens := virtualTokenReserves in
    Some (inject_Z virtualSol / inject_Z virtualTokens).

Definition calculateTokensForSol (solAmount price : Q) : Q :=
  solAmount / price.

(** The fields of a quote that are read; the others are constants. *)
Record Quote := { inAmount : Z; outAmount : Z }.

(** [simulateQuote({ curveData, solAmount })]. *)
Definition simulateQuote (curveData : option CurveData) (solAmount : Q)
    : option Quote :=
  match curveData with
  | None => None
  | Some curveData =>
      match estimatePriceFromCurve (virtualSol curveData)
              (virtualToken curveData) with
      | None => None
      | Some price =>
          if negb (Num.truthy price) then None
          else
            let tokens := calculateTokensForSol solAmount price in
            Some {| inAmount := Num.Math_floor (solAmount * 1000000000);
                    outAmount := Num.Math_floor (tokens * 1000000) |}
      end
  end.

End JupiterQuote.

(** ** index.js: from a signal to an open position *)

Module Main.
Local Open Scope Q_scope.

(** The size of a trade in SOL, [Math.min(maxPositionSol,
    positionSizePct * 3)]. *)
Definition positionSol (maxPositionSol positionSizePct : Q) : Q :=
  Num.Math_min maxPositionSol (positionSizePct * 3).

(** The signal the queue emits, as the position manager reads it. *)
Definition signalOf (signal : ValidationQueue.Signal)
    : PositionManager.Signal :=
  {| PositionManager.curveData :=
       Some (ValidationQueue.curveData (ValidationQueue.signal_result signal)) |}.

(** The part of [_executeTrade] between the quote and the call of
    [openPosition]: the arguments of that call, for a quote whose
    [outAmount] is given. *)
Definition openArgsOf (signal : ValidationQueue.Signal) (positionSol : Q)
    (outAmount : Z) : PositionManager.OpenArgs :=
  let lamports := Num.Math_floor (positionSol * 1000000000) in
  let entryPrice := inject_Z outAmount / inject_Z lamports in
  {| PositionManager.arg_mint := ValidationQueue.signal_mint signal;
     PositionManager.arg_entryPrice := entryPrice;
     PositionManager.arg_tokens := inject_Z outAmount;
     PositionManager.arg_solInvested := positionSol;
     PositionManager.arg_signal := Some (signalOf signal) |}.

End Main.

(** ** The momentum score in binary64 *)

Module Binary64.
Local Open Scope float_scope.

(** [Math.min] on two numbers neither of which is NaN. *)
Definition Math_min (x y : float) : float := if x <? y then x else y.

(** The weighted sum of [_calculateMomentumScore] before [Math.round],
    computed as JavaScript does, with the weights and the inputs as
    binary64 values. *)
Definition weightedScore (volumeWeight holdersWeight curveWeight : float)
    (estimatedVolumeSol estimatedHolders progress : float) : float :=
  let volumeScore := Math_min ((estimatedVolumeSol / 2) * 100) 100 in
  let holderScore := Math_min ((estimatedHolders / 50) * 100) 100 in
  let curveScore := progress * 0x1.999999999999ap-1 in
  volumeScore * volumeWeight + holderScore * holdersWeight
  + curveScore * curveWeight.

(** The literals [0.4] and [0.2] as binary64 values. *)
Definition w04 : float := 0x1.999999999999ap-2.
Definition w02 : float := 0x1.999999999999ap-3.

End Binary64.

(** ** JavaScript strings and arrays *)

Module Js.

Definition startsWith (s prefix : string) : bool := String.prefix prefix s.

Definition endsWith (s suffix : string) : bool :=
  String.prefix (String.rev suffix) (String.rev s).

(** [s.split(sep)] for a one-character separator. *)
Fixpoint split (sep : ascii) (s : string) : list string :=
  match s with
  | EmptyString => [EmptyString]
  | String c rest =>
      if Ascii.eqb c sep then EmptyString :: split sep rest
      else
        match split sep rest with
        | piece :: pieces => String c piece :: pieces
        | [] => [String c EmptyString]
        end
  end.

Definition isWhiteSpace (c : ascii) : bool :=
  match nat_of_ascii c with
  | 9 | 10 | 11 | 12 | 13 | 32 => true
  | _ => false
  end.

Fixpoint skipWhiteSpace (s : string) : string :=
  match s with
  | String c rest => if isWhiteSpace c then skipWhiteSpace rest else s
  | EmptyString => s
  end.

Definition digitValue (c : ascii) : option Z :=
  let n := Z.of_nat (nat_of_ascii c) in
  if (48 <=? n)%Z && (n <=? 57)%Z then Some (n - 48)%Z
  else if (97 <=? n)%Z && (n <=? 122)%Z then Some (n - 87)%Z
  else if (65 <=? n)%Z && (n <=? 90)%Z then Some (n - 55)%Z
  else None.

(** The value of the longest prefix of digits; [acc] is the value read
    so far, [None] as long as no digit was read. *)
Fixpoint digits (radix : Z) (s : string) (acc : option Z) : option Z :=
  match s with
  | String c rest =>
      match digitValue c with
      | Some d =>
          if (d <? radix)%Z
          then digits radix rest (Some (radix * default 0%Z acc + d)%Z)
          else acc
      | None => acc
      end
  | EmptyString => acc
  end.

(** [parseInt(s)] without a radix argument; [None] stands for NaN. *)
Definition parseInt (s : string) : option Z :=
  let s := skipWhiteSpace s in
  let '(sign, s) :=
    match s with
    | String "-"%char rest => ((-1)%Z, rest)
    | String "+"%char rest => (1%Z, rest)
    | _ => (1%Z, s)
    end in
  let '(radix, s) :=
    match s with
    | String "0"%char (String "x"%char rest) => (16%Z, rest)
    | String "0"%char (String "X"%char rest) => (16%Z, rest)
    | _ => (10%Z, s)
    end in
  Z.mul sign <$> digits radix s None.

(** [Array.prototype.sort], which is stable.  [before x y] holds when
    the comparator does not put [x] after [y]. *)
Fixpoint insertBy {A} (before : A -> A -> bool) (x : A) (l : list A)
    : list A :=
  match l with
  | [] => [x]
  | y :: l' => if before x y then x :: l else y :: insertBy before x l'
  end.

Definition sortBy {A} (before : A -> A -> bool) (l : list A) : list A :=
  foldr (insertBy before) [] l.

(** [array.sort()] on strings: by code units. *)
Definition sort (l : list string) : list string := sortBy String.leb l.

(** [array.slice(0, n)] for [n >= 0]. *)
Definition slice0 {A} (n : nat) (l : list A) : list A := take n l.

End Js.

(** ** stateManager.js *)

Module StateManager.
Local Open Scope Q_scope.

(** JSON values.  An array is an object whose keys are its indices. *)
#[warnings="-register-all"] Inductive json :=
| JNull
| JBool (b : bool)
| JNum (q : Q)
| JStr (s : string)
| JObj (fields : gmap string json).

Abbreviation obj := (gmap string json).

(** [Object.assign(target, source)]: the keys of [source] win. *)
Definition Object_assign (target source : obj) : obj := source ∪ target.

(** [new Map(entries)]: a later entry for a key replaces an earlier. *)
Definition Map_of {A} (entries : list (string * A)) : gmap string A :=
  foldl (fun m kv => <[kv.1 := kv.2]> m) ∅ entries.

(** [Object.entries(array)] for an array of [[key, value]] pairs: the
    keys are the indices, the values the pairs themselves. *)
Definition pairArray (k : string) (v : json) : obj :=
  {[ "0"%string := JStr k; "1"%string := v ]}.

Definition Object_entries (a : list (string * json)) : list (string * obj) :=
  imap (fun i kv => (pretty i, pairArray kv.1 kv.2)) a.

Inductive WalEntry :=
| MINT_SEEN (mint : string) (data : json) (timestamp : Z)
| POSITION_OPENED (mint : string) (position : obj) (timestamp : Z)
| POSITION_UPDATED (mint : string) (updates : obj) (timestamp : Z)
| POSITION_CLOSED (mint : string) (result : obj) (timestamp : Z)
| OTHER (type : string).

Record DailyStats := {
  date : string;
  trades : list json;
  totalPnL : Q;
  wins : nat;
  losses : nat;
  aborted : nat;
}.

(** The in-memory state: [scanner.seenMints] and [positions] are
    [Map]s, [scanner.completedMints] is a [Set]. *)
Record State := {
  seenMints : gmap string json;
  completedMints : gset string;
  positions : gmap string obj;
  dailyStats : DailyStats;
  signals : list json;
}.

(** The state as a snapshot file holds it: [Array.from] of the entries
    of each map, and of the set.  [version], [config] and [stateHash]
    are written too but never read back. *)
Record SnapshotState := {
  snap_seenMints : list (string * json);
  snap_completedMints : list string;
  snap_positions : list (string * obj);
  snap_dailyStats : DailyStats;
  snap_signals : list json;
}.

Record Snapshot := {
  timestamp : Z;
  walOffset : nat;
  state : SnapshotState;
}.

(** The data directory: the files of [snapshots/] and of [wal/], each
    list in creation order, oldest first. *)
Record FS := {
  snapshotsDir : list (string * Snapshot);
  walDir : list (string * list WalEntry);
}.

Record t := {
  current : option State;
  wal : list WalEntry;
  fs : FS;
}.

Definition withState (st : option State) (sm : t) : t :=
  {| current := st; wal := wal sm; fs := fs sm |}.

Definition withPositions (m : gmap string obj) (st : State) : State :=
  {| seenMints := seenMints st; completedMints := completedMints st;
     positions := m; dailyStats := dailyStats st; signals := signals st |}.

Definition withSeenMints (m : gmap string json) (st : State) : State :=
  {| seenMints := m; completedMints := completedMints st;
     positions := positions st; dailyStats := dailyStats st;
     signals := signals st |}.

(** [_applyWalEntry(entry)].  [Object.assign] writes into the position
    object in place; that object is reachable through the map only (the
    parsed entry it may have come from is dropped after the replay), so
    the write is a new value for the key. *)
Definition _applyWalEntry (entry : WalEntry) (st : State) : State :=
  match entry with
  | MINT_SEEN mint data _ =>
      withSeenMints (<[mint := data]> (seenMints st)) st
  | POSITION_OPENED mint position _ =>
      withPositions (<[mint := position]> (positions st)) st
  | POSITION_UPDATED mint updates _ =>
      match positions st !! mint with
      | Some pos =>
          withPositions
            (<[mint := Object_assign pos updates]> (positions st)) st
      | None => st
      end
  | POSITION_CLOSED mint _ _ =>
      withPositions (delete mint (positions st)) st
  | OTHER _ => st
  end.

(** Replaying the entries of one segment, in file order. *)
Definition replaySegment (entries : list WalEntry) (st : State) : State :=
  foldl (fun st entry => _applyWalEntry entry st) st entries.

Definition isSnapshotFile (f : string) : bool :=
  Js.startsWith f "snapshot_" && Js.endsWith f ".json".

(** [parseInt(f.split('_')[1]?.split('.')[0]) || 0]. *)
Definition timestampOf (f : string) : Z :=
  match Js.split "_" f !! 1%nat with
  | None => 0%Z
  | Some piece =>
      match Js.split "." piece !! 0%nat with
      | None => 0%Z
      | Some stem => default 0%Z (Js.parseInt stem)
      end
  end.

(** The file-system calls on a directory listed in creation order. *)
Definition readFile {A} (dir : list (string * A)) (name : string)
    : option A :=
  snd <$> List.find (fun f => String.eqb (fst f) name) dir.

Definition unlink {A} (name : string) (dir : list (string * A))
    : list (string * A) :=
  List.filter (fun f => negb (String.eqb (fst f) name)) dir.

(** [fs.writeFile]: a new file, or new content for an existing one. *)
Definition writeFile {A} (name : string) (content : A)
    (dir : list (string * A)) : list (string * A) :=
  if existsb (fun f => String.eqb (fst f) name) dir
  then map (fun f => if String.eqb (fst f) name then (name, content) else f)
         dir
  else dir ++ [(name, content)].

(** [fs.rename]: the file takes the new name, replacing a file that
    has it. *)
Definition rename {A} (from to : string) (dir : list (string * A))
    : list (string * A) :=
  map (fun f => if String.eqb (fst f) from then (to, snd f) else f)
    (if String.eqb from to then dir else unlink to dir).

(** [_flushWal()] at time [now]: the buffer becomes a new segment.  The
    write is taken to succeed and to finish before anything else runs. *)
Definition _flushWal (now : Z) (sm : t) : t :=
  match wal sm with
  | [] => sm
  | _ =>
      let walFile := ("wal_" ++ pretty now ++ ".log")%string in
      {| current := current sm;
         wal := [];
         fs := {| snapshotsDir := snapshotsDir (fs sm);
                  walDir := writeFile walFile (wal sm) (walDir (fs sm)) |} |}
  end.

(** [_walAppend(entry)] at time [now]. *)
Definition _walAppend (config : Config.t) (entry : WalEntry) (now : Z)
    (sm : t) : t :=
  if negb (Config.useWal (Config.persistence config)) then sm
  else
    let sm := {| current := current sm; wal := wal sm ++ [entry];
                 fs := fs sm |} in
    if (100 <=? length (wal sm))%nat then _flushWal now sm else sm.

(** [addPosition(mint, position)] at time [now], on an initialised
    manager.  The entry is journalled with the position as it is at the
    call. *)
Definition addPosition (config : Config.t) (mint : string) (position : obj)
    (now : Z) (sm : t) : t :=
  match current sm with
  | None => sm
  | Some st =>
      let st :=
        withPositions
          (<[mint := <["state"%string := JStr "IN_POSITION"]> position]>
             (positions st)) st in
      _walAppend config (POSITION_OPENED mint position now) now
        (withState (Some st) sm)
  end.

Definition withSignals (l : list json) (st : State) : State :=
  {| seenMints := seenMints st; completedMints := completedMints st;
     positions := positions st; dailyStats := dailyStats st;
     signals := l |}.

(** [addSeenMint(mint, data)] at time [now], on an initialised
    manager. *)
Definition addSeenMint (config : Config.t) (mint : string) (data : obj)
    (now : Z) (sm : t) : t :=
  match current sm with
  | None => sm
  | Some st =>
      let st :=
        withSeenMints
          (<[mint := JObj (<["timestamp"%string := JNum (inject_Z now)]> data)]>
             (seenMints st)) st in
      _walAppend config (MINT_SEEN mint (JObj data) now) now
        (withState (Some st) sm)
  end.

Definition hasSeenMint (mint : string) (st : State) : bool :=
  bool_decide (is_Some (seenMints st !! mint)).

(** [updatePosition(mint, updates)] at time [now], on an initialised
    manager. *)
Definition updatePosition (config : Config.t) (mint : string) (updates : obj)
    (now : Z) (sm : t) : t :=
  match current sm with
  | None => sm
  | Some st =>
      match positions st !! mint with
      | Some position =>
          let st :=
            withPositions
              (<[mint := Object_assign position updates]> (positions st)) st in
          _walAppend config (POSITION_UPDATED mint updates now) now
            (withState (Some st) sm)
      | None => sm
      end
  end.

(** [addSignal(signal)] at time [now], on an initialised manager:
    [slice(-1000)] keeps the last thousand. *)
Definition addSignal (signal : obj) (now : Z) (sm : t) : t :=
  match current sm with
  | None => sm
  | Some st =>
      let signals :=
        signals st
        ++ [JObj (<["timestamp"%string := JNum (inject_Z now)]> signal)] in
      let signals :=
        if (1000 <? length signals)%nat
        then drop (length signals - 1000) signals
        else signals in
      withState (Some (withSignals signals st)) sm
  end.

Section WithReaddir.

(** [fs.readdir]: the names of a directory, in the order the platform
    enumerates them, as a function of the names in creation order. *)
Variable readdir : list string -> list string.

(** [_loadLatestSnapshot()]. *)
Definition _loadLatestSnapshot (sm : t) : option Snapshot :=
  let files := readdir (map fst (snapshotsDir (fs sm))) in
  let snapshots :=
    Js.sortBy (fun a b => (snd b <=? snd a)%Z)
      (map (fun f => (f, timestampOf f))
         (List.filter isSnapshotFile files)) in
  match snapshots with
  | [] => None
  | latest :: _ => readFile (snapshotsDir (fs sm)) (fst latest)
  end.

(** [_replayWal(walOffset)] on the state being recovered. *)
Definition _replayWal (walOffset : nat) (sm : t) (st : State) : State :=
  let files := readdir (map fst (walDir (fs sm))) in
  foldl
    (fun st file =>
       match readFile (walDir (fs sm)) file with
       | Some entries => replaySegment entries st
       | None => st
       end)
    st (Js.sort files).

(** What [load] makes of the parsed snapshot state: the arrays have
    no [set] method, so each goes through [Object.entries]. *)
Definition revive (s : SnapshotState) : State := {|
  seenMints := JObj <$> Map_of (Object_entries (snap_seenMints s));
  completedMints := list_to_set (snap_completedMints s);
  positions :=
    Map_of (Object_entries
              (map (fun kv => (kv.1, JObj kv.2)) (snap_positions s)));
  dailyStats := snap_dailyStats s;
  signals := snap_signals s;
|}.

(** [load()]. *)
Definition load (config : Config.t) (sm : t) : option State * t :=
  match _loadLatestSnapshot sm with
  | None => (None, sm)
  | Some snapshot =>
      let st := revive (state snapshot) in
      let st :=
        if Config.useWal (Config.persistence config)
        then _replayWal (walOffset snapshot) sm st
        else st in
      (Some st, withState (Some st) sm)
  end.

(** [_cleanupOldSnapshots()] on the snapshot directory. *)
Definition _cleanupOldSnapshots (dir : list (string * Snapshot))
    : list (string * Snapshot) :=
  let files := readdir (map fst dir) in
  let snapshots := List.filter isSnapshotFile files in
  if (5 <? length snapshots)%nat then
    let toDelete := Js.slice0 (length snapshots - 5) snapshots in
    foldl (fun dir f => unlink f dir) dir toDelete
  else dir.

(** The state in serialisable form. *)
Definition serialise (st : State) : SnapshotState := {|
  snap_seenMints := map_to_list (seenMints st);
  snap_completedMints := elements (completedMints st);
  snap_positions := map_to_list (positions st);
  snap_dailyStats := dailyStats st;
  snap_signals := signals st;
|}.

(** The file-system call that fails during [takeSnapshot], if any. *)
Inductive Fault := NoFault | WriteFails | RenameFails.

Inductive Outcome :=
| Returned (snapshotId : option string)
| Thrown.

(** [takeSnapshot()] at time [now], when [crypto.randomUUID()] gives
    [snapshotId]. *)
Definition takeSnapshot (now : Z) (snapshotId : string) (fault : Fault)
    (sm : t) : Outcome * t :=
  match current sm with
  | None => (Returned None, sm)
  | Some st =>
      let snapshot := {| timestamp := now;
                         walOffset := length (wal sm);
                         state := serialise st |} in
      let tempPath := ("snapshot_" ++ snapshotId ++ ".tmp")%string in
      let finalPath := ("snapshot_" ++ snapshotId ++ ".json")%string in
      match fault with
      | WriteFails => (Thrown, sm)
      | RenameFails =>
          (Thrown,
           {| current := current sm; wal := wal sm;
              fs := {| snapshotsDir :=
                         writeFile tempPath snapshot
                           (snapshotsDir (fs sm));
                       walDir := walDir (fs sm) |} |})
      | NoFault =>
          let dir := writeFile tempPath snapshot (snapshotsDir (fs sm)) in
          let dir := rename tempPath finalPath dir in
          let dir := _cleanupOldSnapshots dir in
          (Returned (Some snapshotId),
           {| current := current sm; wal := [];
              fs := {| snapshotsDir := dir;
                       walDir := walDir (fs sm) |} |})
      end
  end.

(** Successive snapshot cycles without faults, one per pair of a
    time and an identifier. *)
Definition snapshotCycles (cycles : list (Z * string)) (sm : t) : t :=
  foldl (fun sm c => snd (takeSnapshot (fst c) (snd c) NoFault sm))
    sm cycles.

(** [shutdown()]: the final snapshot at time [now], then the final
    flush at time [later]; a snapshot that throws ends the call. *)
Definition shutdown (now later : Z) (snapshotId : string) (fault : Fault)
    (sm : t) : Outcome * t :=
  match takeSnapshot now snapshotId fault sm with
  | (Thrown, sm) => (Thrown, sm)
  | (Returned _, sm) => (Returned None, _flushWal later sm)
  end.

End WithReaddir.

(** The names of the snapshot files on disk, oldest first. *)
Definition snapshotsOnDisk (sm : t) : list string :=
  List.filter isSnapshotFile (map fst (snapshotsDir (fs sm))).

End StateManager.

(** ** Vocabulary of the properties *)

(** An unsigned 64-bit quantity. *)
Definition u64 (z : Z) : Prop := (0 <= z < 2 ^ 64)%Z.

(** An established token: 50,000,000 base units minted, 30,000,000 of
    them still in the curve, 0.6 SOL of real reserves; the volume draw is
    0.25 and the initial-buy draw 0.5. *)
Definition establishedWorld : ValidationQueue.World := {|
  ValidationQueue.fetchedCurve := Some {|
    PumpCurve.virtualToken := 1000000000;
    PumpCurve.virtualSol := 30000000000;
    PumpCurve.realToken := 30000000;
    PumpCurve.realSol := 600000000;
  |};
  ValidationQueue.fetchedMint := Some (ValidationQueue.MintFound 50000000 6);
  ValidationQueue.randomVolume := 1 # 4;
  ValidationQueue.randomInitialBuy := 1 # 2;
|}.

(** A token whose mint account is not visible yet, with 0.2 SOL of real
    reserves. *)
Definition freshWorld : ValidationQueue.World := {|
  ValidationQueue.fetchedCurve := Some {|
    PumpCurve.virtualToken := 1073000000000000;
    PumpCurve.virtualSol := 30000000000;
    PumpCurve.realToken := 793100000000000;
    PumpCurve.realSol := 200000000;
  |};
  ValidationQueue.fetchedMint := Some ValidationQueue.MintNew;
  ValidationQueue.randomVolume := 1 # 4;
  ValidationQueue.randomInitialBuy := 1 # 2;
|}.



(** The same mint pushed twice, 50 ms apart, before its first validation
    has finished; both validations then resolve. *)
Definition duplicateMint : string := "7xKXtg2CW87d97TXJSDpbD5jBkheTqA83TZRuJosgAsU".

Definition duplicatePushes : list ValidationQueue.Event :=
  let md t := {| ValidationQueue.detectedAt := t;
                 ValidationQueue.signature := "5VERv8NMvzbJMEkV8xnrLkEaWRtSz9CosKDYjCJjBRnbJLgp8uirBgmQpjKhoR4tjF3ZpRzrFmBV6UjKdiSZkQUW" |} in
  [ ValidationQueue.Push duplicateMint (md 1700000000000%Z) 1700000000000;
    ValidationQueue.Push duplicateMint (md 1700000000050%Z) 1700000000050;
    ValidationQueue.Resolve 0 freshWorld 1700000000900;
    ValidationQueue.Resolve 0 freshWorld 1700000000950 ].

(** The profit an evaluation computes for a position, when it gets as
    far as computing one. *)
Definition computedPnl (p : PositionManager.Position) : option Q :=
  match PositionManager.priceFromSignal p with
  | Some currentPrice =>
      if Num.truthy currentPrice
      then Some (PositionManager.pnlPctAt currentPrice p)
      else None
  | None => None
  end.

Definition nonTerminal (p : PositionManager.Position) : Prop :=
  PositionManager.state p = PositionManager.IN_POSITION
  \/ PositionManager.state p = PositionManager.TIER_1_EXITED.

(** What a call printed: the console lines it added. *)
Definition printed (pm pm' : PositionManager.t) : list PositionManager.LogLine :=
  drop (length (PositionManager.console pm)) (PositionManager.console pm').

(** What a call emitted. *)
Definition raised (pm pm' : PositionManager.t) : list PositionManager.Emitted :=
  drop (length (PositionManager.emitted pm)) (PositionManager.emitted pm').

Definition isTier1Line (l : PositionManager.LogLine) : bool :=
  match l with PositionManager.LogTier1Exit _ => true | _ => false end.

Definition isStopLossLine (l : PositionManager.LogLine) : bool :=
  match l with PositionManager.LogStopLoss _ => true | _ => false end.

(** The tier-1 rule, respectively the stop-loss rule, fired between the
    two states of the manager. *)
Definition tier1Fired (pm pm' : PositionManager.t) : Prop :=
  existsb isTier1Line (printed pm pm') = true.

Definition stopLossFired (pm pm' : PositionManager.t) : Prop :=
  existsb isStopLossLine (printed pm pm') = true.

(** The precedence claim for one position: if it is not terminal and its
    profit is computed as 75, tier 1 fires and the stop loss does not. *)
Definition tier1AtPnl75 (config : Config.t) (mint : string)
    (p : PositionManager.Position) (env : PositionManager.Env)
    (pm : PositionManager.t) : Prop :=
  nonTerminal p ->
  (exists pnl, computedPnl p = Some pnl /\ (pnl == 75)%Q) ->
  let pm' := snd (PositionManager.checkPosition config mint p env pm) in
  tier1Fired pm pm' /\ ~ stopLossFired pm pm'.

(** Curve reserves that price a token at 0.0000525 SOL. *)
Definition curveAt525 : PumpCurve.CurveData := {|
  PumpCurve.virtualToken := 1000000000000000;
  PumpCurve.virtualSol := 52500000000;
  PumpCurve.realToken := 700000000000000;
  PumpCurve.realSol := 22500000000;
|}.

(** Reserves that price it at 0.0000255 SOL, and at 0.0000255003 SOL. *)
Definition curveAt255 : PumpCurve.CurveData := {|
  PumpCurve.virtualToken := 1000000000000000;
  PumpCurve.virtualSol := 25500000000;
  PumpCurve.realToken := 900000000000000;
  PumpCurve.realSol := 1000000000;
|}.

Definition curveAt255003 : PumpCurve.CurveData := {|
  PumpCurve.virtualToken := 1000000000000000;
  PumpCurve.virtualSol := 25500300000;
  PumpCurve.realToken := 900000000000000;
  PumpCurve.realSol := 1000000000;
|}.

(** A position entered at [entryPrice], whose signal carries [curve]. *)
Definition positionAt (mint : string) (entryPrice : Q)
    (curve : PumpCurve.CurveData) : PositionManager.Position := {|
  PositionManager.mint := mint;
  PositionManager.entryPrice := entryPrice;
  PositionManager.entryTime := 1700000000000;
  PositionManager.tokens := 1000000;
  PositionManager.solInvested := 5 # 100;
  PositionManager.signal :=
    Some {| PositionManager.curveData := Some curve |};
  PositionManager.state := PositionManager.IN_POSITION;
  PositionManager.entrySlot := 250000000;
  PositionManager.lastCheckTime := 1700000000000;
  PositionManager.tier1Exited := false;
  PositionManager.tier2Exited := false;
  PositionManager.remainingTokens := 1000000;
  PositionManager.realizedPnL := 0;
  PositionManager.currentPrice := None;
  PositionManager.pnlPct := None;
  PositionManager.exitReason := None;
  PositionManager.exitTime := None;
|}.

Definition quietEnv : PositionManager.Env := {|
  PositionManager.now := 1700000002000;
  PositionManager.slot := Some 250000010%Z;
  PositionManager.random := 1 # 2;
|}.

Definition managing (ps : list PositionManager.Position) : PositionManager.t :=
  PositionManager.withPositions
    (list_to_map (map (fun p => (PositionManager.mint p, p)) ps))
    (PositionManager.new "2023-11-14").

(** A position bought at 0.00003 SOL and now priced at 0.0000525 SOL, a
    profit of 75 percent, as one evaluation leaves it: tier 1 taken. *)
Definition heldAt75 : PositionManager.Position :=
  positionAt "MintA" (3 # 100000) curveAt525.

Definition heldAt75AfterTier1 : PositionManager.Position :=
  fst (PositionManager.checkPosition Config.default "MintA" heldAt75
         quietEnv (managing [heldAt75])).

Definition bookAfterTier1 : PositionManager.t :=
  snd (PositionManager.checkPosition Config.default "MintA" heldAt75
         quietEnv (managing [heldAt75])).

(** Positions bought at 0.00003 SOL whose profit is -15 percent, and
    -14.999 percent. *)
Definition heldAtMinus15 : PositionManager.Position :=
  positionAt "MintA" (3 # 100000) curveAt255.

Definition heldAtMinus14999 : PositionManager.Position :=
  positionAt "MintA" (3 # 100000) curveAt255003.

(** The claim about rejected openings: at the cap or with the breaker
    tripped, no position is created and an event is raised. *)
Definition atCap (config : Config.t) (pm : PositionManager.t) : Prop :=
  (Config.maxPositions (Config.trading config)
   <= size (PositionManager.positions pm))%nat.

Definition breakerTripped (config : Config.t) (pm : PositionManager.t) : Prop :=
  PositionManager._isDailyLossLimitHit
    (Config.dailyLossLimitPct (Config.trading config)) pm = true.

Definition rejectionRaisesEvent (config : Config.t)
    (a : PositionManager.OpenArgs) (env : PositionManager.Env)
    (pm : PositionManager.t) : Prop :=
  atCap config pm \/ breakerTripped config pm ->
  let r := PositionManager.openPosition config a env pm in
  fst r = None
  /\ PositionManager.positions (snd r) = PositionManager.positions pm
  /\ raised pm (snd r) <> [].

Definition openArgs (mint : string) : PositionManager.OpenArgs := {|
  PositionManager.arg_mint := mint;
  PositionManager.arg_entryPrice := 3 # 100000;
  PositionManager.arg_tokens := 1000000;
  PositionManager.arg_solInvested := 5 # 100;
  PositionManager.arg_signal :=
    Some {| PositionManager.curveData := Some curveAt525 |};
|}.

(** A manager holding three open positions, the default cap. *)
Definition fullBook : PositionManager.t :=
  managing [ positionAt "MintA" (3 # 100000) curveAt525;
             positionAt "MintB" (3 # 100000) curveAt525;
             positionAt "MintC" (3 # 100000) curveAt525 ].

(** A manager with no open position and a day's loss of 20. *)
Definition losingDay : PositionManager.t :=
  PositionManager.withDailyStats
    {| PositionManager.date := "2023-11-14";
       PositionManager.trades := [];
       PositionManager.totalPnL := -20;
       PositionManager.wins := 0;
       PositionManager.losses := 4;
       PositionManager.aborted := 0 |}
    (PositionManager.new "2023-11-14").

(** Recovery as the specification words it: the segments in lexical
    order, and of their entries only those at an index not below the
    snapshot's [walOffset]. *)
Definition entriesInOrder (readdir : list string -> list string)
    (sm : StateManager.t) : list StateManager.WalEntry :=
  concat
    (omap (StateManager.readFile (StateManager.walDir (StateManager.fs sm)))
       (Js.sort (readdir (map fst (StateManager.walDir (StateManager.fs sm)))))).

Definition replayAfterOffset (readdir : list string -> list string)
    (walOffset : nat) (sm : StateManager.t) (st : StateManager.State)
    : StateManager.State :=
  StateManager.replaySegment (drop walOffset (entriesInOrder readdir sm)) st.

(** What [load] would recover if the replay skipped the entries below
    the offset of the snapshot it starts from. *)
Definition recoveredAfterOffset (readdir : list string -> list string)
    (sm : StateManager.t) : option StateManager.State :=
  (fun snapshot =>
     replayAfterOffset readdir (StateManager.walOffset snapshot) sm
       (StateManager.revive (StateManager.state snapshot)))
  <$> StateManager._loadLatestSnapshot readdir sm.

(** A manager on a fresh data directory, as [initialize] leaves it. *)
Definition initialised : StateManager.t := {|
  StateManager.current := Some {|
    StateManager.seenMints := ∅;
    StateManager.completedMints := ∅;
    StateManager.positions := ∅;
    StateManager.dailyStats := {|
      StateManager.date := "2023-11-14";
      StateManager.trades := [];
      StateManager.totalPnL := 0;
      StateManager.wins := 0;
      StateManager.losses := 0;
      StateManager.aborted := 0;
    |};
    StateManager.signals := [];
  |};
  StateManager.wal := [];
  StateManager.fs := {| StateManager.snapshotsDir := [];
                        StateManager.walDir := [] |};
|}.

(** The position objects [main] hands to [addPosition]. *)
Definition positionOn (mint : string) : gmap string StateManager.json :=
  {[ "mint" := StateManager.JStr mint;
     "state" := StateManager.JStr "IN_POSITION";
     "entryPrice" := StateManager.JNum (3 # 100000);
     "tokens" := StateManager.JNum 1000000;
     "solInvested" := StateManager.JNum (5 # 100) ]}.

Definition openedMintA : gmap string StateManager.json := positionOn "MintA".
Definition openedMintB : gmap string StateManager.json := positionOn "MintB".

(** A session that ends in a crash.  A position on MintA is opened and
    the WAL timer flushes its entry to a segment; a position on MintB is
    opened; the snapshot timer fires while the entry for MintB is the one
    entry in the buffer, so the snapshot holds both positions and records
    [walOffset = 1]; the process dies.  What is left is the data
    directory. *)
Definition session : StateManager.t :=
  snd (StateManager.takeSnapshot Js.sort 1700000300000
         "5d1c2a7e-93b4-4f0a-8c6d-2e1f0a9b8c7d" StateManager.NoFault
         (StateManager.addPosition Config.default "MintB" openedMintB
            1700000200000
            (StateManager._flushWal 1700000005000
               (StateManager.addPosition Config.default "MintA" openedMintA
                  1700000001000 initialised)))).

Definition crashed : StateManager.t := {|
  StateManager.current := None;
  StateManager.wal := [];
  StateManager.fs := StateManager.fs session;
|}.

(** Seven snapshot cycles on a fresh data directory, with the
    identifiers [crypto.randomUUID()] returned. *)
Definition sevenCycles : list (Z * string) :=
  [ (1700000300000%Z, "9b2f6c1e-7a34-4d8e-b1c5-3f0a9e6d2c71");
    (1700000600000%Z, "c47d1a90-5e2b-4f6a-9d38-8b1e0f7a6c52");
    (1700000900000%Z, "a1e8f3b2-0c9d-4a7e-8f21-6d5c4b3a2e10");
    (1700001200000%Z, "f0c3d9a7-2b1e-4c5f-a6d8-9e7b1c0d3f42");
    (1700001500000%Z, "b85a2e6f-9d0c-4b3a-8e7f-1a2b3c4d5e6f");
    (1700001800000%Z, "d6e9b0c4-3f7a-4e1d-9c2b-7f8e9d0a1b2c");
    (1700002100000%Z, "0a4c7e19-8d2f-4b6a-a3c5-e1f2d3c4b5a6") ].

Definition snapshotFileOf (cycle : Z * string) : string :=
  ("snapshot_" ++ snd cycle ++ ".json")%string.

(** The same manager with the position on MintA open. *)
Definition holdingMintA : StateManager.t := {|
  StateManager.current :=
    StateManager.withPositions {[ "MintA" := openedMintA ]}
      <$> StateManager.current initialised;
  StateManager.wal := [];
  StateManager.fs := StateManager.fs initialised;
|}.

(** The snapshot files a run of cycles should leave: those of the last
    five cycles, in creation order. *)
Definition fiveMostRecent (cycles : list (Z * string)) : list string :=
  map snapshotFileOf (drop (length cycles - 5) cycles).

(** ** Vocabulary of the further properties *)

(** The number a sequence of bytes denotes, least significant first. *)
Fixpoint littleEndian (bs : list Byte.byte) : Z :=
  match bs with
  | [] => 0
  | b :: bs => Z.of_N (Byte.to_N b) + 256 * littleEndian bs
  end.

(** The eight bytes of a buffer at an offset, read as such a number. *)
Definition fieldAt (off : nat) (buf : list Byte.byte) : Z :=
  littleEndian (take 8 (drop off buf)).

(** The world a job sees when its two account requests come to [curve]
    and [mint]. *)
Definition observed (curve mint : ValidationQueue.Fetched)
    (randomVolume randomInitialBuy : Q) : ValidationQueue.World := {|
  ValidationQueue.fetchedCurve := ValidationQueue._fetchCurveData curve;
  ValidationQueue.fetchedMint := ValidationQueue._fetchMintInfo mint;
  ValidationQueue.randomVolume := randomVolume;
  ValidationQueue.randomInitialBuy := randomInitialBuy;
|}.

(** The score of a token whose mint account is not visible yet, by the
    lamports of real reserves of its curve. *)
Definition earlyScoreFor (realSol : Z) : Z :=
  if (500000000 <=? realSol)%Z then 95
  else if (300000000 <=? realSol)%Z then 90 else 85.

(** An established token far along its curve: 1,000,000,000 base units
    minted, 200,000,000 of them still in the curve, 40 SOL of real
    reserves; the volume draw is 0.75. *)
Definition hotWorld : ValidationQueue.World := {|
  ValidationQueue.fetchedCurve := Some {|
    PumpCurve.virtualToken := 480000000;
    PumpCurve.virtualSol := 70000000000;
    PumpCurve.realToken := 200000000;
    PumpCurve.realSol := 40000000000;
  |};
  ValidationQueue.fetchedMint := Some (ValidationQueue.MintFound 1000000000 6);
  ValidationQueue.randomVolume := 3 # 4;
  ValidationQueue.randomInitialBuy := 1 # 2;
|}.

(** The books of the queue balance: every worker holds one job in
    flight, no more workers run than allowed, none is idle while a job
    waits, and the counters add up. *)
Definition accounted (concurrency : nat) (vq : ValidationQueue.t) : Prop :=
  let st := ValidationQueue.stats vq in
  ValidationQueue.concurrency vq = concurrency
  /\ ValidationQueue.active vq = length (ValidationQueue.inflight vq)
  /\ (ValidationQueue.active vq <= concurrency)%nat
  /\ (ValidationQueue.q vq <> [] -> ValidationQueue.active vq = concurrency)
  /\ ValidationQueue.queued st
     = (ValidationQueue.processed st + ValidationQueue.active vq
        + length (ValidationQueue.q vq))%nat
  /\ ValidationQueue.processed st
     = (ValidationQueue.entered st + ValidationQueue.skipped st
        + ValidationQueue.failed st)%nat
  /\ length (ValidationQueue.emitted vq) = ValidationQueue.entered st
  /\ ValidationQueue.passed st = 0%nat.






(** What a recorded trade adds to the profit of the day. *)
Definition tradePnL (t : PositionManager.Trade) : Q :=
  match t with
  | PositionManager.FullTrade _ _ _ solInvested pnlPct _ _ _ =>
      (solInvested * (pnlPct / 100))%Q
  | PositionManager.PartialTrade _ _ _ _ _ _ => 0%Q
  end.



(** The signal the queue emits for the fresh token of [freshWorld]. *)
Definition enteredSignal : ValidationQueue.Signal := {|
  ValidationQueue.signal_mint := duplicateMint;
  ValidationQueue.signal_result := {|
    ValidationQueue.mintInfo := Some ValidationQueue.MintNew;
    ValidationQueue.curveData := {|
      PumpCurve.virtualToken := 1073000000000000;
      PumpCurve.virtualSol := 30000000000;
      PumpCurve.realToken := 793100000000000;
      PumpCurve.realSol := 200000000;
    |};
    ValidationQueue.momentumScore := 85;
    ValidationQueue.tier := ValidationQueue.EXTREME;
    ValidationQueue.positionSizePct := 1;
    ValidationQueue.progress := 0;
    ValidationQueue.entered_isNew := true;
  |};
  ValidationQueue.signal_metadata := {|
    ValidationQueue.detectedAt := 1700000000000;
    ValidationQueue.signature := "5VERv8NMvzbJMEkV8xnrLkEaWRtSz9CosKDYjCJjBRnbJLgp8uirBgmQpjKhoR4tjF3ZpRzrFmBV6UjKdiSZkQUW";
  |};
|}.

(** The calls of the state manager that journal what they do. *)
Inductive Journalled :=
| AddPosition (mint : string) (position : gmap string StateManager.json)
    (now : Z)
| UpdatePosition (mint : string) (updates : gmap string StateManager.json)
    (now : Z)
| AddSeenMint (mint : string) (data : gmap string StateManager.json)
    (now : Z).

Definition journalled (config : Config.t) (c : Journalled)
    (sm : StateManager.t) : StateManager.t :=
  match c with
  | AddPosition mint position now =>
      StateManager.addPosition config mint position now sm
  | UpdatePosition mint updates now =>
      StateManager.updatePosition config mint updates now sm
  | AddSeenMint mint data now =>
      StateManager.addSeenMint config mint data now sm
  end.

(** The positions handed to [addPosition] are those the position
    manager has just opened: their state is IN_POSITION. *)
Definition opensInPosition (c : Journalled) : Prop :=
  match c with
  | AddPosition _ position _ =>
      position !! "state" = Some (StateManager.JStr "IN_POSITION")
  | _ => True
  end.

(** A short session: a position is opened, marked, and a mint noted. *)
Definition threeCalls : list Journalled :=
  [ AddPosition "MintA" openedMintA 1700000001000;
    UpdatePosition "MintA"
      {[ "pnlPct" := StateManager.JNum 12 ]} 1700000003000;
    AddSeenMint "MintB" {[ "source" := StateManager.JStr "ws" ]}
      1700000004000 ].

(* ===================================================================== *)
(** * Part II: properties                                                 *)
(* ===================================================================== *)

(** ** Numeric helpers *)

Lemma Num_le_iff x y : Num.le x y = true <-> (x <= y)%Q.
Proof. apply Qle_bool_iff. Qed.

Lemma Num_ge_iff x y : Num.ge x y = true <-> (y <= x)%Q.
Proof. apply Qle_bool_iff. Qed.

Lemma Num_lt_iff x y : Num.lt x y = true <-> (x < y)%Q.
Proof.
  unfold Num.lt. rewrite negb_true_iff, <- not_true_iff_false, Qle_bool_iff.
  split; [apply Qnot_le_lt | apply Qlt_not_le].
Qed.

Lemma Num_gt_iff x y : Num.gt x y = true <-> (y < x)%Q.
Proof.
  unfold Num.gt. rewrite negb_true_iff, <- not_true_iff_false, Qle_bool_iff.
  split; [apply Qnot_le_lt | apply Qlt_not_le].
Qed.

Lemma Num_le_false x y : Num.le x y = false <-> (y < x)%Q.
Proof.
  rewrite <- not_true_iff_false, Num_le_iff.
  split; [apply Qnot_le_lt | apply Qlt_not_le].
Qed.

Lemma Num_ge_false x y : Num.ge x y = false <-> (x < y)%Q.
Proof. apply Num_le_false. Qed.

Lemma Num_lt_false x y : Num.lt x y = false <-> (y <= x)%Q.
Proof. unfold Num.lt. rewrite negb_false_iff. apply Qle_bool_iff. Qed.

Lemma Num_gt_false x y : Num.gt x y = false <-> (x <= y)%Q.
Proof. unfold Num.gt. rewrite negb_false_iff. apply Qle_bool_iff. Qed.

Lemma Math_min_spec x y :
  (x <= y /\ Num.Math_min x y = x)%Q \/ (y < x /\ Num.Math_min x y = y)%Q.
Proof.
  unfold Num.Math_min. destruct (Qle_bool x y) eqn:E.
  - left. split; [by apply Qle_bool_iff | done].
  - right. split; [by apply Num_le_false | done].
Qed.

Lemma Math_max_spec x y :
  (x <= y /\ Num.Math_max x y = y)%Q \/ (y < x /\ Num.Math_max x y = x)%Q.
Proof.
  unfold Num.Math_max. destruct (Qle_bool x y) eqn:E.
  - left. split; [by apply Qle_bool_iff | done].
  - right. split; [by apply Num_le_false | done].
Qed.

(** Clamping to [[0, 100]] keeps the value in range and is monotone. *)
Lemma clamp_bounds x :
  (0 <= Num.Math_max 0 (Num.Math_min 100 x) <= 100)%Q.
Proof.
  destruct (Math_min_spec 100 x) as [[? ->]|[? ->]];
    destruct (Math_max_spec 0 (100:Q)) as [[? E]|[? E]];
    destruct (Math_max_spec 0 x) as [[? E']|[? E']];
    rewrite ?E, ?E'; lra.
Qed.

Lemma clamp_mono x y :
  (x <= y)%Q ->
  (Num.Math_max 0 (Num.Math_min 100 x) <= Num.Math_max 0 (Num.Math_min 100 y))%Q.
Proof.
  intros Hxy.
  destruct (Math_min_spec 100 x) as [[? ->]|[? ->]];
    destruct (Math_min_spec 100 y) as [[? ->]|[? ->]];
    destruct (Math_max_spec 0 (100:Q)) as [[? E]|[? E]];
    destruct (Math_max_spec 0 x) as [[? E1]|[? E1]];
    destruct (Math_max_spec 0 y) as [[? E2]|[? E2]];
    rewrite ?E, ?E1, ?E2; lra.
Qed.

(** ** Curve progress *)

Lemma computeProgressPct_range rt sup :
  (0 <= PumpCurve.computeProgressPct rt sup <= 100)%Q.
Proof.
  unfold PumpCurve.computeProgressPct.
  destruct (sup =? 0)%Z; [lra | apply clamp_bounds].
Qed.

Lemma computeProgressPct_full_reserve sup :
  (PumpCurve.computeProgressPct sup sup == 0)%Q.
Proof.
  unfold PumpCurve.computeProgressPct.
  destruct (sup =? 0)%Z; [reflexivity|].
  rewrite Z.gtb_ltb, Z.ltb_irrefl. reflexivity.
Qed.


Lemma computeProgressPct_antitone rt1 rt2 sup :
  (0 < sup)%Z -> (rt1 <= rt2)%Z ->
  (PumpCurve.computeProgressPct rt2 sup
   <= PumpCurve.computeProgressPct rt1 sup)%Q.
Proof.
  intros Hsup Hrt. unfold PumpCurve.computeProgressPct.
  destruct (Z.eqb_spec sup 0); [lia|].
  apply clamp_mono.
  apply Qmult_le_compat_r; [|by compute].
  rewrite <- Zle_Qle. apply Z.quot_le_mono; [done|].
  destruct (Z.gtb_spec sup rt1), (Z.gtb_spec sup rt2); lia.
Qed.

(** C8.  For every nonzero unsigned 64-bit supply, the progress computed
    for any curve state lies in [[0, 100]]; it is 0 when the real token
    reserve equals the supply; and it does not decrease as the real
    token reserve decreases with the supply held fixed. *)
Theorem computeProgressPct_bounded_zero_monotone (supply : Z) :
  u64 supply -> supply <> 0%Z ->
  (forall realToken, u64 realToken ->
     (0 <= PumpCurve.computeProgressPct realToken supply <= 100)%Q)
  /\ (PumpCurve.computeProgressPct supply supply == 0)%Q
  /\ (forall rt1 rt2, u64 rt1 -> u64 rt2 -> (rt1 <= rt2)%Z ->
        (PumpCurve.computeProgressPct rt2 supply
         <= PumpCurve.computeProgressPct rt1 supply)%Q).
Proof.
  intros [Hlo Hhi] Hnz. split; [|split].
  - intros rt _. apply computeProgressPct_range.
  - apply computeProgressPct_full_reserve.
  - intros rt1 rt2 _ _ Hle. apply computeProgressPct_antitone; lia.
Qed.

Lemma computeProgressPct_bounded_zero_monotone_witness :
  (forall realToken, u64 realToken ->
     (0 <= PumpCurve.computeProgressPct realToken 1000000000 <= 100)%Q)
  /\ (PumpCurve.computeProgressPct 1000000000 1000000000 == 0)%Q
  /\ (forall rt1 rt2, u64 rt1 -> u64 rt2 -> (rt1 <= rt2)%Z ->
        (PumpCurve.computeProgressPct rt2 1000000000
         <= PumpCurve.computeProgressPct rt1 1000000000)%Q).
Proof.
  apply (computeProgressPct_bounded_zero_monotone 1000000000).
  - unfold u64. lia.
  - lia.
Defined.

(** ** The validation pipeline *)

Lemma Math_round_unique (x : Q) (z : Z) :
  (inject_Z z - (1 # 2) <= x)%Q -> (x < inject_Z z + (1 # 2))%Q ->
  Num.Math_round x = z.
Proof.
  intros Hlo Hhi. unfold Num.Math_round.
  pose proof (Qfloor_le (x + (1 # 2))) as Hf.
  pose proof (Qlt_floor (x + (1 # 2))) as Hc.
  rewrite inject_Z_plus in Hc. change (inject_Z 1) with 1%Q in Hc.
  assert (inject_Z (Qfloor (x + (1 # 2))) < inject_Z (z + 1))%Q as H1
    by (rewrite inject_Z_plus; change (inject_Z 1) with 1%Q; lra).
  assert (inject_Z z < inject_Z (Qfloor (x + (1 # 2)) + 1))%Q as H2
    by (rewrite inject_Z_plus; change (inject_Z 1) with 1%Q; lra).
  rewrite <- Zlt_Qlt in H1, H2. lia.
Qed.

(** Linear arithmetic over [Q] after turning each division by a literal
    into a multiplication by its inverse. *)
Ltac inv_consts :=
  repeat match goal with
  | |- context [Qinv (Qmake ?n ?d)] =>
      let r := eval compute in (Qinv (Qmake n d)) in
      change (Qinv (Qmake n d)) with r
  | H : context [Qinv (Qmake ?n ?d)] |- _ =>
      let r := eval compute in (Qinv (Qmake n d)) in
      change (Qinv (Qmake n d)) with r in H
  end.

Ltac qlra := unfold Qdiv in *; inv_consts; lra.

(** Case analysis on the comparisons of a goal, closing by linear
    arithmetic the cases that contradict the hypotheses. *)
Ltac num_case :=
  match goal with
  | |- context [Num.ge ?x ?y] =>
      let E := fresh "E" in
      destruct (Num.ge x y) eqn:E;
      [apply Num_ge_iff in E | apply Num_ge_false in E]
  | |- context [Num.le ?x ?y] =>
      let E := fresh "E" in
      destruct (Num.le x y) eqn:E;
      [apply Num_le_iff in E | apply Num_le_false in E]
  | |- context [Num.gt ?x ?y] =>
      let E := fresh "E" in
      destruct (Num.gt x y) eqn:E;
      [apply Num_gt_iff in E | apply Num_gt_false in E]
  | |- context [Num.lt ?x ?y] =>
      let E := fresh "E" in
      destruct (Num.lt x y) eqn:E;
      [apply Num_lt_iff in E | apply Num_lt_false in E]
  end.

Ltac num_cases := repeat (num_case; try (exfalso; simpl in *; qlra); simpl).

Section DefaultPipeline.
Import PumpCurve ValidationQueue.
Local Open Scope Q_scope.

Lemma momentum_score_41 (v : Validation) (progress : Q) :
  estimatedVolumeSol v == 1 -> estimatedHolders v == 20 ->
  progress == 40 ->
  _calculateMomentumScore Config.default v progress = 41%Z.
Proof.
  intros Hv Hh Hp. unfold _calculateMomentumScore. simpl.
  apply Math_round_unique.
  all: destruct (Math_min_spec (estimatedVolumeSol v / 2 * 100) 100)
      as [[? ->]|[? ->]];
    destruct (Math_min_spec (estimatedHolders v / 50 * 100) 100)
      as [[? ->]|[? ->]]; unfold inject_Z; qlra.
Qed.

Lemma getTier_41 : _getTier Config.default 41 = HOT.
Proof. reflexivity. Qed.

(** C7.  An established candidate whose curve progress is 40, whose
    liquidity is 0.6 SOL, whose estimated holders are 20 and whose
    estimated volume is 1.0 SOL is entered by the pipeline under the
    default configuration, with score 41 and tier HOT. *)
Theorem established_candidate_enters_HOT
    (w : World) (cd : CurveData) (supply decimals : Z) :
  fetchedCurve w = Some cd ->
  fetchedMint w = Some (MintFound supply decimals) ->
  computeProgressPct (realToken cd) supply == 40 ->
  inject_Z (realSol cd) / 1000000000 == 6 # 10 ->
  inject_Z (supply - realToken cd) / 1000000 == 20 ->
  _estimateVolume w == 1 ->
  0 <= randomInitialBuy w < 1 ->
  exists r,
    _runValidationPipeline Config.default w = ENTER r
    /\ momentumScore r = 41%Z /\ tier r = HOT
    /\ entered_isNew r = false.
Proof.
  intros Hcurve Hmint Hprogress Hliq Hholders Hvolume Hbuy.
  unfold _runValidationPipeline. rewrite Hcurve, Hmint. simpl.
  num_cases.
  unfold _deepValidate, _getInitialBuy. simpl.
  num_cases.
  destruct (Num.truthy _); simpl; num_cases.
  all: try match goal with
    | H : context [_calculateMomentumScore] |- _ =>
        exfalso; rewrite momentum_score_41 in H by done;
        unfold inject_Z in H; lra
    end.
  all: rewrite momentum_score_41 by done.
  all: simpl; eexists; split; [reflexivity|]; done.
Qed.

(** In binary64 the weighted sum for these inputs is 40.799999999999997,
    between 40.5 and 41.5, so [Math.round] gives 41 there as well. *)
Example score_in_binary64 :
  let s := Binary64.weightedScore Binary64.w04 Binary64.w02 Binary64.w04
             1%float 20%float 40%float in
  (PrimFloat.leb 40.5%float s && PrimFloat.ltb s 41.5%float)%bool = true.
Proof. vm_compute. reflexivity. Qed.

Lemma established_candidate_enters_HOT_witness :
  exists r,
    _runValidationPipeline Config.default establishedWorld = ENTER r
    /\ momentumScore r = 41%Z /\ tier r = HOT
    /\ entered_isNew r = false.
Proof.
  apply (established_candidate_enters_HOT establishedWorld
           {| virtualToken := 1000000000; virtualSol := 30000000000;
              realToken := 30000000; realSol := 600000000 |}
           50000000 6).
  - reflexivity.
  - reflexivity.
  - vm_compute. reflexivity.
  - vm_compute. reflexivity.
  - vm_compute. reflexivity.
  - vm_compute. reflexivity.
  - split; vm_compute; [discriminate | reflexivity].
Defined.

Lemma calculateEarlyScore_range (v : BasicValidation) (progress : Q) :
  15 # 100 <= basic_liquiditySol v -> 0 <= progress <= 70 ->
  (85 <= _calculateEarlyScore v progress <= 100)%Z.
Proof.
  intros Hliq [Hlo Hhi]. unfold _calculateEarlyScore.
  num_cases; lia.
Qed.

Lemma basicValidate_liquidity cd progress v :
  _basicValidate cd progress = inr v ->
  15 # 100 <= basic_liquiditySol v.
Proof.
  unfold _basicValidate.
  destruct (Num.lt _ _) eqn:E; [done|]. apply Num_lt_false in E.
  destruct (Num.gt _ _); [done|]. intros [= <-]. exact E.
Qed.

(** C10.  On the new-token path under the default configuration: a
    candidate that passes the basic validation with a progress in
    [[0, 70]] has an early score in [[85, 100]]; hence the pipeline
    never rejects a freshly-minted candidate for weak early momentum,
    and every such candidate it enters has a score in [[85, 100]] and
    the tier EXTREME. *)
Theorem new_token_score_always_extreme :
  (forall cd progress v,
     0 <= progress <= 70 ->
     _basicValidate cd progress = inr v ->
     (85 <= _calculateEarlyScore v progress <= 100)%Z)
  /\ (forall w,
       fetchedMint w = Some MintNew ->
       match _runValidationPipeline Config.default w with
       | PASS reason => reason <> WEAK_EARLY_MOMENTUM
       | ENTER r =>
           (85 <= momentumScore r <= 100)%Z /\ tier r = EXTREME
           /\ entered_isNew r = true
       end).
Proof.
  split.
  - intros cd progress v Hp Hv.
    apply calculateEarlyScore_range; [|done].
    by eapply basicValidate_liquidity.
  - intros w Hmint. unfold _runValidationPipeline. rewrite Hmint.
    destruct (fetchedCurve w) as [cd|]; [|done]. simpl.
    set (progress := computeProgressPct _ _).
    destruct (Num.ge progress 99); [done|].
    destruct (Num.lt progress 0) eqn:Hlo; [done|].
    apply Num_lt_false in Hlo.
    destruct (Num.ge progress 100); [done|].
    destruct (Num.gt progress 70) eqn:Hhi; [done|].
    apply Num_gt_false in Hhi.
    destruct (_basicValidate cd progress) as [reason|v] eqn:Hv.
    { unfold _basicValidate in Hv.
      repeat destruct (_ : bool) in Hv; by inversion Hv. }
    pose proof (calculateEarlyScore_range v progress
                  (basicValidate_liquidity _ _ _ Hv) (conj Hlo Hhi))
      as [Hs1 Hs2].
    set (score := _calculateEarlyScore v progress) in *.
    destruct (Num.lt (inject_Z score) 40) eqn:E.
    { apply Num_lt_iff in E. change 40 with (inject_Z 40) in E.
      rewrite <- Zlt_Qlt in E. lia. }
    destruct (Num.ge (inject_Z score) 80) eqn:E'; [done|].
    apply Num_ge_false in E'. change 80 with (inject_Z 80) in E'.
    rewrite <- Zlt_Qlt in E'. lia.
Qed.

Lemma new_token_score_always_extreme_witness :
  match _runValidationPipeline Config.default freshWorld with
  | PASS reason => reason <> WEAK_EARLY_MOMENTUM
  | ENTER r =>
      (85 <= momentumScore r <= 100)%Z /\ tier r = EXTREME
      /\ entered_isNew r = true
  end.
Proof.
  apply (proj2 new_token_score_always_extreme freshWorld).
  reflexivity.
Defined.

(** The fresh token of the example is entered with score 85. *)
Example freshWorld_entered :
  exists r, _runValidationPipeline Config.default freshWorld = ENTER r
            /\ momentumScore r = 85%Z /\ tier r = EXTREME.
Proof. eexists. split; [reflexivity|]. split; reflexivity. Qed.

End DefaultPipeline.



(** ** The validation queue *)


(** X29.  A push of a mint whose validation has completed within the
    hour is dropped: it is not queued and gets no outcome of its own. *)
Lemma push_after_validation_is_dropped mint md now vq t :
  TTLCache.map (ValidationQueue.validatedMints vq) !! mint = Some t ->
  t <> 0%Z -> (now - t <= TTLCache.ttlMs (ValidationQueue.validatedMints vq))%Z ->
  ValidationQueue.outcomesFor mint (ValidationQueue.push mint md now vq)
  = ValidationQueue.outcomesFor mint vq
  /\ ValidationQueue.q (ValidationQueue.push mint md now vq)
     = ValidationQueue.q vq.
Proof.
  intros Ht Hnz Hfresh. unfold ValidationQueue.push, TTLCache.has.
  rewrite Ht. destruct (Z.eqb_spec t 0); [done|].
  destruct (Z.gtb_spec (now - t)
              (TTLCache.ttlMs (ValidationQueue.validatedMints vq))); [lia|].
  unfold ValidationQueue.outcomesFor. simpl. split; [|done].
  rewrite List.filter_app. simpl. by rewrite app_nil_r.
Qed.

(** ** Opening positions *)

Section OpenPosition.
Import PositionManager.

Lemma raised_app pm pm' l :
  emitted pm' = emitted pm ++ l -> raised pm pm' = l.
Proof. intros E. unfold raised. rewrite E. apply drop_app_length. Qed.

Lemma printed_app pm pm' l :
  console pm' = console pm ++ l -> printed pm pm' = l.
Proof. intros E. unfold printed. rewrite E. apply drop_app_length. Qed.

Lemma raised_same pm pm' : emitted pm' = emitted pm -> raised pm pm' = [].
Proof. intros E. unfold raised. rewrite E. apply drop_all. Qed.

(** The claim as stated fails at the cap: a fourth opening against three
    open positions is refused, the positions stay as they are, and
    nothing is emitted. *)
Lemma cap_rejection_raises_no_event :
  ~ rejectionRaisesEvent Config.default (openArgs "MintD") quietEnv fullBook.
Proof.
  intros H.
  assert (atCap Config.default fullBook) as Hcap by (vm_compute; lia).
  destruct (H (or_introl Hcap)) as (_ & _ & Hraised).
  apply Hraised. vm_compute. reflexivity.
Qed.

(** C9 (amended).  An opening is refused when the number of open
    positions has reached the cap, and otherwise when the daily-loss
    breaker has tripped.  In both cases no position is created and the
    open positions and the daily statistics are unchanged.  At the cap
    a message is logged and nothing is emitted; for the breaker a
    [circuitBreaker] event with reason DAILY_LOSS_LIMIT is emitted.  In
    every other case the position is created in state IN_POSITION. *)
Theorem openPosition_rejections (config : Config.t) (a : OpenArgs)
    (env : Env) (pm : t) :
  let r := openPosition config a env pm in
  (atCap config pm ->
     fst r = None
     /\ positions (snd r) = positions pm
     /\ dailyStats (snd r) = dailyStats pm
     /\ raised pm (snd r) = []
     /\ printed pm (snd r) = [LogMaxPositions])
  /\ (~ atCap config pm -> breakerTripped config pm ->
        fst r = None
        /\ positions (snd r) = positions pm
        /\ dailyStats (snd r) = dailyStats pm
        /\ raised pm (snd r) = [circuitBreaker "DAILY_LOSS_LIMIT"]
        /\ printed pm (snd r) = [LogDailyLossLimit])
  /\ (~ atCap config pm -> ~ breakerTripped config pm ->
        exists p,
          fst r = Some p
          /\ state p = IN_POSITION
          /\ mint p = arg_mint a
          /\ positions (snd r) = <[arg_mint a := p]> (positions pm)
          /\ raised pm (snd r) = [opened p]).
Proof.
  unfold atCap, breakerTripped, openPosition. simpl.
  destruct (Nat.leb_spec (Config.maxPositions (Config.trading config))
              (size (positions pm))) as [Hcap|Hcap].
  - split; [|split]; [|lia|lia]. intros _. simpl.
    repeat split; [by apply raised_same | by apply printed_app].
  - destruct (_isDailyLossLimitHit _ pm) eqn:Hhit.
    + split; [lia|split]; [|done]. intros _ _. simpl.
      repeat split; [by apply raised_app | by apply printed_app].
    + split; [lia|split]; [done|]. intros _ _. simpl.
      eexists. repeat split. by apply raised_app.
Qed.

Lemma openPosition_rejections_witness :
  let r := openPosition Config.default (openArgs "MintD") quietEnv fullBook in
  fst r = None
  /\ positions (snd r) = positions fullBook
  /\ dailyStats (snd r) = dailyStats fullBook
  /\ raised fullBook (snd r) = []
  /\ printed fullBook (snd r) = [LogMaxPositions].
Proof.
  apply (proj1 (openPosition_rejections Config.default (openArgs "MintD")
                  quietEnv fullBook)).
  vm_compute. lia.
Defined.

(** With the breaker tripped and room left, the event is raised. *)
Example breaker_rejection_raises_event :
  let r := openPosition Config.default (openArgs "MintD") quietEnv losingDay in
  fst r = None
  /\ raised losingDay (snd r) = [circuitBreaker "DAILY_LOSS_LIMIT"].
Proof. vm_compute. done. Qed.

End OpenPosition.

(** ** The exit rules *)

Section ExitRules.
Import PositionManager.
Local Open Scope Q_scope.

Lemma computedPnl_inv p pnl :
  computedPnl p = Some pnl ->
  exists cp, priceFromSignal p = Some cp /\ Num.truthy cp = true
             /\ pnl = pnlPctAt cp p.
Proof.
  unfold computedPnl. destruct (priceFromSignal p) as [cp|]; [|done].
  destruct (Num.truthy cp) eqn:E; [|done]. intros [= <-]. eauto.
Qed.

Lemma console_shareWith mint p pm :
  console (shareWith mint p pm) = console pm.
Proof. unfold shareWith. by destruct (positions pm !! mint). Qed.

Lemma emitted_shareWith mint p pm :
  emitted (shareWith mint p pm) = emitted pm.
Proof. unfold shareWith. by destruct (positions pm !! mint). Qed.

Lemma shareWith_absent mint p pm k :
  positions pm !! k = None -> positions (shareWith mint p pm) !! k = None.
Proof.
  intros Hk. unfold shareWith.
  destruct (positions pm !! mint) eqn:E; [|done]. simpl.
  destruct (decide (mint = k)) as [->|]; [congruence|].
  by rewrite lookup_insert_ne.
Qed.

(** An evaluation that computes a profit stores it and applies the
    rules. *)
Lemma evaluatePosition_computed config mint p env pm pnl :
  computedPnl p = Some pnl ->
  exists cp,
    _evaluatePosition config mint p env pm
    = (let r := evaluateRules config mint (priced cp pnl (now env) p)
                  pnl env pm in
       (fst r, shareWith mint (fst r) (snd r))).
Proof.
  intros (cp & Hcp & Ht & ->)%computedPnl_inv. exists cp.
  unfold _evaluatePosition. rewrite Hcp, Ht. simpl.
  by destruct (evaluateRules _ _ _ _ _ _).
Qed.

(** What a partial exit leaves untouched, and what it prints. *)
Lemma executePartialExit_facts p exitPct reason env pm :
  let r := _executePartialExit p exitPct reason env pm in
  state (fst r) = state p
  /\ tier1Exited (fst r) = tier1Exited p
  /\ positions (snd r) = positions pm
  /\ (printed pm (snd r) = [] \/ printed pm (snd r) = [LogPartialExit (mint p)]).
Proof.
  unfold _executePartialExit.
  destruct (_ <=? _)%Z.
  { simpl. repeat split. left. unfold printed. apply drop_all. }
  destruct (pnlPct p).
  - simpl. repeat split. right. by apply printed_app.
  - simpl. repeat split. left. unfold printed. apply drop_all.
Qed.

(** What a full exit does to the state of the position, and what it
    prints. *)
Lemma executeFullExit_facts p reason env pm pnl :
  pnlPct p = Some pnl ->
  let r := _executeFullExit p reason env pm in
  state (fst r) = match reason with STOP_LOSS => STOPPED | _ => CLOSED end
  /\ positions (snd r) = delete (mint p) (positions pm)
  /\ printed pm (snd r) = [LogFullExit (mint p); LogClosed (mint p)].
Proof.
  intros Hp. unfold _executeFullExit. rewrite Hp. simpl.
  repeat split. apply printed_app. simpl. by rewrite <- app_assoc.
Qed.

(** Reading off what an evaluation printed. *)
Ltac read_console :=
  unfold tier1Fired, stopLossFired, printed;
  rewrite ?console_shareWith; simpl;
  rewrite <- ?app_assoc; rewrite ?drop_app_length, ?drop_all; simpl.


(** The claim as stated fails for a position that has taken tier 1
    already: it is not terminal, its profit is still 75, and the next
    evaluation fires nothing. *)
Lemma tier1_not_fired_twice :
  ~ tier1AtPnl75 Config.default "MintA" heldAt75AfterTier1 quietEnv
      bookAfterTier1.
Proof.
  intros H.
  assert (nonTerminal heldAt75AfterTier1) as Hnt
    by (right; vm_compute; reflexivity).
  assert (exists pnl, computedPnl heldAt75AfterTier1 = Some pnl /\ pnl == 75)
    as Hpnl
    by (eexists; split; [vm_compute; reflexivity | vm_compute; reflexivity]).
  destruct (H Hnt Hpnl) as [Hfired _].
  vm_compute in Hfired. discriminate Hfired.
Qed.

(** C3 (amended).  Under the default configuration, one evaluation of
    a position whose profit is computed as 75 never fires the stop loss
    when the position is not terminal.  When the position is in state
    IN_POSITION and has not taken tier 1, the evaluation fires tier 1:
    the position is marked [tier1Exited], moves to TIER_1_EXITED, and
    only the tier-1 rule and its partial exit print.  When the position
    has taken tier 1 already, tier 1 does not fire again. *)
Theorem tier1_fires_before_stop_loss (mint : string) (p : Position)
    (env : Env) (pm : t) (pnl : Q) :
  computedPnl p = Some pnl ->
  pnl == 75 ->
  let r := checkPosition Config.default mint p env pm in
  (nonTerminal p ->
     ~ stopLossFired pm (snd r) /\ state (fst r) <> STOPPED)
  /\ (state p = IN_POSITION -> tier1Exited p = false ->
        tier1Fired pm (snd r)
        /\ state (fst r) = TIER_1_EXITED
        /\ tier1Exited (fst r) = true
        /\ (printed pm (snd r) = [LogTier1Exit mint]
            \/ printed pm (snd r)
               = [LogTier1Exit mint;
                  LogPartialExit (PositionManager.mint p)]))
  /\ (nonTerminal p ->
        state p = TIER_1_EXITED \/ tier1Exited p = true ->
        ~ tier1Fired pm (snd r)).
Proof.
  intros Hpnl H75.
  assert (forall s, state p = s -> s = IN_POSITION \/ s = TIER_1_EXITED ->
          checkPosition Config.default mint p env pm
          = _evaluatePosition Config.default mint p env pm) as Hcheck.
  { intros s Hs [->| ->]; unfold checkPosition; by rewrite Hs. }
  destruct (evaluatePosition_computed Config.default mint p env pm pnl Hpnl)
    as [cp Heval].
  split; [|split].
  - intros Hnt. simpl. rewrite (Hcheck _ eq_refl Hnt), Heval.
    unfold evaluateRules. simpl.
    destruct Hnt as [Hs|Hs]; rewrite Hs;
      destruct (tier1Exited p), (tier2Exited p); simpl; num_cases.
    all: repeat match goal with
         | |- context [_executePartialExit ?a ?b ?c ?d ?e] =>
             unfold _executePartialExit; simpl;
             destruct (_ <=? _)%Z; simpl
         | |- context [(?a >? ?b)%Z] => destruct (a >? b)%Z; simpl
         end.
    all: read_console; split; congruence.
  - intros Hs Ht1. simpl.
    rewrite (Hcheck _ Hs (or_introl eq_refl)), Heval.
    unfold evaluateRules. simpl. rewrite Hs, Ht1. simpl. num_cases.
    unfold _executePartialExit. simpl.
    destruct (_ <=? _)%Z; simpl; read_console; auto.
  - intros Hnt Htaken. simpl. rewrite (Hcheck _ eq_refl Hnt), Heval.
    unfold evaluateRules. simpl.
    destruct Hnt as [Hs|Hs], Htaken as [Hs'|Ht1];
      rewrite ?Hs, ?Ht1; try congruence;
      destruct (tier1Exited p), (tier2Exited p); simpl; num_cases.
    all: repeat match goal with
         | |- context [(?a >? ?b)%Z] => destruct (a >? b)%Z; simpl
         end.
    all: read_console; congruence.
Qed.

Lemma tier1_fires_before_stop_loss_witness :
  let r := checkPosition Config.default "MintA" heldAt75 quietEnv
             (managing [heldAt75]) in
  tier1Fired (managing [heldAt75]) (snd r)
  /\ state (fst r) = TIER_1_EXITED
  /\ tier1Exited (fst r) = true
  /\ (printed (managing [heldAt75]) (snd r) = [LogTier1Exit "MintA"]
      \/ printed (managing [heldAt75]) (snd r)
         = [LogTier1Exit "MintA"; LogPartialExit (mint heldAt75)]).
Proof.
  assert (pnlPctAt (inject_Z (PumpCurve.virtualSol curveAt525)
                    / inject_Z (PumpCurve.virtualToken curveAt525))
            heldAt75 == 75) as H75
    by (vm_compute; reflexivity).
  apply (proj1 (proj2 (tier1_fires_before_stop_loss "MintA" heldAt75
                         quietEnv (managing [heldAt75]) _ eq_refl H75)));
    reflexivity.
Defined.


(** At the boundary and just above it. *)
Example profit_at_the_boundary :
  (exists pnl, computedPnl heldAtMinus15 = Some pnl /\ pnl == -15)
  /\ (exists pnl, computedPnl heldAtMinus14999 = Some pnl
                  /\ pnl == -14999 # 1000).
Proof. split; eexists; (split; [reflexivity | vm_compute; reflexivity]). Qed.

Example stop_loss_not_at_minus_14999 :
  let r := checkPosition Config.default "MintA" heldAtMinus14999 quietEnv
             (managing [heldAtMinus14999]) in
  state (fst r) = IN_POSITION /\ printed (managing [heldAtMinus14999]) (snd r) = []
  /\ positions (snd r) !! "MintA" = Some (fst r).
Proof. vm_compute. done. Qed.

End ExitRules.

(** ** Replaying the write-ahead log *)

Section WalReplay.
Import StateManager.

(** Every entry acts on each key of the position map either by fixing
    what the key maps to, or by merging an update into the position
    that is there. *)
Lemma applyWalEntry_pointwise (entry : WalEntry) (k : string) :
  (exists c, forall st, positions (_applyWalEntry entry st) !! k = c)
  \/ (exists u : obj, forall st,
        positions (_applyWalEntry entry st) !! k
        = (fun o => u ∪ o) <$> positions st !! k).
Proof.
  assert (forall st, positions st !! k = (fun o => (∅ : obj) ∪ o) <$> positions st !! k)
    as Hid.
  { intros st. destruct (positions st !! k); simpl; [|done].
    by rewrite (left_id_L ∅ (∪)). }
  destruct entry as [m d ts|m pos ts|m u ts|m res ts|ty]; simpl.
  - right. exists ∅. apply Hid.
  - destruct (decide (m = k)) as [->|Hne].
    + left. exists (Some pos). intros st. simpl. apply lookup_insert_eq.
    + right. exists ∅. intros st. simpl.
      rewrite lookup_insert_ne by done. apply Hid.
  - destruct (decide (m = k)) as [->|Hne].
    + right. exists u. intros st.
      destruct (positions st !! k) eqn:E; simpl; [|by rewrite E].
      by rewrite lookup_insert_eq.
    + right. exists ∅. intros st.
      destruct (positions st !! m); simpl; [|apply Hid].
      rewrite lookup_insert_ne by done. apply Hid.
  - destruct (decide (m = k)) as [->|Hne].
    + left. exists None. intros st. simpl. apply lookup_delete_eq.
    + right. exists ∅. intros st. simpl.
      rewrite lookup_delete_ne by done. apply Hid.
  - right. exists ∅. apply Hid.
Qed.

Lemma replaySegment_pointwise (entries : list WalEntry) (k : string) :
  (exists c, forall st, positions (replaySegment entries st) !! k = c)
  \/ (exists u : obj, forall st,
        positions (replaySegment entries st) !! k
        = (fun o => u ∪ o) <$> positions st !! k).
Proof.
  induction entries as [|entry entries IH].
  - right. exists ∅. intros st. simpl.
    destruct (positions st !! k); simpl; [|done].
    by rewrite (left_id_L ∅ (∪)).
  - unfold replaySegment in *. simpl.
    destruct IH as [[c Hc]|[u Hu]].
    + left. exists c. intros st. apply Hc.
    + destruct (applyWalEntry_pointwise entry k) as [[c Hc]|[u' Hu']].
      * left. exists ((fun o => u ∪ o) <$> c). intros st.
        by rewrite Hu, Hc.
      * right. exists (u ∪ u'). intros st. rewrite Hu, Hu'.
        destruct (positions st !! k); simpl; [|done].
        by rewrite (assoc_L (∪)).
Qed.

(** C5.  Applying a WAL segment twice in sequence yields the same
    position map as applying it once, whatever the starting state and
    whatever the entries.  Each application works on freshly parsed
    entries, as the replay of a segment file does, and the maps are
    compared by their keys and values. *)
Theorem wal_replay_idempotent (entries : list WalEntry) (st : State) :
  positions (replaySegment entries (replaySegment entries st))
  = positions (replaySegment entries st).
Proof.
  apply map_eq. intros k.
  destruct (replaySegment_pointwise entries k) as [[c Hc]|[u Hu]].
  - by rewrite !Hc.
  - rewrite !Hu. destruct (positions st !! k); simpl; [|done].
    by rewrite (assoc_L (∪)), (idemp_L (∪)).
Qed.

End WalReplay.

(** ** Recovery *)

Section Recovery.
Import StateManager.

(** The offset handed to [_replayWal] has no influence on it. *)
Lemma replayWal_ignores_walOffset readdir (off1 off2 : nat) sm st :
  _replayWal readdir off1 sm st = _replayWal readdir off2 sm st.
Proof. reflexivity. Qed.

(** C1.  On the data directory the session leaves behind, [load] picks
    the snapshot, which records [walOffset = 1], and then applies the one
    entry of the one segment, at index 0, although it was written before
    the snapshot: the recovered state has a position under the key MintA
    which recovery that skips the entries below the offset does not
    have. *)
Theorem load_replays_entries_below_walOffset :
  walOffset <$> _loadLatestSnapshot Js.sort crashed = Some 1%nat
  /\ entriesInOrder Js.sort crashed
     = [POSITION_OPENED "MintA" openedMintA 1700000001000]
  /\ dom <$> (positions <$> fst (load Js.sort Config.default crashed))
     = Some ({[ "0"; "1"; "MintA" ]} : gset string)
  /\ (fst (load Js.sort Config.default crashed)
        ≫= fun st => positions st !! "MintA")
     = Some openedMintA
  /\ dom <$> (positions <$> recoveredAfterOffset Js.sort crashed)
     = Some ({[ "0"; "1" ]} : gset string).
Proof. repeat split; vm_compute; reflexivity. Qed.

(** The snapshot [load] starts from is chosen by the decimal digits at
    the head of the identifier in the file name, read as a timestamp.
    After the seven cycles no remaining name starts with a digit, all
    timestamps are 0, and the first name in enumeration order wins: the
    snapshot of the third cycle, although the one of the sixth is on
    disk. *)
Example loadLatestSnapshot_after_seven_cycles :
  let sm := snapshotCycles Js.sort sevenCycles initialised in
  map timestampOf (snapshotsOnDisk sm) = [0; 0; 0; 0; 0]%Z
  /\ timestamp <$> _loadLatestSnapshot Js.sort sm = Some 1700000900000%Z
  /\ timestamp <$> readFile (snapshotsDir (fs sm))
                     "snapshot_d6e9b0c4-3f7a-4e1d-9c2b-7f8e9d0a1b2c.json"
     = Some 1700001800000%Z.
Proof. repeat split; vm_compute; reflexivity. Qed.

(** A snapshot stores the position map as an array of pairs; [load] turns
    that array into a map with [Object.entries], so a position open at
    the snapshot comes back under the key "0", as the pair itself. *)
Example load_keys_positions_by_index :
  let sm := snd (takeSnapshot Js.sort 1700000300000
                   "9b2f6c1e-7a34-4d8e-b1c5-3f0a9e6d2c71" NoFault
                   holdingMintA) in
  positions <$> fst (load Js.sort Config.default sm)
  = Some {[ "0" := pairArray "MintA" (JObj openedMintA) ]}.
Proof. vm_compute. reflexivity. Qed.

(** C6.  Seven snapshot cycles on a fresh directory, with the names
    enumerated in name order: five snapshot files remain, but they are
    those of cycles 2 to 6.  The seventh snapshot is deleted by the
    cleanup that follows its own creation, so the files left are not
    the five most recent. *)
Theorem retention_deletes_newest_snapshot :
  let sm := snapshotCycles Js.sort sevenCycles initialised in
  length (snapshotsOnDisk sm) = 5%nat
  /\ snapshotsOnDisk sm
     = [ "snapshot_c47d1a90-5e2b-4f6a-9d38-8b1e0f7a6c52.json";
         "snapshot_a1e8f3b2-0c9d-4a7e-8f21-6d5c4b3a2e10.json";
         "snapshot_f0c3d9a7-2b1e-4c5f-a6d8-9e7b1c0d3f42.json";
         "snapshot_b85a2e6f-9d0c-4b3a-8e7f-1a2b3c4d5e6f.json";
         "snapshot_d6e9b0c4-3f7a-4e1d-9c2b-7f8e9d0a1b2c.json" ]
  /\ ("snapshot_0a4c7e19-8d2f-4b6a-a3c5-e1f2d3c4b5a6.json"
      ∉ snapshotsOnDisk sm)
  /\ snapshotsOnDisk sm <> fiveMostRecent sevenCycles.
Proof.
  assert (snapshotsOnDisk (snapshotCycles Js.sort sevenCycles initialised)
          = [ "snapshot_c47d1a90-5e2b-4f6a-9d38-8b1e0f7a6c52.json";
              "snapshot_a1e8f3b2-0c9d-4a7e-8f21-6d5c4b3a2e10.json";
              "snapshot_f0c3d9a7-2b1e-4c5f-a6d8-9e7b1c0d3f42.json";
              "snapshot_b85a2e6f-9d0c-4b3a-8e7f-1a2b3c4d5e6f.json";
              "snapshot_d6e9b0c4-3f7a-4e1d-9c2b-7f8e9d0a1b2c.json" ])
    as E by (vm_compute; reflexivity).
  cbv zeta. rewrite E. repeat split.
  - intros Hin. repeat (apply elem_of_cons in Hin as [Hin|Hin];
                        [discriminate Hin|]).
    by apply elem_of_nil in Hin.
  - vm_compute. discriminate.
Qed.

End Recovery.

(** ** Snapshot retention: how many files remain *)

Section FileNames.

Lemma prefix_app (p s : string) : String.prefix p (p ++ s) = true.
Proof.
  induction p as [|a p IH]; simpl; [by destruct s|].
  destruct (ascii_dec a a); [exact IH | done].
Qed.

Lemma rev_app_app (s acc1 acc2 : string) :
  String.rev_app s (acc1 ++ acc2) = (String.rev_app s acc1 ++ acc2)%string.
Proof.
  revert acc1. induction s as [|a s IH]; intros acc1; simpl; [done|].
  apply (IH (String a acc1)).
Qed.

Lemma rev_append (a b : string) :
  String.rev (a ++ b) = (String.rev b ++ String.rev a)%string.
Proof.
  unfold String.rev.
  assert (forall acc, String.rev_app (a ++ b) acc
                      = String.rev_app b (String.rev_app a acc)) as H.
  { induction a as [|c a IH]; intros acc; simpl; [done|]. apply IH. }
  rewrite H. apply (rev_app_app b "" (String.rev_app a "")).
Qed.

Lemma rev_involutive (s : string) : String.rev (String.rev s) = s.
Proof.
  induction s as [|a s IH]; [done|].
  change (String a s) with (String a "" ++ s)%string at 1.
  by rewrite rev_append, rev_append, IH.
Qed.

Lemma append_cancel_r (a b suffix : string) :
  (a ++ suffix = b ++ suffix)%string -> a = b.
Proof.
  intros H. apply (f_equal String.rev) in H. rewrite !rev_append in H.
  apply String.app_inj in H. apply (f_equal String.rev) in H.
  by rewrite !rev_involutive in H.
Qed.

Lemma endsWith_app (s suffix : string) : Js.endsWith (s ++ suffix) suffix = true.
Proof. unfold Js.endsWith. rewrite rev_append. apply prefix_app. Qed.

Lemma append_assoc (a b c : string) :
  (a ++ (b ++ c) = (a ++ b) ++ c)%string.
Proof.
  induction a as [|x a IH]; [done|].
  change (String x (a ++ (b ++ c)) = String x ((a ++ b) ++ c))%string.
  by rewrite IH.
Qed.

Lemma snapshotFile_isSnapshotFile (id : string) :
  StateManager.isSnapshotFile ("snapshot_" ++ id ++ ".json") = true.
Proof.
  unfold StateManager.isSnapshotFile, Js.startsWith.
  rewrite prefix_app. simpl.
  rewrite append_assoc. apply endsWith_app.
Qed.

Lemma tempFile_not_isSnapshotFile (id : string) :
  StateManager.isSnapshotFile ("snapshot_" ++ id ++ ".tmp") = false.
Proof.
  unfold StateManager.isSnapshotFile, Js.startsWith, Js.endsWith.
  rewrite prefix_app, append_assoc, rev_append. reflexivity.
Qed.

Lemma snapshotFile_inj (id1 id2 : string) :
  ("snapshot_" ++ id1 ++ ".json" = "snapshot_" ++ id2 ++ ".json")%string ->
  id1 = id2.
Proof.
  intros H. apply String.app_inj in H. by apply append_cancel_r in H.
Qed.

End FileNames.

Section Directory.
Import StateManager.
Context {A : Type}.
Implicit Types (dir : list (string * A)) (f name : string).

Lemma filter_all (g : string * A -> bool) dir :
  (forall x, x ∈ dir -> g x = true) -> List.filter g dir = dir.
Proof.
  induction dir as [|x dir IH]; intros H; simpl; [done|].
  rewrite (H x) by left. f_equal. apply IH. intros y Hy. apply H. by right.
Qed.

Lemma names_unlink f dir :
  map fst (unlink f dir)
  = List.filter (fun n => negb (String.eqb n f)) (map fst dir).
Proof.
  unfold unlink. induction dir as [|x dir IH]; simpl; [done|].
  destruct (String.eqb x.1 f); simpl; by rewrite IH.
Qed.

Lemma unlink_absent f dir : f ∉ map fst dir -> unlink f dir = dir.
Proof.
  intros Hf. apply filter_all. intros x Hx.
  destruct (String.eqb_spec x.1 f) as [<-|]; [|done].
  exfalso. apply Hf. apply list_elem_of_fmap. eauto.
Qed.

Lemma writeFile_absent name (content : A) dir :
  name ∉ map fst dir -> writeFile name content dir = dir ++ [(name, content)].
Proof.
  intros Hf. unfold writeFile.
  destruct (existsb _ dir) eqn:E; [|done].
  apply existsb_exists in E as (x & Hx & Heq).
  apply String.eqb_eq in Heq. exfalso. apply Hf. rewrite <- Heq.
  apply list_elem_of_fmap. exists x. split; [done|]. by apply list_elem_of_In.
Qed.

Lemma rename_new from to (content : A) dir :
  from <> to -> from ∉ map fst dir -> to ∉ map fst dir ->
  rename from to (dir ++ [(from, content)]) = dir ++ [(to, content)].
Proof.
  intros Hne Hfrom Hto. unfold rename.
  destruct (String.eqb_spec from to); [done|].
  rewrite unlink_absent.
  2:{ rewrite map_app. simpl. intros [H|H]%elem_of_app; [done|].
      apply list_elem_of_singleton in H. congruence. }
  rewrite map_app. simpl. rewrite String.eqb_refl. f_equal.
  induction dir as [|x dir IH]; simpl; [done|].
  simpl in Hfrom. apply not_elem_of_cons in Hfrom as [Hx Hfrom].
  destruct (String.eqb_spec x.1 from); [congruence|].
  f_equal. apply IH; [done|].
  simpl in Hto. by apply not_elem_of_cons in Hto as [_ Hto].
Qed.

(** Deleting a list of names keeps the other names, in order. *)
Lemma names_unlink_all (D : list string) dir :
  map fst (foldl (fun dir f => unlink f dir) dir D)
  = List.filter (fun n => negb (existsb (String.eqb n) D)) (map fst dir).
Proof.
  revert dir. induction D as [|d D IH]; intros dir; simpl.
  - symmetry. clear. induction (map fst dir) as [|n l IH]; simpl; congruence.
  - rewrite IH, names_unlink. clear.
    induction (map fst dir) as [|n l IH]; simpl; [done|].
    destruct (String.eqb n d); simpl; [done|].
    destruct (existsb _ D); simpl; congruence.
Qed.

End Directory.

Section Counting.

Lemma filter_filter_comm {B} (g h : B -> bool) (l : list B) :
  List.filter g (List.filter h l) = List.filter h (List.filter g l).
Proof.
  induction l as [|x l IH]; simpl; [done|].
  destruct (g x) eqn:Eg, (h x) eqn:Eh; simpl; rewrite ?Eg, ?Eh, IH; done.
Qed.

Lemma elem_of_List_filter {B} (g : B -> bool) (l : list B) x :
  x ∈ List.filter g l <-> x ∈ l /\ g x = true.
Proof. rewrite !list_elem_of_In. apply filter_In. Qed.

Lemma NoDup_List_filter {B} (g : B -> bool) (l : list B) :
  NoDup l -> NoDup (List.filter g l).
Proof.
  induction 1 as [|x l Hx Hl IH]; simpl; [constructor|].
  destruct (g x); [|done]. constructor; [|done].
  rewrite elem_of_List_filter. tauto.
Qed.

Lemma Permutation_List_filter {B} (g : B -> bool) (l k : list B) :
  l ≡ₚ k -> List.filter g l ≡ₚ List.filter g k.
Proof.
  induction 1 as [|x l k _ IH|x y l|l k m _ IH1 _ IH2]; simpl.
  - done.
  - destruct (g x); by rewrite IH.
  - destruct (g x), (g y); try done. apply perm_swap.
  - by rewrite IH1.
Qed.

(** Removing one name of a duplicate-free list shortens it by one. *)
Lemma length_filter_remove (l : list string) (d : string) :
  NoDup l -> d ∈ l ->
  S (length (List.filter (fun n => negb (String.eqb n d)) l)) = length l.
Proof.
  induction 1 as [|x l Hx Hl IH]; intros Hd; [by apply elem_of_nil in Hd|].
  simpl. destruct (String.eqb_spec x d) as [->|Hne]; simpl.
  - f_equal. clear -Hx. induction l as [|y l IH]; simpl; [done|].
    apply not_elem_of_cons in Hx as [Hy Hx].
    destruct (String.eqb_spec y d); [congruence|]. simpl. f_equal. by apply IH.
  - f_equal. apply IH. apply elem_of_cons in Hd as [->|Hd]; [done|done].
Qed.

(** Removing a duplicate-free list of names that all occur. *)
Lemma length_filter_remove_all (D l : list string) :
  NoDup l -> NoDup D -> (forall d, d ∈ D -> d ∈ l) ->
  length (List.filter (fun n => negb (existsb (String.eqb n) D)) l)
  + length D = length l.
Proof.
  revert l. induction D as [|d D IH]; intros l Hl HD Hsub; simpl.
  - rewrite Nat.add_0_r. f_equal.
    clear. induction l as [|x l IH]; simpl; congruence.
  - apply NoDup_cons in HD as [Hd HD].
    set (l' := List.filter (fun n => negb (String.eqb n d)) l).
    assert (List.filter (fun n => negb (String.eqb n d || existsb (String.eqb n) D)) l
            = List.filter (fun n => negb (existsb (String.eqb n) D)) l') as ->.
    { unfold l'. clear. induction l as [|x l IH]; simpl; [done|].
      destruct (String.eqb x d); simpl; [done|].
      destruct (existsb _ D); simpl; congruence. }
    assert (S (length l') = length l) as Hlen.
    { apply length_filter_remove; [done|]. apply Hsub. by left. }
    rewrite <- Hlen, Nat.add_succ_r. f_equal.
    apply IH; [by apply NoDup_List_filter | done |].
    intros x Hx. apply elem_of_List_filter. split.
    + apply Hsub. by right.
    + destruct (String.eqb_spec x d) as [->|]; [done|done].
Qed.

End Counting.

Section Retention.
Import StateManager.

Local Arguments Nat.min : simpl never.

(** The platform may enumerate a directory in any order. *)
Variable readdir : list string -> list string.
Hypothesis readdir_perm : forall l, readdir l ≡ₚ l.

Lemma cleanup_keeps_five (dir : list (string * Snapshot)) :
  NoDup (map fst dir) ->
  let names' := map fst (_cleanupOldSnapshots readdir dir) in
  NoDup names'
  /\ (forall n, n ∈ names' -> n ∈ map fst dir)
  /\ length (List.filter isSnapshotFile names')
     = Nat.min 5 (length (List.filter isSnapshotFile (map fst dir))).
Proof using readdir_perm.
  intros Hnd. unfold _cleanupOldSnapshots.
  set (names := map fst dir) in *.
  set (snaps := List.filter isSnapshotFile (readdir names)).
  assert (snaps ≡ₚ List.filter isSnapshotFile names) as Hperm
    by (apply Permutation_List_filter, readdir_perm).
  pose proof (Permutation_length Hperm) as Hlen.
  destruct (Nat.ltb_spec 5 (length snaps)) as [Hgt|Hle]; simpl.
  2:{ fold names. repeat split; [done|done|lia]. }
  unfold Js.slice0. set (D := take (length snaps - 5) snaps).
  rewrite names_unlink_all. fold names.
  assert (NoDup snaps) as Hsnaps.
  { rewrite Hperm. by apply NoDup_List_filter. }
  assert (NoDup D) as HD.
  { rewrite <- (take_drop (length snaps - 5) snaps) in Hsnaps.
    by apply NoDup_app in Hsnaps as [? _]. }
  assert (forall d, d ∈ D -> d ∈ List.filter isSnapshotFile names) as Hsub.
  { intros d Hd. rewrite <- Hperm.
    rewrite <- (take_drop (length snaps - 5) snaps).
    apply elem_of_app. by left. }
  split; [by apply NoDup_List_filter|]. split.
  { intros n Hn. by apply elem_of_List_filter in Hn as [? _]. }
  rewrite filter_filter_comm.
  pose proof (length_filter_remove_all D (List.filter isSnapshotFile names)
                (NoDup_List_filter _ _ Hnd) HD Hsub) as Hcount.
  assert (length D = length snaps - 5)%nat as HlenD
    by (unfold D; rewrite length_take; lia).
  lia.
Qed.

(** One snapshot cycle with a fresh identifier adds its file and then
    prunes the directory down to five snapshot files. *)
Lemma takeSnapshot_count (now : Z) (id : string) (sm : t) (st : State) :
  current sm = Some st ->
  NoDup (map fst (snapshotsDir (fs sm))) ->
  ("snapshot_" ++ id ++ ".json")%string ∉ map fst (snapshotsDir (fs sm)) ->
  ("snapshot_" ++ id ++ ".tmp")%string ∉ map fst (snapshotsDir (fs sm)) ->
  let sm' := snd (takeSnapshot readdir now id NoFault sm) in
  current sm' = Some st
  /\ NoDup (map fst (snapshotsDir (fs sm')))
  /\ (forall n, n ∈ map fst (snapshotsDir (fs sm')) ->
        n ∈ map fst (snapshotsDir (fs sm))
        \/ n = ("snapshot_" ++ id ++ ".json")%string)
  /\ length (snapshotsOnDisk sm')
     = Nat.min 5 (S (length (snapshotsOnDisk sm))).
Proof using readdir_perm.
  intros Hst Hnd Hfinal Htemp. unfold takeSnapshot. rewrite Hst. simpl.
  rewrite writeFile_absent by done.
  rewrite rename_new; [ | | done | done].
  2:{ intros Heq. pose proof (snapshotFile_isSnapshotFile id) as H1.
      rewrite <- Heq, tempFile_not_isSnapshotFile in H1. discriminate H1. }
  set (dir := snapshotsDir (fs sm)) in *.
  set (final := ("snapshot_" ++ id ++ ".json")%string) in *.
  set (snapshot := {| timestamp := now |}).
  assert (NoDup (map fst (dir ++ [(final, snapshot)]))) as Hnd'.
  { rewrite map_app. simpl. apply NoDup_app. repeat split; [done| |].
    - intros x Hx Hx'. apply list_elem_of_singleton in Hx'. congruence.
    - apply NoDup_singleton. }
  destruct (cleanup_keeps_five _ Hnd') as (H1 & H2 & H3).
  split; [done|]. split; [done|]. split.
  - intros n Hn. apply H2 in Hn. rewrite map_app in Hn. simpl in Hn.
    apply elem_of_app in Hn as [Hn|Hn]; [by left|].
    right. by apply list_elem_of_singleton in Hn.
  - unfold snapshotsOnDisk. simpl. rewrite H3. f_equal.
    rewrite map_app, List.filter_app, length_app. simpl.
    unfold final. rewrite snapshotFile_isSnapshotFile. simpl.
    unfold dir. lia.
Qed.

(** Any number of cycles, at least one, with distinct fresh identifiers:
    the smaller of five and of the files there would be without
    deletion remain. *)
Lemma snapshotCycles_count (cycles : list (Z * string)) (sm : t) (st : State) :
  current sm = Some st ->
  NoDup (map fst (snapshotsDir (fs sm))) ->
  NoDup (map snd cycles) ->
  (forall c, c ∈ cycles ->
     (("snapshot_" ++ snd c ++ ".json")%string
      ∉ map fst (snapshotsDir (fs sm)))
     /\ (("snapshot_" ++ snd c ++ ".tmp")%string
         ∉ map fst (snapshotsDir (fs sm)))) ->
  cycles <> [] ->
  length (snapshotsOnDisk (snapshotCycles readdir cycles sm))
  = Nat.min 5 (length (snapshotsOnDisk sm) + length cycles).
Proof using readdir_perm.
  revert sm. induction cycles as [|c cycles IH]; intros sm Hst Hnd Hids Hfresh Hne;
    [done|].
  unfold snapshotCycles. simpl.
  destruct (Hfresh c) as [Hfinal Htemp]; [by left|].
  destruct (takeSnapshot_count (fst c) (snd c) sm st Hst Hnd Hfinal Htemp)
    as (Hst' & Hnd' & Hnames & Hcount).
  set (sm' := snd (takeSnapshot readdir c.1 c.2 NoFault sm)) in *.
  destruct cycles as [|c' cycles'] eqn:Hcs.
  { simpl. rewrite Hcount. lia. }
  rewrite <- Hcs in *.
  fold (snapshotCycles readdir cycles sm').
  simpl in Hids. apply NoDup_cons in Hids as [Hc Hids].
  rewrite IH; [simpl; lia | done | done | done | | by rewrite Hcs].
  intros d Hd. destruct (Hfresh d) as [Hdf Hdt]; [by right|].
  split; intros Hin; apply Hnames in Hin as [Hin|Hin]; try done.
  - apply snapshotFile_inj in Hin. apply Hc. rewrite <- Hin.
    apply list_elem_of_fmap. eauto.
  - pose proof (snapshotFile_isSnapshotFile (snd c)) as H1.
    rewrite <- Hin, tempFile_not_isSnapshotFile in H1. discriminate H1.
Qed.

(** After seven cycles, five snapshot files remain, whatever was in the
    directory and in whatever order it is enumerated. *)
Lemma seven_cycles_leave_five (cycles : list (Z * string)) (sm : t) (st : State) :
  current sm = Some st ->
  NoDup (map fst (snapshotsDir (fs sm))) ->
  NoDup (map snd cycles) ->
  (forall c, c ∈ cycles ->
     (("snapshot_" ++ snd c ++ ".json")%string
      ∉ map fst (snapshotsDir (fs sm)))
     /\ (("snapshot_" ++ snd c ++ ".tmp")%string
         ∉ map fst (snapshotsDir (fs sm)))) ->
  length cycles = 7%nat ->
  length (snapshotsOnDisk (snapshotCycles readdir cycles sm)) = 5%nat.
Proof using readdir_perm.
  intros Hst Hnd Hids Hfresh Hlen.
  rewrite (snapshotCycles_count cycles sm st) by (try done; by destruct cycles).
  lia.
Qed.

(** X30.  A snapshot whose write or rename fails deletes no snapshot
    file. *)
Lemma failed_snapshot_deletes_nothing (now : Z) (id : string) (sm : t)
    (fault : Fault) :
  fault <> NoFault ->
  ("snapshot_" ++ id ++ ".tmp")%string ∉ map fst (snapshotsDir (fs sm)) ->
  snapshotsOnDisk (snd (takeSnapshot readdir now id fault sm))
  = snapshotsOnDisk sm.
Proof.
  intros Hfault Htemp. unfold takeSnapshot.
  destruct (current sm); [|done].
  destruct fault; [done|done|]. unfold snapshotsOnDisk. simpl.
  rewrite writeFile_absent by done.
  rewrite map_app, List.filter_app. simpl.
  rewrite tempFile_not_isSnapshotFile. apply app_nil_r.
Qed.

End Retention.

(** ** Decoding account data *)

Section Bytes.
Import PumpCurve.

Lemma byte_range (b : Byte.byte) : (0 <= Z.of_N (Byte.to_N b) < 256)%Z.
Proof. pose proof (Byte.to_N_bounded b). lia. Qed.

Lemma littleEndian_range (bs : list Byte.byte) :
  (0 <= littleEndian bs < 256 ^ Z.of_nat (length bs))%Z.
Proof.
  induction bs as [|b bs IH]; simpl littleEndian; simpl length.
  - simpl. lia.
  - pose proof (byte_range b).
    rewrite Nat2Z.inj_succ, Z.pow_succ_r by lia. lia.
Qed.

Lemma littleEndian_app (bs cs : list Byte.byte) :
  littleEndian (bs ++ cs)
  = (littleEndian bs + 256 ^ Z.of_nat (length bs) * littleEndian cs)%Z.
Proof.
  induction bs as [|b bs IH]; simpl littleEndian; simpl length.
  - simpl. lia.
  - rewrite IH, Nat2Z.inj_succ, Z.pow_succ_r by lia. lia.
Qed.

Lemma lor_shiftl_add (n b k : Z) :
  (0 <= k)%Z -> (0 <= n < 2 ^ k)%Z -> 
  Z.lor n (Z.shiftl b k) = (n + b * 2 ^ k)%Z.
Proof.
  intros Hk Hn. rewrite Z.shiftl_mul_pow2 by done.
  symmetry. apply Z.add_nocarry_lor.
  apply Z.bits_inj'. intros m Hm. rewrite Z.land_spec, Z.bits_0.
  destruct (Z.lt_ge_cases m k) as [Hlt|Hge].
  - rewrite Z.mul_pow2_bits_low by done. apply andb_false_r.
  - destruct (Z.eq_dec n 0%Z) as [->|Hnz]; [by rewrite Z.bits_0|].
    assert (Z.log2 n < m)%Z as Hlog by (apply Z.log2_lt_pow2; [lia|];
      apply Z.lt_le_trans with (2 ^ k)%Z; [lia|];
      apply Z.pow_le_mono_r; lia).
    by rewrite (Z.bits_above_log2 n m) by lia.
Qed.

Lemma pow_256 (i : nat) : (256 ^ Z.of_nat i = 2 ^ (8 * Z.of_nat i))%Z.
Proof. rewrite Z.pow_mul_r by lia. reflexivity. Qed.

Lemma littleEndian_take_S (l : list Byte.byte) (i : nat) (b : Byte.byte) :
  l !! i = Some b ->
  littleEndian (take (S i) l)
  = (littleEndian (take i l) + Z.of_N (Byte.to_N b) * 2 ^ (8 * Z.of_nat i))%Z.
Proof.
  intros Hb. rewrite (take_S_r _ _ _ Hb), littleEndian_app. simpl.
  rewrite length_take, Nat.min_l, pow_256; [lia|].
  apply lookup_lt_Some in Hb. lia.
Qed.

Lemma readU64LE_loop_spec (buf : list Byte.byte) (off count i : nat) :
  (off + i <= length buf)%nat ->
  readU64LE_loop buf off i count (littleEndian (take i (drop off buf)))
  = if (off + i + count <=? length buf)%nat
    then Some (littleEndian (take (i + count) (drop off buf)))
    else None.
Proof.
  revert i. induction count as [|count IH]; intros i Hi; simpl.
  - rewrite !Nat.add_0_r.
    destruct (Nat.leb_spec (off + i) (length buf)); [done|lia].
  - destruct (buf !! (off + i)%nat) as [b|] eqn:Hb.
    + pose proof (lookup_lt_Some _ _ _ Hb) as Hlt.
      assert (drop off buf !! i = Some b) as Hb' by by rewrite lookup_drop.
      rewrite lor_shiftl_add, <- littleEndian_take_S by
        (try done; try lia;
         rewrite <- pow_256;
         pose proof (littleEndian_range (take i (drop off buf))) as Hr;
         rewrite length_take, length_drop, Nat.min_l in Hr by lia; exact Hr).
      rewrite IH by lia.
      replace (off + S i + count)%nat with (off + i + S count)%nat by lia.
      replace (S i + count)%nat with (i + S count)%nat by lia. done.
    + apply lookup_ge_None in Hb.
      destruct (Nat.leb_spec (off + i + S count) (length buf)); [lia|done].
Qed.

Lemma readU64LE_spec (buf : list Byte.byte) (off : nat) :
  readU64LE buf off
  = if (off + 8 <=? length buf)%nat
    then Some (littleEndian (take 8 (drop off buf)))
    else None.
Proof.
  unfold readU64LE.
  destruct (Nat.le_gt_cases off (length buf)) as [Hle|Hgt].
  - pose proof (readU64LE_loop_spec buf off 8 0) as H.
    rewrite Nat.add_0_r in H. by apply H.
  - destruct (Nat.leb_spec (off + 8) (length buf)); [lia|].
    simpl. rewrite Nat.add_0_r.
    by rewrite (proj2 (lookup_ge_None buf off)) by lia.
Qed.

Lemma littleEndian_inj (bs cs : list Byte.byte) :
  length bs = length cs -> littleEndian bs = littleEndian cs -> bs = cs.
Proof.
  revert cs. induction bs as [|b bs IH]; intros [|c cs] Hlen Heq;
    try done. simpl in *.
  pose proof (byte_range b). pose proof (byte_range c).
  assert (Z.of_N (Byte.to_N b) = Z.of_N (Byte.to_N c)
          /\ littleEndian bs = littleEndian cs) as [Hb Hrest] by lia.
  f_equal; [|apply IH; [lia|done]].
  apply N2Z.inj in Hb.
  pose proof (Byte.of_to_N b) as H1. rewrite Hb, Byte.of_to_N in H1.
  by injection H1.
Qed.

Lemma littleEndian_surj (k : nat) (z : Z) :
  (0 <= z < 256 ^ Z.of_nat k)%Z ->
  exists bs, length bs = k /\ littleEndian bs = z.
Proof.
  revert z. induction k as [|k IH]; intros z Hz.
  - exists []. simpl in *. split; [done|lia].
  - rewrite Nat2Z.inj_succ, Z.pow_succ_r in Hz by lia.
    destruct (IH (z / 256)%Z) as (bs & Hlen & Hval).
    { split; [apply Z.div_pos; lia | apply Z.div_lt_upper_bound; lia]. }
    pose proof (Z.mod_pos_bound z 256 ltac:(lia)) as Hr.
    destruct (Byte.of_N (Z.to_N (z mod 256))) as [b|] eqn:Hb.
    2:{ apply Byte.of_N_None_iff in Hb. lia. }
    apply Byte.to_of_N in Hb.
    exists (b :: bs). simpl. rewrite Hlen, Hval, Hb. split; [done|].
    rewrite Z2N.id by lia. pose proof (Z.div_mod z 256). lia.
Qed.


(** X1.  [readU64LE] fails exactly when fewer than eight bytes follow
    the offset; otherwise it returns the little-endian value of the
    eight bytes there, an unsigned 64-bit number. *)
Theorem readU64LE_little_endian (buf : list Byte.byte) (off : nat) :
  (readU64LE buf off = None <-> (length buf < off + 8)%nat)
  /\ (forall n, readU64LE buf off = Some n ->
        n = littleEndian (take 8 (drop off buf)) /\ u64 n).
Proof.
  rewrite readU64LE_spec.
  destruct (Nat.leb_spec (off + 8) (length buf)) as [Hle|Hgt].
  - split; [split; [done|lia]|]. intros n [= <-]. split; [done|].
    pose proof (littleEndian_range (take 8 (drop off buf))) as Hr.
    rewrite length_take, length_drop, Nat.min_l in Hr by lia.
    unfold u64. change (2 ^ 64)%Z with (256 ^ Z.of_nat 8)%Z. exact Hr.
  - split; [done|]. intros n Hn. discriminate Hn.
Qed.

(** X2.  Decoding loses nothing: two eight-byte fields that decode to
    the same number hold the same bytes, and every unsigned 64-bit
    number is the decoding of some eight bytes. *)
Theorem readU64LE_one_to_one :
  (forall bs cs : list Byte.byte,
     length bs = 8%nat -> length cs = 8%nat ->
     readU64LE bs 0 = readU64LE cs 0 -> bs = cs)
  /\ (forall z, u64 z ->
        exists bs, length bs = 8%nat /\ readU64LE bs 0 = Some z).
Proof.
  split.
  - intros bs cs Hbs Hcs. rewrite !readU64LE_spec, Hbs, Hcs. simpl.
    rewrite !drop_0, !firstn_all2 by lia. intros [= Heq].
    apply littleEndian_inj; congruence.
  - intros z Hz. destruct (littleEndian_surj 8 z) as (bs & Hlen & Hval).
    { exact Hz. }
    exists bs. split; [done|]. rewrite readU64LE_spec, Hlen. simpl.
    rewrite drop_0, firstn_all2 by lia. by rewrite Hval.
Qed.

Lemma readU64LE_Some (buf : list Byte.byte) (off : nat) :
  (off + 8 <= length buf)%nat ->
  readU64LE buf off = Some (littleEndian (take 8 (drop off buf))).
Proof.
  intros H. rewrite readU64LE_spec.
  by destruct (Nat.leb_spec (off + 8) (length buf)); [|lia].
Qed.

Lemma field_u64 (buf : list Byte.byte) (off : nat) :
  (off + 8 <= length buf)%nat -> u64 (littleEndian (take 8 (drop off buf))).
Proof.
  intros H. pose proof (littleEndian_range (take 8 (drop off buf))) as Hr.
  rewrite length_take, length_drop, Nat.min_l in Hr by lia.
  unfold u64. change (2 ^ 64)%Z with (256 ^ Z.of_nat 8)%Z. exact Hr.
Qed.

Lemma field_app (buf extra : list Byte.byte) (off : nat) :
  (off + 8 <= length buf)%nat ->
  take 8 (drop off (buf ++ extra)) = take 8 (drop off buf).
Proof.
  intros H. rewrite drop_app_le by lia. rewrite take_app_le; [done|].
  rewrite length_drop. lia.
Qed.

Lemma parseBondingCurve_eq (buf : list Byte.byte) :
  parseBondingCurve buf
  = if (length buf <? 40)%nat then None
    else Some {| discriminator := fieldAt 0 buf;
                 reserves := {| virtualToken := fieldAt 8 buf;
                                virtualSol := fieldAt 16 buf;
                                realToken := fieldAt 24 buf;
                                realSol := fieldAt 32 buf |} |}.
Proof.
  unfold parseBondingCurve, fieldAt. change (8 + 8 * 4)%nat with 40%nat.
  destruct (Nat.ltb_spec (length buf) 40) as [Hlt|Hge]; [done|].
  by rewrite !readU64LE_Some by lia.
Qed.

Lemma parseSplMint_eq (buf : list Byte.byte) :
  length buf = 82%nat ->
  exists b44 b45,
    buf !! 44%nat = Some b44 /\ buf !! 45%nat = Some b45
    /\ SplMint.parseSplMint buf
       = Some {| SplMint.supply := fieldAt 36 buf;
                 SplMint.decimals := Some (Z.of_N (Byte.to_N b44));
                 SplMint.isInitialized := (Byte.to_N b45 =? 1)%N |}.
Proof.
  intros Hlen.
  destruct (lookup_lt_is_Some_2 buf 44 ltac:(lia)) as [b44 H44].
  destruct (lookup_lt_is_Some_2 buf 45 ltac:(lia)) as [b45 H45].
  exists b44, b45. split; [done|]. split; [done|].
  unfold SplMint.parseSplMint, fieldAt. rewrite Hlen. simpl.
  rewrite readU64LE_Some by lia. simpl. by rewrite H44, H45.
Qed.

(** X3.  [parseBondingCurve] returns [null] exactly for a buffer of
    fewer than 40 bytes.  Otherwise the discriminator and the four
    reserves are the little-endian fields at offsets 0, 8, 16, 24 and
    32, each reserve is an unsigned 64-bit number, and bytes beyond the
    first 40 have no influence. *)
Theorem parseBondingCurve_layout (buf : list Byte.byte) :
  (parseBondingCurve buf = None <-> (length buf < 40)%nat)
  /\ (forall acc, parseBondingCurve buf = Some acc ->
        discriminator acc = fieldAt 0 buf
        /\ virtualToken (reserves acc) = fieldAt 8 buf
        /\ virtualSol (reserves acc) = fieldAt 16 buf
        /\ realToken (reserves acc) = fieldAt 24 buf
        /\ realSol (reserves acc) = fieldAt 32 buf
        /\ u64 (virtualToken (reserves acc))
        /\ u64 (virtualSol (reserves acc))
        /\ u64 (realToken (reserves acc))
        /\ u64 (realSol (reserves acc))
        /\ forall extra, parseBondingCurve (buf ++ extra) = Some acc).
Proof.
  rewrite parseBondingCurve_eq.
  destruct (Nat.ltb_spec (length buf) 40) as [Hlt|Hge].
  - split; [done|]. intros acc Hacc. discriminate Hacc.
  - split; [split; [done|lia]|]. intros acc [= <-]. simpl.
    repeat split; try (apply field_u64; lia).
    intros extra. rewrite parseBondingCurve_eq, length_app.
    destruct (Nat.ltb_spec (length buf + length extra) 40); [lia|].
    unfold fieldAt. by rewrite !field_app by lia.
Qed.

(** X4.  [parseSplMint] returns [null] exactly for a buffer whose
    length is not 82.  Otherwise the supply is the little-endian field at
    offset 36, an unsigned 64-bit number, the decimals are the byte at
    offset 44, and the mint counts as initialised exactly when the byte
    at offset 45 is 1. *)
Theorem parseSplMint_layout (buf : list Byte.byte) :
  (SplMint.parseSplMint buf = None <-> length buf <> 82%nat)
  /\ (forall m, SplMint.parseSplMint buf = Some m ->
        SplMint.supply m = fieldAt 36 buf
        /\ u64 (SplMint.supply m)
        /\ (exists b, buf !! 44%nat = Some b
                      /\ SplMint.decimals m = Some (Z.of_N (Byte.to_N b)))
        /\ (SplMint.isInitialized m = true <-> buf !! 45%nat = Some Byte.x01)).
Proof.
  destruct (Nat.eq_dec (length buf) 82) as [Hlen|Hlen].
  2:{ unfold SplMint.parseSplMint.
      destruct (Nat.eqb_spec (length buf) 82); [done|]. simpl.
      split; [done|]. intros m Hm. discriminate Hm. }
  destruct (parseSplMint_eq buf Hlen) as (b44 & b45 & H44 & H45 & ->).
  split; [split; [done|lia]|]. intros m [= <-]. simpl.
  split; [done|]. split; [apply field_u64; lia|]. split; [eauto|].
  rewrite H45, N.eqb_eq. split.
  - intros H1. f_equal.
    pose proof (Byte.of_to_N b45) as H. rewrite H1 in H. simpl in H. congruence.
  - by intros [= ->].
Qed.

End Bytes.

(** ** Progress and stage *)

Section Stage.
Import PumpCurve.
Local Open Scope Q_scope.

Lemma clamp_id (x : Q) :
  0 <= x <= 100 -> Num.Math_max 0 (Num.Math_min 100 x) == x.
Proof.
  intros [H0 H100].
  destruct (Math_min_spec 100 x) as [[? ->]|[? ->]];
    [destruct (Math_max_spec 0 (100:Q)) as [[? ->]|[? ->]]
    |destruct (Math_max_spec 0 x) as [[? ->]|[? ->]]]; lra.
Qed.

Lemma progress_hundredths (realToken supply : Z) :
  (0 <= realToken)%Z -> (0 < supply)%Z ->
  let sold := if (supply >? realToken)%Z then (supply - realToken)%Z else 0%Z in
  let k := (sold * 10000 / supply)%Z in
  (0 <= k <= 10000)%Z
  /\ computeProgressPct realToken supply == inject_Z k / 100.
Proof.
  intros Hrt Hsup sold k.
  assert (0 <= sold <= supply)%Z as [Hs0 Hs1].
  { unfold sold. destruct (Z.gtb_spec supply realToken); lia. }
  assert (0 <= k <= 10000)%Z as [Hk0 Hk1].
  { unfold k. split; [apply Z.div_pos; lia|].
    apply Z.div_le_upper_bound; [lia|]. nia. }
  split; [done|].
  unfold computeProgressPct. destruct (Z.eqb_spec supply 0); [lia|].
  cbv zeta. fold sold. rewrite Z.quot_div_nonneg by lia. fold k.
  apply clamp_id. rewrite Zle_Qle in Hk0, Hk1.
  unfold inject_Z in *. qlra.
Qed.

(** X5.  For unsigned 64-bit reserves and supply, the progress is a
    whole number of hundredths between 0 and 100; it is 0 whenever the
    real token reserve is at least the supply; and its stage is
    GRADUATED exactly when the supply is not zero and the real token
    reserve is empty. *)
Theorem stage_of_progress (realToken supply : Z) :
  u64 realToken -> u64 supply ->
  (exists k, (0 <= k <= 10000)%Z
             /\ computeProgressPct realToken supply == inject_Z k / 100)
  /\ ((supply <= realToken)%Z -> computeProgressPct realToken supply == 0)
  /\ (curveStage (computeProgressPct realToken supply) = GRADUATED
      <-> supply <> 0%Z /\ realToken = 0%Z).
Proof.
  intros [Hrt _] [Hsup _].
  destruct (Z.eq_dec supply 0%Z) as [->|Hnz].
  { split; [|split].
    - exists 0%Z. split; [lia|]. reflexivity.
    - reflexivity.
    - split; [discriminate|]. by intros [? _]. }
  destruct (progress_hundredths realToken supply Hrt ltac:(lia))
    as [[Hk0 Hk1] Hp].
  set (sold := if (supply >? realToken)%Z then (supply - realToken)%Z
               else 0%Z) in *.
  set (k := (sold * 10000 / supply)%Z) in *.
  split; [|split].
  - exists k. done.
  - intros Hfull. rewrite Hp.
    assert (k = 0%Z) as ->.
    { unfold k, sold. destruct (Z.gtb_spec supply realToken); [lia|].
      reflexivity. }
    reflexivity.
  - unfold curveStage.
    destruct (Num.ge _ 100) eqn:E.
    + apply Num_ge_iff in E. rewrite Hp in E.
      split; [intros _|done]. split; [done|].
      assert (10000 <= k)%Z as Hk.
      { rewrite Zle_Qle. unfold inject_Z in *. qlra. }
      assert (supply * 10000 <= sold * 10000)%Z as Hsold.
      { pose proof (Z.mul_div_le (sold * 10000) supply ltac:(lia)) as Hd.
        fold k in Hd. nia. }
      unfold sold in Hsold. destruct (Z.gtb_spec supply realToken); lia.
    + apply Num_ge_false in E. rewrite Hp in E.
      split; [by repeat case_match|]. intros [_ ->]. exfalso.
      assert (k = 10000)%Z as Hk.
      { unfold k, sold. destruct (Z.gtb_spec supply 0); [|lia].
        rewrite Z.sub_0_r, Z.mul_comm. apply Z.div_mul. lia. }
      rewrite Hk in E. revert E. compute. discriminate.
Qed.

End Stage.

Lemma stage_of_progress_witness :
  PumpCurve.curveStage (PumpCurve.computeProgressPct 0 1000000000)
  = PumpCurve.GRADUATED
  <-> 1000000000%Z <> 0%Z /\ 0%Z = 0%Z.
Proof.
  apply (proj2 (proj2 (stage_of_progress 0 1000000000
                         ltac:(unfold u64; lia) ltac:(unfold u64; lia)))).
Defined.

(** ** The quick filter and the cache *)

Section Filters.
Import QuickFilters.

(** X6.  The quick filter accepts a transaction exactly when it has a
    nonzero block time and its age in whole seconds is at most the
    limit; it answers [no_blocktime] exactly when the block time is
    missing or zero; and a block time in the future is accepted, its
    age counting as zero. *)
Theorem quickFilterTxMeta_accepts (blockTime : option Z) (nowMs maxAgeSec : Z) :
  (quickFilterTxMeta blockTime nowMs maxAgeSec = ok
   <-> exists t, blockTime = Some t /\ t <> 0%Z
                 /\ (0 <= maxAgeSec)%Z /\ (nowMs / 1000 - t <= maxAgeSec)%Z)
  /\ (quickFilterTxMeta blockTime nowMs maxAgeSec = no_blocktime
      <-> blockTime = None \/ blockTime = Some 0%Z)
  /\ (forall t, blockTime = Some t -> t <> 0%Z -> (0 <= maxAgeSec)%Z ->
        (nowMs / 1000 <= t)%Z ->
        quickFilterTxMeta blockTime nowMs maxAgeSec = ok).
Proof.
  unfold quickFilterTxMeta.
  destruct blockTime as [t|].
  2:{ split; [|split]; [split; [done|] | split; auto | done].
      by intros (t & ? & _). }
  destruct (Z.eqb_spec t 0) as [->|Hnz].
  { split; [|split]; [split; [done|] | split; auto | ].
    - by intros (t & [= <-] & ? & _).
    - by intros t [= <-]. }
  destruct (Z.gtb_spec (Z.max 0 (nowMs / 1000 - t)) maxAgeSec) as [Hold|Hok].
  - split; [|split]; [split; [done|] | split; [done|] | ].
    + intros (t' & [= <-] & _ & ? & ?). lia.
    + intros [?|[= ?]]; done.
    + intros t' [= <-] _ ? ?. lia.
  - split; [|split]; [split; [|done] | split; [done|] | done].
    + intros _. exists t. repeat split; [done|lia|lia].
    + intros [?|[= ?]]; done.
Qed.

End Filters.

Section Cache.
Import TTLCache.

(** X7.  After [add(key)] at time [now], [has(key)] at time [later]
    answers true exactly when [now] is not zero and no more than the
    time to live has passed; the answers for other keys are not
    affected. *)
Theorem has_after_add (key : string) (now later : Z) (c : t) :
  (fst (has key later (add key now c)) = true
   <-> now <> 0%Z /\ (later - now <= ttlMs c)%Z)
  /\ (forall other, other <> key ->
        fst (has other later (add key now c)) = fst (has other later c)).
Proof.
  split.
  - unfold has, add. simpl. rewrite lookup_insert_eq.
    destruct (Z.eqb_spec now 0) as [->|Hnz]; simpl; [split; [done|tauto]|].
    destruct (Z.gtb_spec (later - now) (ttlMs c)); simpl.
    + split; [done|]. intros [_ ?]. lia.
    + split; [|done]. intros _. split; [done|lia].
  - intros other Hne. unfold has, add. simpl.
    rewrite lookup_insert_ne by done.
    destruct (map c !! other) as [v|]; [|done].
    destruct (v =? 0)%Z; [done|]. by destruct (_ >? _)%Z.
Qed.

(** X8.  [cleanup()] keeps exactly the entries that are not older than
    the time to live, and it never changes what [has] answers then or
    later. *)
Theorem cleanup_removes_expired (now : Z) (c : t) :
  ttlMs (cleanup now c) = ttlMs c
  /\ (forall key t,
        map (cleanup now c) !! key = Some t
        <-> map c !! key = Some t /\ (now - t <= ttlMs c)%Z)
  /\ (forall key later, (now <= later)%Z ->
        fst (has key later (cleanup now c)) = fst (has key later c)).
Proof.
  assert (forall key t,
            map (cleanup now c) !! key = Some t
            <-> map c !! key = Some t /\ (now - t <= ttlMs c)%Z) as Hlookup.
  { intros key t. unfold cleanup. simpl.
    rewrite map_lookup_filter_Some. simpl. split; intros [? ?]; split; auto; lia. }
  split; [done|]. split; [done|].
  intros key later Hlater. unfold has.
  change (ttlMs (cleanup now c)) with (ttlMs c).
  destruct (map c !! key) as [v|] eqn:Hv.
  - destruct (Z.le_gt_cases (now - v) (ttlMs c)) as [Hkeep|Hdrop].
    + rewrite (proj2 (Hlookup key v)) by done.
      destruct (v =? 0)%Z; [done|]. by destruct (_ >? _)%Z.
    + destruct (map (cleanup now c) !! key) as [v'|] eqn:Hv'.
      { apply Hlookup in Hv' as [Hv' ?]. rewrite Hv in Hv'. injection Hv' as <-. lia. }
      destruct (v =? 0)%Z; [done|].
      destruct (Z.gtb_spec (later - v) (ttlMs c)); [done|lia].
  - destruct (map (cleanup now c) !! key) as [v'|] eqn:Hv'; [|done].
    apply Hlookup in Hv' as [Hv' ?]. congruence.
Qed.

End Cache.

(** ** The account fetches of the pipeline *)

Section Fetches.
Import PumpCurve ValidationQueue.

(** X9.  [_fetchMintInfo] resolves to [null] only when the request
    throws.  It reports a new token exactly when the account has no
    data or its data is not 82 bytes long.  Otherwise it reports the
    supply stored at offset 36 and a number of decimals between 1 and
    255: a mint with zero decimals is reported with 6. *)
Theorem fetchMintInfo_cases (r : Fetched) :
  (_fetchMintInfo r = None <-> r = Threw)
  /\ (_fetchMintInfo r = Some MintNew
      <-> r = Account None
          \/ exists buf, r = Account (Some buf) /\ length buf <> 82%nat)
  /\ (forall supply decimals,
        _fetchMintInfo r = Some (MintFound supply decimals) ->
        exists buf b,
          r = Account (Some buf) /\ length buf = 82%nat
          /\ supply = fieldAt 36 buf /\ u64 supply
          /\ buf !! 44%nat = Some b
          /\ decimals = (if (Z.of_N (Byte.to_N b) =? 0)%Z then 6%Z
                         else Z.of_N (Byte.to_N b))
          /\ (1 <= decimals <= 255)%Z).
Proof.
  destruct r as [|[buf|]]; simpl.
  - split; [done|]. split; [|done]. split; [done|].
    intros [?|(buf & ? & _)]; done.
  - destruct (Nat.eqb_spec (length buf) 82) as [Hlen|Hlen]; simpl.
    + destruct (parseSplMint_eq buf Hlen) as (b & b45 & Hb & _ & ->).
      simpl.
      split; [done|]. split.
      { split; [done|]. intros [?|(buf' & [= <-] & ?)]; done. }
      intros supply decimals [= <- <-].
      exists buf, b. pose proof (byte_range b).
      do 3 (split; [done|]). split; [apply field_u64; lia|].
      do 2 (split; [done|]).
      destruct (Z.eqb_spec (Z.of_N (Byte.to_N b)) 0); lia.
    + split; [done|]. split; [|done].
      split; [|done]. intros _. right. eauto.
  - split; [done|]. split; [|done]. split; [|done]. auto.
Qed.

Lemma pipeline_with_curve (config : Config.t) (w : World) (cd : CurveData) :
  fetchedCurve w = Some cd ->
  _runValidationPipeline config w <> PASS CURVE_NOT_FOUND.
Proof.
  intros Hcurve.
  assert (forall p r, _basicValidate cd p = inl r -> r <> CURVE_NOT_FOUND)
    as Hbasic.
  { intros p r. unfold _basicValidate.
    repeat case_match; intros [= <-]; discriminate. }
  assert (forall m p r, _deepValidate config w m cd p = inl r ->
                        r <> CURVE_NOT_FOUND) as Hdeep.
  { intros m p r. unfold _deepValidate.
    repeat case_match; intros [= <-]; discriminate. }
  unfold _runValidationPipeline. rewrite Hcurve. cbv zeta.
  repeat case_match; try discriminate.
  - intros [= ->]. by eapply Hbasic.
  - intros [= ->]. by eapply Hdeep.
Qed.

(** X10.  Whatever the configuration, the pipeline answers
    CURVE_NOT_FOUND exactly when the request for the curve account
    throws, finds no data, or finds fewer than 40 bytes. *)
Theorem curve_not_found_iff (config : Config.t) (curve mint : Fetched)
    (randomVolume randomInitialBuy : Q) :
  _runValidationPipeline config
    (observed curve mint randomVolume randomInitialBuy)
  = PASS CURVE_NOT_FOUND
  <-> curve = Threw \/ curve = Account None
      \/ exists buf, curve = Account (Some buf) /\ (length buf < 40)%nat.
Proof.
  split.
  - intros Hrun.
    destruct (_fetchCurveData curve) as [cd|] eqn:Hcd.
    { exfalso. revert Hrun. by apply (pipeline_with_curve _ _ cd). }
    destruct curve as [|[buf|]]; auto. right. right. exists buf.
    split; [done|]. simpl in Hcd.
    rewrite parseBondingCurve_eq in Hcd.
    by destruct (Nat.ltb_spec (length buf) 40).
  - intros H.
    assert (_fetchCurveData curve = None) as Hcd.
    { destruct H as [->|[->|(buf & -> & Hlen)]]; try done. simpl.
      rewrite parseBondingCurve_eq.
      by destruct (Nat.ltb_spec (length buf) 40); [|lia]. }
    unfold _runValidationPipeline. simpl. by rewrite Hcd.
Qed.

End Fetches.

(** ** What the pipeline can answer *)

Section PipelineOutcomes.
Import PumpCurve ValidationQueue.
Local Open Scope Q_scope.

Lemma new_token_progress (cd : CurveData) :
  computeProgressPct (realToken cd) (realToken cd) == 0.
Proof. apply computeProgressPct_full_reserve. Qed.

(** X11.  For a token whose mint account is not visible yet, under any
    configuration that admits a progress of zero and asks for a score of
    at most 85, the decision depends on the real SOL reserve of the curve
    alone: below 0.15 SOL the token is passed for LOW_LIQUIDITY, and
    otherwise it is entered with tier EXTREME and a score of 85, 90 or
    95 according to the reserve.  Its progress is computed against its
    own reserve and is zero. *)
Theorem new_token_decided_by_liquidity (config : Config.t) (w : World)
    (cd : CurveData) :
  0 < Config.maxCurveProgress (Config.scanner config) ->
  Config.minCurveProgress (Config.scanner config) <= 0 ->
  Config.momentum_minScore (Config.momentum config) <= 85 ->
  fetchedCurve w = Some cd ->
  fetchedMint w = Some MintNew ->
  _runValidationPipeline config w
  = (if (realSol cd <? 150000000)%Z then PASS LOW_LIQUIDITY
     else ENTER {| mintInfo := Some MintNew;
                   curveData := cd;
                   momentumScore := earlyScoreFor (realSol cd);
                   tier := EXTREME;
                   positionSizePct := _getPositionSizeForTier config EXTREME;
                   progress :=
                     computeProgressPct (realToken cd) (realToken cd);
                   entered_isNew := true |})
  /\ computeProgressPct (realToken cd) (realToken cd) == 0.
Proof.
  intros Hmax Hmin Hscore Hcurve Hmint.
  split; [|apply new_token_progress].
  unfold _runValidationPipeline. rewrite Hcurve, Hmint. simpl.
  pose proof (new_token_progress cd) as Hp.
  set (progress := computeProgressPct _ _) in *.
  destruct (Num.ge progress _) eqn:E1; [apply Num_ge_iff in E1; lra|].
  destruct (Num.lt progress _) eqn:E2; [apply Num_lt_iff in E2; lra|].
  destruct (Num.ge progress 100) eqn:E3; [apply Num_ge_iff in E3; lra|].
  destruct (Num.gt progress 70) eqn:E4; [apply Num_gt_iff in E4; lra|].
  unfold _basicValidate.
  destruct (Z.ltb_spec (realSol cd) 150000000) as [Hlow|Hok].
  - destruct (Num.lt _ (15 # 100)) eqn:E5; [done|].
    apply Num_lt_false in E5. exfalso.
    rewrite Zlt_Qlt in Hlow. unfold inject_Z in *. qlra.
  - destruct (Num.lt _ (15 # 100)) eqn:E5.
    { apply Num_lt_iff in E5. exfalso. rewrite Zle_Qle in Hok. unfold inject_Z in *. qlra. }
    destruct (Num.gt progress 75) eqn:E6; [apply Num_gt_iff in E6; lra|].
    assert (_calculateEarlyScore
              {| basic_liquiditySol := inject_Z (realSol cd) / 1000000000;
                 basic_progress := progress |} progress
            = earlyScoreFor (realSol cd)) as ->.
    { unfold _calculateEarlyScore, earlyScoreFor. simpl.
      destruct (Z.leb_spec 500000000 (realSol cd)) as [H5|H5];
        [|destruct (Z.leb_spec 300000000 (realSol cd)) as [H3|H3]];
        [rewrite Zle_Qle in H5 | rewrite Zlt_Qlt in H5; rewrite Zle_Qle in H3
         | rewrite Zlt_Qlt in H5; rewrite Zlt_Qlt in H3; rewrite Zle_Qle in Hok].
      all: unfold inject_Z in *; num_cases; reflexivity. }
    assert (85 <= earlyScoreFor (realSol cd) <= 95)%Z as [Hlo Hhi].
    { unfold earlyScoreFor. repeat destruct (_ <=? _)%Z; lia. }
    rewrite Zle_Qle in Hlo, Hhi.
    destruct (Num.lt (inject_Z _) _) eqn:E7.
    { apply Num_lt_iff in E7. exfalso. unfold inject_Z in *. lra. }
    destruct (Num.ge (inject_Z _) 80) eqn:E8; [done|].
    apply Num_ge_false in E8. exfalso. unfold inject_Z in *. lra.
Qed.


(** X12.  Under a configuration whose thresholds are at most those
    shipped, and with draws of [Math.random()] that are not negative,
    only five of the twelve rejection reasons can occur. *)
Theorem reachable_rejections (config : Config.t) (w : World)
    (reason : Rejection) :
  Config.maxCurveProgress (Config.scanner config) <= 100 ->
  Config.minCurveProgress (Config.scanner config) <= 0 ->
  Config.momentum_minScore (Config.momentum config) <= 85 ->
  Config.minVolume5mSol (Config.scanner config) <= 1 # 2 ->
  Config.minInitialBuySol (Config.scanner config) <= 1 # 10 ->
  0 <= randomVolume w -> 0 <= randomInitialBuy w ->
  _runValidationPipeline config w = PASS reason ->
  reason = CURVE_NOT_FOUND \/ reason = CURVE_GRADUATED
  \/ reason = LOW_LIQUIDITY \/ reason = INSUFFICIENT_HOLDERS
  \/ reason = MOMENTUM_BELOW_THRESHOLD.
Proof.
  intros Hmax Hmin Hscore Hvol Hbuy Hrv Hrb.
  unfold _runValidationPipeline.
  destruct (fetchedCurve w) as [cd|]; [|intros [= <-]; auto].
  cbv zeta.
  pose proof (computeProgressPct_range (realToken cd)
                (supplyOf (fetchedMint w) cd)) as [Hp0 Hp100].
  set (progress := computeProgressPct _ _) in *.
  destruct (Num.ge progress _) eqn:E1; [intros [= <-]; auto|].
  apply Num_ge_false in E1.
  destruct (Num.lt progress _) eqn:E2; [apply Num_lt_iff in E2; lra|].
  destruct (Num.ge progress 100) eqn:E3; [apply Num_ge_iff in E3; lra|].
  destruct (isNew (fetchedMint w)) eqn:Hnew.
  - assert (progress == 0) as Hp.
    { unfold progress. destruct (fetchedMint w) as [[|]|]; try done.
      apply computeProgressPct_full_reserve. }
    destruct (Num.gt progress 70) eqn:E4; [apply Num_gt_iff in E4; lra|].
    unfold _basicValidate.
    destruct (Num.lt _ (15 # 100)) eqn:E5; [intros [= <-]; auto|].
    apply Num_lt_false in E5.
    destruct (Num.gt progress 75) eqn:E6; [apply Num_gt_iff in E6; lra|].
    pose proof (calculateEarlyScore_range
                  {| basic_liquiditySol := inject_Z (realSol cd) / 1000000000;
                     basic_progress := progress |} progress E5
                  ltac:(lra)) as [Hs _].
    rewrite Zle_Qle in Hs.
    destruct (Num.lt (inject_Z _) _) eqn:E7; [|done].
    apply Num_lt_iff in E7. exfalso. unfold inject_Z in *. lra.
  - unfold _deepValidate, _estimateVolume, _getInitialBuy. cbv zeta.
    destruct (Num.lt _ (Config.minHolders _)); [intros [= <-]; auto|].
    destruct (Num.lt _ (Config.minVolume5mSol _)) eqn:E5;
      [apply Num_lt_iff in E5; lra|].
    destruct (Num.lt _ (5 # 10)); [intros [= <-]; auto|].
    destruct (Num.truthy _ && _) eqn:E6.
    { apply andb_true_iff in E6 as [_ E6]. apply Num_lt_iff in E6. lra. }
    destruct (Num.lt (inject_Z _) _); [intros [= <-]; auto|done].
Qed.

Lemma Math_round_lt (x : Q) (z : Z) :
  x + (1 # 2) < inject_Z z -> (Num.Math_round x < z)%Z.
Proof.
  intros H. unfold Num.Math_round. rewrite Zlt_Qlt.
  pose proof (Qfloor_le (x + (1 # 2))). lra.
Qed.

Lemma Math_round_ge (x : Q) (z : Z) :
  inject_Z z <= x + (1 # 2) -> (z <= Num.Math_round x)%Z.
Proof.
  intros H. unfold Num.Math_round.
  apply Qfloor_resp_le in H. by rewrite Qfloor_Z in H.
Qed.

(** X13.  With weights that are not negative and sum to at most one,
    the momentum score of a candidate whose estimates are not negative
    and whose progress lies in [[0, 100]] lies in [[0, 100]]. *)
Theorem momentum_score_in_range (config : Config.t) (v : Validation)
    (progress : Q) :
  let weights := Config.weights (Config.momentum config) in
  0 <= Config.volume weights -> 0 <= Config.holders weights ->
  0 <= Config.curve weights ->
  Config.volume weights + Config.holders weights + Config.curve weights <= 1 ->
  0 <= estimatedVolumeSol v -> 0 <= estimatedHolders v ->
  0 <= progress <= 100 ->
  (0 <= _calculateMomentumScore config v progress <= 100)%Z.
Proof.
  intros weights Hv Hh Hc Hsum Hvol Hhold [Hp0 Hp100].
  unfold _calculateMomentumScore. fold weights.
  set (wv := Config.volume weights) in *.
  set (wh := Config.holders weights) in *.
  set (wc := Config.curve weights) in *.
  assert (0 <= Num.Math_min (estimatedVolumeSol v / 2 * 100) 100 <= 100)
    as [Ha0 Ha100].
  { destruct (Math_min_spec (estimatedVolumeSol v / 2 * 100) 100)
      as [[Ha ->]|[Ha ->]]; qlra. }
  assert (0 <= Num.Math_min (estimatedHolders v / 50 * 100) 100 <= 100)
    as [Hb0 Hb100].
  { destruct (Math_min_spec (estimatedHolders v / 50 * 100) 100)
      as [[Hb ->]|[Hb ->]]; qlra. }
  set (a := Num.Math_min (estimatedVolumeSol v / 2 * 100) 100) in *.
  set (b := Num.Math_min (estimatedHolders v / 50 * 100) 100) in *.
  assert (0 <= a * wv) by (apply Qmult_le_0_compat; lra).
  assert (a * wv <= 100 * wv) by (apply Qmult_le_compat_r; lra).
  assert (0 <= b * wh) by (apply Qmult_le_0_compat; lra).
  assert (b * wh <= 100 * wh) by (apply Qmult_le_compat_r; lra).
  assert (0 <= progress * (8 # 10) * wc) by (apply Qmult_le_0_compat; lra).
  assert (progress * (8 # 10) * wc <= 80 * wc)
    by (apply Qmult_le_compat_r; lra).
  clearbody a b wv wh wc.
  split; [apply Math_round_ge | apply Z.lt_succ_r, Math_round_lt].
  - unfold inject_Z. lra.
  - change (inject_Z (Z.succ 100)) with 101. lra.
Qed.


(** X14.  Under the shipped scanner thresholds, weights and tiers and a
    minimum score of at least 40, every established token that is
    entered has a score between the minimum and 92, the tier its score
    gives, which is HOT or higher, a position size between one half and
    one, a progress below 99, at least 15,000,000 base units sold, and
    at least 0.5 SOL of real reserves. *)
Theorem established_entry_bounds (config : Config.t) (w : World) (r : Entered) :
  Config.scanner config = Config.scanner Config.default ->
  Config.weights (Config.momentum config)
  = Config.weights (Config.momentum Config.default) ->
  Config.tiers (Config.momentum config)
  = Config.tiers (Config.momentum Config.default) ->
  40 <= Config.momentum_minScore (Config.momentum config) ->
  _runValidationPipeline config w = ENTER r ->
  entered_isNew r = false ->
  Config.momentum_minScore (Config.momentum config)
  <= inject_Z (momentumScore r)
  /\ (momentumScore r <= 92)%Z
  /\ tier r = _getTier config (momentumScore r)
  /\ (tier r = HOT \/ tier r = VERY_HOT \/ tier r = EXTREME)
  /\ 1 # 2 <= positionSizePct r <= 1
  /\ progress r < 99
  /\ (15000000
      <= supplyOf (mintInfo r) (curveData r) - realToken (curveData r))%Z
  /\ (500000000 <= realSol (curveData r))%Z.
Proof.
  intros Hsc Hws Hts Hms Hrun Hnew.
  destruct config as [tr sc [ws ms ts] ex pe]. simpl in *. subst sc ws ts.
  unfold _runValidationPipeline in Hrun. simpl in Hrun.
  destruct (fetchedCurve w) as [cd|]; [|done].
  set (progress := computeProgressPct _ _) in *.
  destruct (Num.ge progress 99) eqn:E1; [done|]. apply Num_ge_false in E1.
  destruct (Num.lt progress 0); [done|].
  destruct (Num.ge progress 100); [done|].
  destruct (isNew (fetchedMint w)).
  { destruct (Num.gt progress 70); [done|].
    destruct (_basicValidate cd progress); [done|].
    destruct (Num.lt _ ms); [done|].
    injection Hrun as <-. done. }
  unfold _deepValidate in Hrun. simpl in Hrun.
  destruct (Num.lt _ 15) eqn:E2; [done|]. apply Num_lt_false in E2.
  destruct (Num.lt _ (5 # 10)) eqn:E3; [done|].
  destruct (Num.lt _ (5 # 10)) eqn:E4 in Hrun; [done|].
  apply Num_lt_false in E4.
  destruct (Num.truthy _ && _); [done|].
  destruct (Num.lt (inject_Z _) ms) eqn:E5; [done|].
  apply Num_lt_false in E5.
  injection Hrun as <-.
  cbn [momentumScore tier positionSizePct ValidationQueue.progress mintInfo
       ValidationQueue.curveData].
  set (config := Config.Build_t _ _ _ _ _) in *.
  set (score := _calculateMomentumScore _ _ _) in *.
  assert (40 <= score)%Z as Hscore.
  { rewrite Zle_Qle. unfold inject_Z in *. lra. }
  split; [done|]. split.
  { apply Z.lt_succ_r. unfold score, _calculateMomentumScore. simpl.
    apply Math_round_lt.
    destruct (Math_min_spec (_estimateVolume w / 2 * 100) 100)
      as [[Ha ->]|[Ha ->]];
      destruct (Math_min_spec
                  (inject_Z (supplyOf (fetchedMint w) cd - realToken cd)
                   / 1000000 / 50 * 100) 100)
        as [[Hb ->]|[Hb ->]].
    all: change (inject_Z (Z.succ 92)) with 93; lra. }
  split; [done|].
  assert (_getTier config score = HOT \/ _getTier config score = VERY_HOT
          \/ _getTier config score = EXTREME) as Htier.
  { unfold _getTier. simpl. rewrite Zle_Qle in Hscore.
    destruct (Num.ge _ 80); [auto|]. destruct (Num.ge _ 60); [auto|].
    destruct (Num.ge _ 40) eqn:E6; [auto|].
    apply Num_ge_false in E6. unfold inject_Z in *. lra. }
  split; [done|]. split.
  { destruct Htier as [-> | [-> | ->]]; vm_compute; split; discriminate. }
  split; [done|].
  unfold Qdiv in E2, E4.
  change (/ 1000000) with (1 # 1000000) in E2.
  change (/ 1000000000) with (1 # 1000000000) in E4.
  split; rewrite Zle_Qle; unfold inject_Z in *; lra.
Qed.

End PipelineOutcomes.

Lemma new_token_decided_by_liquidity_witness :
  exists r,
    ValidationQueue._runValidationPipeline Config.runtime freshWorld
    = ValidationQueue.ENTER r
    /\ ValidationQueue.momentumScore r = 85%Z
    /\ ValidationQueue.tier r = ValidationQueue.EXTREME.
Proof.
  eexists.
  rewrite (proj1 (new_token_decided_by_liquidity Config.runtime freshWorld
                    {| PumpCurve.virtualToken := 1073000000000000;
                       PumpCurve.virtualSol := 30000000000;
                       PumpCurve.realToken := 793100000000000;
                       PumpCurve.realSol := 200000000 |}
                    ltac:(reflexivity) ltac:(vm_compute; discriminate)
                    ltac:(vm_compute; discriminate) eq_refl eq_refl)).
  split; [reflexivity|]. split; reflexivity.
Defined.

Lemma reachable_rejections_witness :
  ValidationQueue._runValidationPipeline Config.runtime establishedWorld
  = ValidationQueue.PASS ValidationQueue.MOMENTUM_BELOW_THRESHOLD
  /\ (ValidationQueue.MOMENTUM_BELOW_THRESHOLD = ValidationQueue.CURVE_NOT_FOUND
      \/ ValidationQueue.MOMENTUM_BELOW_THRESHOLD
         = ValidationQueue.CURVE_GRADUATED
      \/ ValidationQueue.MOMENTUM_BELOW_THRESHOLD = ValidationQueue.LOW_LIQUIDITY
      \/ ValidationQueue.MOMENTUM_BELOW_THRESHOLD
         = ValidationQueue.INSUFFICIENT_HOLDERS
      \/ ValidationQueue.MOMENTUM_BELOW_THRESHOLD
         = ValidationQueue.MOMENTUM_BELOW_THRESHOLD).
Proof.
  assert (ValidationQueue._runValidationPipeline Config.runtime establishedWorld
          = ValidationQueue.PASS ValidationQueue.MOMENTUM_BELOW_THRESHOLD)
    as Hrun by (vm_compute; reflexivity).
  split; [exact Hrun|].
  apply (reachable_rejections Config.runtime establishedWorld
           ValidationQueue.MOMENTUM_BELOW_THRESHOLD);
    [ vm_compute; discriminate | vm_compute; discriminate
    | vm_compute; discriminate | vm_compute; discriminate
    | vm_compute; discriminate | vm_compute; discriminate
    | vm_compute; discriminate | exact Hrun ].
Defined.

Lemma momentum_score_in_range_witness :
  (0 <= ValidationQueue._calculateMomentumScore Config.default
          {| ValidationQueue.estimatedHolders := 20;
             ValidationQueue.estimatedVolumeSol := 1;
             ValidationQueue.liquiditySol := 6 # 10 |} 40
   <= 100)%Z.
Proof.
  apply (momentum_score_in_range Config.default
           {| ValidationQueue.estimatedHolders := 20;
              ValidationQueue.estimatedVolumeSol := 1;
              ValidationQueue.liquiditySol := 6 # 10 |} 40);
    try (vm_compute; discriminate).
  split; vm_compute; discriminate.
Defined.

Lemma established_entry_bounds_witness :
  exists r,
    ValidationQueue._runValidationPipeline Config.runtime hotWorld
    = ValidationQueue.ENTER r
    /\ (Config.momentum_minScore (Config.momentum Config.runtime)
        <= inject_Z (ValidationQueue.momentumScore r))%Q
    /\ (ValidationQueue.momentumScore r <= 92)%Z.
Proof.
  eexists. split; [vm_compute; reflexivity|].
  pose proof (established_entry_bounds Config.runtime hotWorld _
                eq_refl eq_refl eq_refl ltac:(vm_compute; discriminate)
                eq_refl eq_refl) as (H1 & H2 & _).
  split; [exact H1 | exact H2].
Defined.

(** ** The accounting of the queue *)

Section QueueAccounting.
Import ValidationQueue.

Lemma drain_loop_spec (queue : list Job) (vq : t) :
  q vq = queue ->
  exists started,
    queue = started ++ q (_drain_loop queue vq)
    /\ inflight (_drain_loop queue vq) = inflight vq ++ started
    /\ active (_drain_loop queue vq) = (active vq + length started)%nat
    /\ concurrency (_drain_loop queue vq) = concurrency vq
    /\ stats (_drain_loop queue vq) = stats vq
    /\ emitted (_drain_loop queue vq) = emitted vq
    /\ validatedMints (_drain_loop queue vq) = validatedMints vq
    /\ (q (_drain_loop queue vq) = []
        \/ (concurrency vq <= active (_drain_loop queue vq))%nat)
    /\ ((active vq <= concurrency vq)%nat ->
        (active (_drain_loop queue vq) <= concurrency vq)%nat).
Proof.
  revert vq. induction queue as [|job rest IH]; intros vq Hq; simpl.
  - exists []. rewrite Hq, !app_nil_r, Nat.add_0_r. repeat split; auto.
  - destruct (Nat.ltb_spec (active vq) (concurrency vq)) as [Hlt|Hge].
    + destruct (IH (start job rest vq) eq_refl)
        as (started & H1 & H2 & H3 & H4 & H5 & H6 & H7 & H8 & H9).
      exists (job :: started). simpl in *.
      rewrite H2, H3, H4, H5, H6, H7, <- app_assoc. simpl.
      repeat split; auto; try lia.
      * by f_equal.
      * destruct H8 as [?|?]; [by left | right; lia].
    + exists []. rewrite Hq, !app_nil_r, Nat.add_0_r. simpl.
      repeat split; auto.
Qed.

Lemma accounted_drain (c : nat) (vq : t) :
  let st := stats vq in
  concurrency vq = c ->
  active vq = length (inflight vq) ->
  (active vq <= c)%nat ->
  queued st = (processed st + active vq + length (q vq))%nat ->
  processed st = (entered st + skipped st + failed st)%nat ->
  length (emitted vq) = entered st ->
  passed st = 0%nat ->
  accounted c (_drain vq).
Proof.
  intros st Hc Ha Hle Hq Hp He Hz. unfold _drain.
  destruct (drain_loop_spec (q vq) vq eq_refl)
    as (started & H1 & H2 & H3 & H4 & H5 & H6 & H7 & H8 & H9).
  unfold accounted. rewrite H2, H3, H4, H5, H6.
  fold st. rewrite H1 in Hq. rewrite length_app in *.
  repeat split; try lia; try done.
  intros Hne. destruct H8 as [?|?]; [done|]. specialize (H9 ltac:(lia)). lia.
Qed.

Lemma accounted_new (c : nat) : accounted c (new c).
Proof. unfold accounted, new. simpl. repeat split; try done; lia. Qed.

Lemma accounted_step (config : Config.t) (c : nat) (e : Event) (vq : t) :
  accounted c vq -> accounted c (step config e vq).
Proof.
  intros (Hc & Ha & Hle & Hfull & Hq & Hp & He & Hz).
  destruct e as [mint md now|i w now|i msg now]; simpl.
  - unfold push. destruct (TTLCache.has mint now (validatedMints vq))
      as [[|] cache].
    + unfold accounted. simpl. repeat split; auto.
    + apply accounted_drain; simpl; try done.
      rewrite length_app. simpl. lia.
  - unfold settle. destruct (inflight vq !! i) as [job|] eqn:Hjob.
    2:{ unfold accounted. repeat split; auto. }
    pose proof (lookup_lt_Some _ _ _ Hjob) as Hi.
    unfold finally, _processJob.
    destruct (_runValidationPipeline config w) as [reason|r];
      apply accounted_drain; simpl; try done; try lia;
      rewrite ?length_app, ?length_take, ?length_drop; simpl; lia.
  - unfold settle. destruct (inflight vq !! i) as [job|] eqn:Hjob.
    2:{ unfold accounted. repeat split; auto. }
    pose proof (lookup_lt_Some _ _ _ Hjob) as Hi.
    unfold finally, _processJob.
    apply accounted_drain; simpl; try done; try lia;
      rewrite ?length_app, ?length_take, ?length_drop; simpl; lia.
Qed.

(** X15.  After any sequence of pushes and settlements on a new queue,
    with any number of workers: the number of active workers is the
    number of jobs in flight and never exceeds the concurrency; no worker
    is idle while a job waits; every mint counted as queued is processed,
    in flight or waiting; every processed job was entered, skipped or
    failed; one signal was emitted per entry; and the [passed] counter is
    still zero. *)
Theorem queue_books_balance (config : Config.t) (concurrency : nat)
    (es : list Event) :
  accounted concurrency (run config es (new concurrency)).
Proof.
  unfold run.
  assert (forall vq, accounted concurrency vq ->
            accounted concurrency
              (foldl (fun vq e => step config e vq) vq es)) as H.
  { induction es as [|e es IH]; intros vq Hvq; simpl; [done|].
    by apply IH, accounted_step. }
  apply H, accounted_new.
Qed.

End QueueAccounting.

Lemma push_after_validation_is_dropped_witness :
  let vq := ValidationQueue.run Config.default duplicatePushes
              (ValidationQueue.new 3) in
  let md := {| ValidationQueue.detectedAt := 1700000001000;
               ValidationQueue.signature := "late" |} in
  ValidationQueue.outcomesFor duplicateMint
    (ValidationQueue.push duplicateMint md 1700000001000 vq)
  = ValidationQueue.outcomesFor duplicateMint vq
  /\ ValidationQueue.q (ValidationQueue.push duplicateMint md 1700000001000 vq)
     = ValidationQueue.q vq.
Proof.
  apply (push_after_validation_is_dropped duplicateMint _ 1700000001000
           (ValidationQueue.run Config.default duplicatePushes
              (ValidationQueue.new 3)) 1700000000950);
    [vm_compute; reflexivity | lia | vm_compute; discriminate].
Defined.

(** ** The breaker and more on the exit rules *)

Section Breaker.
Import PositionManager.
Local Open Scope Q_scope.


End Breaker.


Section MoreExitRules.
Import PositionManager.
Local Open Scope Q_scope.
Local Arguments Qfloor : simpl never.

Ltac read_console :=
  unfold tier1Fired, stopLossFired, printed, raised;
  rewrite ?console_shareWith, ?emitted_shareWith; simpl;
  rewrite <- ?app_assoc; rewrite ?drop_app_length, ?drop_all; simpl.

Lemma checkPosition_nonTerminal config mint p env pm :
  nonTerminal p ->
  checkPosition config mint p env pm = _evaluatePosition config mint p env pm.
Proof. intros [H|H]; unfold checkPosition; by rewrite H. Qed.









(** X19.  Under the default configuration the tier-1 exit multiplies
    the remaining tokens by the configured [exitPct] of 50: for a
    position holding at least a fiftieth of a token it removes the
    integer part of fifty times the holding, so the remaining token
    count is negative afterwards. *)
Theorem tier1_sells_fifty_times_the_holding (mint : string) (p : Position)
    (env : Env) (pm : t) (pnl : Q) :
  state p = IN_POSITION -> tier1Exited p = false ->
  computedPnl p = Some pnl -> 50 <= pnl <= 100 ->
  1 # 50 <= remainingTokens p ->
  let r := checkPosition Config.default mint p env pm in
  let tokensToExit := Num.Math_floor (remainingTokens p * 50) in
  remainingTokens (fst r) = remainingTokens p - inject_Z tokensToExit
  /\ remainingTokens p * 50 - 1 < inject_Z tokensToExit
  /\ remainingTokens (fst r) < 0
  /\ state (fst r) = TIER_1_EXITED
  /\ exists sold,
       raised pm (snd r) = [partialExit sold 50 TIER_1_PROFIT]
       /\ remainingTokens sold = remainingTokens (fst r).
Proof.
  intros Hs Ht1 Hpnl [Hlo Hhi] Hrem. cbv zeta. unfold Num.Math_floor.
  rewrite (checkPosition_nonTerminal _ _ _ _ _ (or_introl Hs)).
  destruct (evaluatePosition_computed Config.default mint p env pm pnl Hpnl)
    as [cp ->].
  pose proof (Qlt_floor (remainingTokens p * 50)) as Hfloor.
  rewrite inject_Z_plus in Hfloor. change (inject_Z 1) with 1 in Hfloor.
  assert (1 <= Qfloor (remainingTokens p * 50))%Z as Hpos.
  { change 1%Z with (Qfloor 1). apply Qfloor_resp_le. lra. }
  unfold evaluateRules. simpl. rewrite Hs, Ht1.
  rewrite (proj2 (Num_ge_iff pnl 50) Hlo), (proj2 (Num_le_iff pnl 100) Hhi).
  simpl. unfold _executePartialExit, Num.Math_floor. simpl.
  destruct (Z.leb_spec (Qfloor (remainingTokens p * 50)) 0); [lia|]. simpl.
  rewrite Zle_Qle in Hpos. change (inject_Z 1) with 1 in Hpos.
  split; [done|]. split; [lra|]. split.
  { destruct (Qlt_le_dec (remainingTokens p) 1); lra. }
  split; [done|]. eexists. split.
  - unfold raised. rewrite emitted_shareWith. simpl.
    by rewrite drop_app_length.
  - reflexivity.
Qed.

End MoreExitRules.



Lemma tier1_sells_fifty_times_the_holding_witness :
  (PositionManager.remainingTokens
     (fst (PositionManager.checkPosition Config.default "MintA" heldAt75
             quietEnv (managing [heldAt75]))) < 0)%Q.
Proof.
  apply (tier1_sells_fifty_times_the_holding "MintA" heldAt75 quietEnv
           (managing [heldAt75]) _ eq_refl eq_refl eq_refl
           ltac:(split; vm_compute; discriminate)
           ltac:(vm_compute; discriminate)).
Defined.

(** ** The book of the position manager *)

Section Book.
Import PositionManager.
Local Open Scope Q_scope.














End Book.

(** ** From a quote to a stop *)

Section CurveQuote.
Import PumpCurve JupiterQuote.
Local Open Scope Q_scope.
Local Arguments Qfloor : simpl never.

Lemma inject_Z_pos (z : Z) : (0 < z)%Z -> 0 < inject_Z z.
Proof. intros H. rewrite Zlt_Qlt in H. exact H. Qed.

Lemma truthy_pos (x : Q) : 0 < x -> Num.truthy x = true.
Proof.
  intros H. unfold Num.truthy. apply negb_true_iff.
  destruct (Qeq_bool x 0) eqn:E; [|done].
  apply Qeq_bool_iff in E. lra.
Qed.

Lemma price_pos (vs vt : Z) :
  (0 < vs)%Z -> (0 < vt)%Z -> 0 < inject_Z vs / inject_Z vt.
Proof.
  intros Hs Ht. apply Qlt_shift_div_l; [by apply inject_Z_pos|].
  rewrite Qmult_0_l. by apply inject_Z_pos.
Qed.


End CurveQuote.


Section Entry.
Import PumpCurve PositionManager.
Local Open Scope Q_scope.
Local Arguments Qfloor : simpl never.

Lemma dailyStats_shareWith mint p pm :
  dailyStats (shareWith mint p pm) = dailyStats pm.
Proof. unfold shareWith. by destruct (positions pm !! mint). Qed.

(** A stop-loss exit, with what it leaves behind. *)
Lemma stop_loss_exit mint p env pm pnl :
  nonTerminal p -> computedPnl p = Some pnl -> pnl <= -15 ->
  let r := checkPosition Config.default mint p env pm in
  state (fst r) = STOPPED
  /\ exitReason (fst r) = Some STOP_LOSS
  /\ positions (snd r) !! PositionManager.mint p = None
  /\ losses (dailyStats (snd r)) = S (losses (dailyStats pm))
  /\ wins (dailyStats (snd r)) = wins (dailyStats pm).
Proof.
  intros Hnt Hpnl Hle. cbv zeta.
  rewrite (checkPosition_nonTerminal _ _ _ _ _ Hnt).
  destruct (evaluatePosition_computed Config.default mint p env pm pnl Hpnl)
    as [cp ->].
  unfold evaluateRules. simpl.
  destruct Hnt as [Hs|Hs]; rewrite Hs;
    destruct (tier1Exited p), (tier2Exited p); simpl; num_cases.
  all: rewrite !dailyStats_shareWith; simpl.
  all: destruct (Num.gt pnl 0) eqn:E'; [apply Num_gt_iff in E'; lra|].
  all: repeat split; try done.
  all: apply shareWith_absent; simpl; apply lookup_delete_eq.
Qed.

(** The profit computed for an entry price of [out / lamports] when
    the curve prices the token at [cp]. *)
Lemma inverted_entry_price (cp sol : Q) (out lamports : Z) :
  0 < cp -> cp <= 1 # 100 -> 1 # 1000 <= sol ->
  lamports = Qfloor (sol * 1000000000) ->
  out = Qfloor (sol / cp * 1000000) ->
  0 < inject_Z out / inject_Z lamports
  /\ (cp - inject_Z out / inject_Z lamports)
     / (inject_Z out / inject_Z lamports) * 100 <= -85.
Proof.
  intros Hcp Hsmall Hsol -> ->.
  set (T := sol / cp * 1000000).
  set (L := sol * 1000000000).
  pose proof (Qfloor_le T) as HT1. pose proof (Qlt_floor T) as HT2.
  pose proof (Qfloor_le L) as HL1. pose proof (Qlt_floor L) as HL2.
  rewrite inject_Z_plus in HT2, HL2.
  change (inject_Z 1) with 1 in HT2, HL2.
  set (out := inject_Z (Qfloor T)) in *.
  set (lam := inject_Z (Qfloor L)) in *.
  (* the inverse of the price *)
  set (j := / cp).
  assert (cp * j == 1) as Hj by (unfold j; field; lra).
  assert (0 < j) as Hjpos by (unfold j; apply Qinv_lt_0_compat; lra).
  assert (100 <= j) as Hj100.
  { assert (cp * j <= (1 # 100) * j) by (apply Qmult_le_compat_r; lra). lra. }
  assert (T == sol * j * 1000000) as HT by (unfold T, j; field; lra).
  assert ((1 # 10) <= sol * j) as Hsj.
  { assert ((1 # 1000) * j <= sol * j) by (apply Qmult_le_compat_r; lra). lra. }
  assert (0 < lam) as Hlam by (unfold L in *; lra).
  assert (0 < out) as Hout by lra.
  (* cp * lamports <= 0.15 * out *)
  assert (cp * lam <= (15 # 100) * out) as Hkey.
  { assert (cp * lam <= cp * L) by (apply Qmult_le_l; lra).
    assert (cp * L == cp * cp * (sol * j) * 1000000000) as HcL.
    { unfold L. transitivity (cp * sol * (cp * j) * 1000000000); [|ring].
      rewrite Hj. ring. }
    assert (cp * cp <= (1 # 10000)) as Hsq.
    { assert (cp * cp <= (1 # 100) * cp) by (apply Qmult_le_compat_r; lra). lra. }
    assert (cp * cp * (sol * j) <= (1 # 10000) * (sol * j)) as Hprod
      by (apply Qmult_le_compat_r; lra).
    lra. }
  set (e := out / lam).
  assert (0 < e) as He.
  { unfold e. apply Qlt_shift_div_l; lra. }
  split; [exact He|].
  assert (cp <= (15 # 100) * e) as Hcpe.
  { unfold e. apply Qle_shift_div_l in Hkey; [|lra].
    unfold Qdiv in *. lra. }
  set (i := / e).
  assert (e * i == 1) as Hi by (unfold i; field; lra).
  assert (0 < i) as Hipos by (unfold i; apply Qinv_lt_0_compat; lra).
  assert (cp * i <= (15 # 100) * e * i) as Hfin
    by (apply Qmult_le_compat_r; lra).
  unfold Qdiv. fold i.
  assert ((15 # 100) * e * i == 15 # 100) as Hone.
  { transitivity ((15 # 100) * (e * i)); [ring|]. rewrite Hi. ring. }
  assert ((cp - e) * i == cp * i - 1) as Hsplit.
  { transitivity (cp * i - e * i); [ring|]. rewrite Hi. ring. }
  rewrite Hsplit. lra.
Qed.


Lemma checkPosition_exit_config config mint p env pm :
  Config.exit config = Config.exit Config.default ->
  checkPosition config mint p env pm
  = checkPosition Config.default mint p env pm.
Proof.
  intros H. unfold checkPosition, _evaluatePosition, evaluateRules.
  by rewrite H.
Qed.

(** X22.  From a quote to a stop.  [_executeTrade] records as entry
    price the tokens received per lamport, while the evaluation prices
    the position in lamports per token.  For a position opened on the
    curve-based quote of at least 0.001 SOL, on a curve that prices a
    token unit at no more than 0.01 lamports, the profit computed is at
    most -85 percent, and the first evaluation stops the position out
    and counts a loss. *)
Theorem curve_priced_entry_is_stopped_out (config : Config.t)
    (signal : ValidationQueue.Signal) (solAmount : Q)
    (quote : JupiterQuote.Quote) (env later : Env) (pm pm' : t)
    (p : Position) :
  let cd := ValidationQueue.curveData (ValidationQueue.signal_result signal) in
  Config.exit config = Config.exit Config.default ->
  (0 < virtualSol cd)%Z -> (0 < virtualToken cd)%Z ->
  (100 * virtualSol cd <= virtualToken cd)%Z ->
  1 # 1000 <= solAmount ->
  JupiterQuote.simulateQuote (Some cd) solAmount = Some quote ->
  openPosition config
    (Main.openArgsOf signal solAmount (JupiterQuote.outAmount quote)) env pm
  = (Some p, pm') ->
  (exists pnl, computedPnl p = Some pnl /\ pnl <= -85)
  /\ (let r := checkPosition config (mint p) p later pm' in
      state (fst r) = STOPPED
      /\ exitReason (fst r) = Some STOP_LOSS
      /\ positions (snd r) !! mint p = None
      /\ losses (dailyStats (snd r)) = S (losses (dailyStats pm'))).
Proof.
  intros cd Hexit Hvs Hvt Hprice Hsol Hquote Hopen.
  set (cp := inject_Z (virtualSol cd) / inject_Z (virtualToken cd)).
  assert (0 < cp) as Hcp by (by apply price_pos).
  assert (cp <= 1 # 100) as Hsmall.
  { unfold cp. apply Qle_shift_div_r; [by apply inject_Z_pos|].
    rewrite Zle_Qle, inject_Z_mult in Hprice.
    change (inject_Z 100) with 100 in Hprice. lra. }
  (* the quote *)
  unfold JupiterQuote.simulateQuote, JupiterQuote.estimatePriceFromCurve
    in Hquote.
  destruct (Z.eqb_spec (virtualToken cd) 0) as [?|_]; [lia|].
  fold cp in Hquote. rewrite (truthy_pos _ Hcp) in Hquote. simpl in Hquote.
  injection Hquote as <-. simpl in Hopen.
  (* the position *)
  unfold openPosition in Hopen.
  destruct (_ <=? _)%nat; [done|].
  destruct (_isDailyLossLimitHit _ pm); [done|].
  injection Hopen as <- <-. 
  unfold JupiterQuote.calculateTokensForSol, Num.Math_floor.
  destruct (inverted_entry_price cp solAmount
              (Qfloor (solAmount / cp * 1000000))
              (Qfloor (solAmount * 1000000000))
              Hcp Hsmall Hsol eq_refl eq_refl) as [He Hpnl].
  set (position := Build_Position _ _ _ _ _ _ _ _ _ _ _ _ _ _ _ _ _).
  assert (computedPnl position
          = Some ((cp - entryPrice position) / entryPrice position * 100))
    as Hcomputed.
  { unfold computedPnl, priceFromSignal. simpl. fold cd.
    destruct (Z.gtb_spec (virtualToken cd) 0); [|lia].
    fold cp. by rewrite (truthy_pos _ Hcp). }
  split; [eexists; split; [exact Hcomputed | exact Hpnl]|].
  cbv zeta. rewrite (checkPosition_exit_config _ _ _ _ _ Hexit).
  assert (nonTerminal position) as Hnt by (by left).
  destruct (stop_loss_exit (mint position) position later
              (emit (opened position)
                 (log (LogOpened (mint position))
                    (withPositions
                       (<[mint position := position]> (positions pm)) pm)))
              _ Hnt Hcomputed ltac:(simpl in *; lra))
    as (H1 & H2 & H3 & H4 & _).
  done.
Qed.

End Entry.

Lemma curve_priced_entry_is_stopped_out_witness :
  exists p pm',
    PositionManager.openPosition Config.runtime
      (Main.openArgsOf enteredSignal (Main.positionSol (5 # 1000) 1)
         178833333)
      quietEnv (PositionManager.new "2023-11-14")
    = (Some p, pm')
    /\ PositionManager.state
         (fst (PositionManager.checkPosition Config.runtime
                 (PositionManager.mint p) p quietEnv pm'))
       = PositionManager.STOPPED.
Proof.
  eexists _, _. split; [reflexivity|].
  apply (proj2 (curve_priced_entry_is_stopped_out Config.runtime
                  enteredSignal (Main.positionSol (5 # 1000) 1)
                  {| JupiterQuote.inAmount := 5000000;
                     JupiterQuote.outAmount := 178833333 |}
                  quietEnv quietEnv (PositionManager.new "2023-11-14") _ _
                  eq_refl ltac:(simpl; lia) ltac:(simpl; lia)
                  ltac:(simpl; lia) ltac:(vm_compute; discriminate)
                  ltac:(vm_compute; reflexivity) eq_refl)).
Defined.

(** ** Signals and the journal buffer *)

Section SignalsAndBuffer.
Import StateManager.

(** X23.  [addSignal] stamps the signal and appends it, keeping the
    last thousand: the history never grows beyond 1000, the newest
    signal is its last element, and neither the positions nor the
    journal nor the files change, so a signal reaches the disk with the
    next snapshot only. *)
Theorem addSignal_keeps_last_thousand (signal : obj) (now : Z) (sm : t)
    (st : State) :
  current sm = Some st ->
  (length (signals st) <= 1000)%nat ->
  let stamped := JObj (<["timestamp" := JNum (inject_Z now)]> signal) in
  exists st',
    current (addSignal signal now sm) = Some st'
    /\ signals st'
       = drop (S (length (signals st)) - 1000) (signals st ++ [stamped])
    /\ length (signals st') = Nat.min 1000 (S (length (signals st)))
    /\ last (signals st') = Some stamped
    /\ positions st' = positions st
    /\ wal (addSignal signal now sm) = wal sm
    /\ fs (addSignal signal now sm) = fs sm.
Proof.
  intros Hst Hlen stamped. unfold addSignal. rewrite Hst. cbv zeta.
  fold stamped. rewrite length_app. simpl length.
  replace (length (signals st) + 1)%nat with (S (length (signals st))) by lia.
  eexists. split; [reflexivity|].
  destruct (Nat.ltb_spec 1000 (S (length (signals st)))) as [Hfull|Hroom].
  - assert (length (signals st) = 1000)%nat as H1000 by lia.
    rewrite H1000. change (1001 - 1000)%nat with 1%nat.
    cbn [signals withSignals positions].
    repeat split; try done.
    + rewrite length_drop, length_app. simpl length. lia.
    + destruct (signals st) as [|x l]; [done|].
      change (drop 1 ((x :: l) ++ [stamped])) with (l ++ [stamped]).
      apply last_snoc.
  - assert (S (length (signals st)) - 1000 = 0)%nat as -> by lia.
    rewrite drop_0. cbn [signals withSignals positions].
    repeat split; try done.
    + rewrite length_app. simpl length. lia.
    + apply last_snoc.
Qed.



End SignalsAndBuffer.

Lemma addSignal_keeps_last_thousand_witness :
  exists st',
    StateManager.current
      (StateManager.addSignal {[ "mint" := StateManager.JStr "MintA" ]}
         1700000000500 initialised)
    = Some st'
    /\ length (StateManager.signals st') = 1%nat.
Proof.
  destruct (addSignal_keeps_last_thousand
              {[ "mint" := StateManager.JStr "MintA" ]} 1700000000500
              initialised _ eq_refl ltac:(simpl; lia))
    as (st' & H1 & _ & H3 & _).
  exists st'. split; [exact H1 | exact H3].
Defined.


(** ** Shutdown, and what the journal mirrors *)

Section Shutdown.
Import StateManager.

(** X25.  On an initialised manager [shutdown] never writes a journal
    segment: when the final snapshot succeeds it has emptied the buffer
    before the final flush runs, and when it throws the flush is not
    reached.  Entries buffered at shutdown are therefore in no segment.
    Only on a manager without state does the final flush write the
    buffer. *)
Theorem shutdown_writes_no_wal (readdir : list string -> list string)
    (now later : Z) (snapshotId : string) (fault : Fault) (sm : t) :
  (forall st, current sm = Some st ->
     walDir (fs (snd (shutdown readdir now later snapshotId fault sm)))
     = walDir (fs sm)
     /\ (fault = NoFault ->
         shutdown readdir now later snapshotId fault sm
         = (Returned None,
            snd (takeSnapshot readdir now snapshotId NoFault sm))
         /\ wal (snd (shutdown readdir now later snapshotId fault sm)) = []))
  /\ (current sm = None ->
      shutdown readdir now later snapshotId fault sm
      = (Returned None, _flushWal later sm)).
Proof.
  unfold shutdown, takeSnapshot. split.
  - intros st Hst. rewrite Hst. destruct fault; simpl; done.
  - intros Hst. by rewrite Hst.
Qed.

End Shutdown.

Section JournalMirror.
Import StateManager.

Lemma replaySegment_snoc entries entry st :
  replaySegment (entries ++ [entry]) st
  = _applyWalEntry entry (replaySegment entries st).
Proof. unfold replaySegment. by rewrite foldl_app. Qed.

Lemma walAppend_no_flush config entry now sm :
  Config.useWal (Config.persistence config) = true ->
  (length (wal sm) < 99)%nat ->
  _walAppend config entry now sm
  = {| current := current sm; wal := wal sm ++ [entry]; fs := fs sm |}.
Proof.
  intros Huse Hlen. unfold _walAppend. rewrite Huse. cbn [negb]. cbv zeta.
  cbn [wal]. rewrite length_app. cbn [length].
  by destruct (Nat.leb_spec 100 (length (wal sm) + 1)); [lia|].
Qed.

Lemma journalled_step config c sm st0 entries st :
  Config.useWal (Config.persistence config) = true ->
  (length (wal sm) < 99)%nat ->
  opensInPosition c ->
  current sm = Some st ->
  positions st = positions (replaySegment entries st0) ->
  exists st' entries',
    current (journalled config c sm) = Some st'
    /\ wal (journalled config c sm) = wal sm ++ entries'
    /\ (length entries' <= 1)%nat
    /\ fs (journalled config c sm) = fs sm
    /\ positions st' = positions (replaySegment (entries ++ entries') st0).
Proof.
  intros Huse Hlen Hopen Hst Hpos.
  destruct c as [mint position now|mint updates now|mint data now]; simpl.
  - unfold addPosition. rewrite Hst, walAppend_no_flush by done.
    eexists _, [_]. cbn [current wal fs length]. repeat split; try done.
    rewrite replaySegment_snoc. unfold _applyWalEntry, withPositions.
    cbn [positions]. rewrite <- Hpos.
    simpl in Hopen. by rewrite (insert_id position) by done.
  - unfold updatePosition. rewrite Hst.
    destruct (positions st !! mint) as [pos|] eqn:Hmint.
    + rewrite walAppend_no_flush by done.
      eexists _, [_]. cbn [current wal fs length]. repeat split; try done.
      rewrite replaySegment_snoc. unfold _applyWalEntry.
      rewrite <- Hpos, Hmint. unfold withPositions. cbn [positions].
      done.
    + exists st, []. rewrite !app_nil_r. repeat split; try done. simpl. lia.
  - unfold addSeenMint. rewrite Hst, walAppend_no_flush by done.
    eexists _, [_]. cbn [current wal fs length]. repeat split; try done.
    rewrite replaySegment_snoc. unfold _applyWalEntry, withSeenMints.
    cbn [positions]. done.
Qed.

(** X26.  The journal mirrors the positions.  With the journal enabled
    and as long as the buffer is not flushed, after any sequence of
    [addPosition], [updatePosition] and [addSeenMint] calls in which
    every added position already carries the state IN_POSITION,
    replaying the entries buffered by these calls on the state before
    them gives the position map of the state after them; no file is
    written. *)
Theorem journal_mirrors_positions (config : Config.t) (calls : list Journalled)
    (sm : t) (st : State) :
  Config.useWal (Config.persistence config) = true ->
  current sm = Some st ->
  (length (wal sm) + length calls < 100)%nat ->
  Forall opensInPosition calls ->
  let sm' := foldl (fun sm c => journalled config c sm) sm calls in
  exists st',
    current sm' = Some st'
    /\ fs sm' = fs sm
    /\ take (length (wal sm)) (wal sm') = wal sm
    /\ positions st'
       = positions (replaySegment (drop (length (wal sm)) (wal sm')) st).
Proof.
  intros Huse Hst Hlen Hopen. cbv zeta.
  assert (forall calls sm1 st1 entries,
            current sm1 = Some st1 ->
            wal sm1 = wal sm ++ entries ->
            fs sm1 = fs sm ->
            positions st1 = positions (replaySegment entries st) ->
            (length (wal sm1) + length calls < 100)%nat ->
            Forall opensInPosition calls ->
            exists st' entries',
              current (foldl (fun sm c => journalled config c sm) sm1 calls)
              = Some st'
              /\ fs (foldl (fun sm c => journalled config c sm) sm1 calls)
                 = fs sm
              /\ wal (foldl (fun sm c => journalled config c sm) sm1 calls)
                 = wal sm ++ entries'
              /\ positions st' = positions (replaySegment entries' st)) as H.
  { clear calls Hlen Hopen.
    induction calls as [|c calls IH];
      intros sm1 st1 entries Hst1 Hwal Hfs Hpos Hlen Hopen.
    - simpl. eauto 10.
    - simpl. apply Forall_cons in Hopen as [Hc Hopen]. simpl in Hlen.
      destruct (journalled_step config c sm1 st entries st1 Huse
                  ltac:(lia) Hc Hst1 Hpos)
        as (st2 & es & Hst2 & Hwal2 & Hes & Hfs2 & Hpos2).
      apply (IH _ st2 (entries ++ es)); try done.
      + by rewrite Hwal2, Hwal, <- app_assoc.
      + congruence.
      + rewrite Hwal2, length_app. lia. }
  destruct (H calls sm st [] Hst ltac:(by rewrite app_nil_r) eq_refl eq_refl
              Hlen Hopen) as (st' & entries' & H1 & H2 & H3 & H4).
  exists st'. rewrite H3. rewrite take_app_length, drop_app_length. done.
Qed.

End JournalMirror.

Lemma journal_mirrors_positions_witness :
  let sm' := foldl (fun sm c => journalled Config.default c sm) initialised
               threeCalls in
  exists st',
    StateManager.current sm' = Some st'
    /\ StateManager.fs sm' = StateManager.fs initialised
    /\ take (length (StateManager.wal initialised)) (StateManager.wal sm')
       = StateManager.wal initialised
    /\ (forall st, StateManager.current initialised = Some st ->
          StateManager.positions st'
          = StateManager.positions
              (StateManager.replaySegment
                 (drop (length (StateManager.wal initialised))
                    (StateManager.wal sm')) st)).
Proof.
  destruct (journal_mirrors_positions Config.default threeCalls initialised _
              eq_refl eq_refl ltac:(simpl; lia)
              ltac:(repeat constructor))
    as (st' & H1 & H2 & H3 & H4).
  exists st'. split; [exact H1|]. split; [exact H2|]. split; [exact H3|].
  intros st [= <-]. exact H4.
Defined.

(** ** The round trip through a snapshot *)

Section RoundTrip.
Import StateManager.

Lemma Map_of_snoc {A} (entries : list (string * A)) (kv : string * A) :
  Map_of (entries ++ [kv]) = <[kv.1 := kv.2]> (Map_of entries).
Proof. unfold Map_of. by rewrite foldl_app. Qed.

Lemma Object_entries_snoc (a : list (string * json)) (kv : string * json) :
  Object_entries (a ++ [kv])
  = Object_entries a ++ [(pretty (length a), pairArray kv.1 kv.2)].
Proof.
  unfold Object_entries. rewrite imap_app. simpl.
  by rewrite Nat.add_0_r.
Qed.

Lemma lookup_Map_of_Object_entries (a : list (string * json)) (k : string)
    (v : obj) :
  Map_of (Object_entries a) !! k = Some v
  <-> exists i kv, a !! i = Some kv /\ k = pretty i
                   /\ v = pairArray kv.1 kv.2.
Proof.
  revert k v. induction a as [|kv a IH] using rev_ind; intros k v.
  - change (Map_of (Object_entries [])) with (∅ : gmap string obj).
    rewrite lookup_empty. split; [done|].
    by intros (i & kv & ? & _).
  - rewrite Object_entries_snoc, Map_of_snoc. simpl.
    rewrite lookup_insert_Some, IH. split.
    + intros [[<- <-]|[Hne (i & kv' & Hi & -> & ->)]].
      * exists (length a), kv. split; [|done].
        by rewrite lookup_app_r, Nat.sub_diag by lia.
      * exists i, kv'. split; [|done].
        apply lookup_app_l_Some. done.
    + intros (i & kv' & Hi & -> & ->).
      destruct (decide (i = length a)) as [->|Hne].
      * left. rewrite lookup_app_r, Nat.sub_diag in Hi by lia.
        by injection Hi as <-.
      * right. split; [intros H; by apply pretty_nat_inj in H|].
        exists i, kv'. split; [|done].
        apply lookup_app_Some in Hi as [Hi|[Hge Hi]]; [done|].
        apply lookup_lt_Some in Hi. simpl in Hi. lia.
Qed.

Lemma size_Map_of_Object_entries (a : list (string * json)) :
  size (Map_of (Object_entries a)) = length a.
Proof.
  induction a as [|kv a IH] using rev_ind; [done|].
  rewrite Object_entries_snoc, Map_of_snoc, length_app. simpl.
  rewrite map_size_insert_None, IH; [lia|].
  destruct (Map_of (Object_entries a) !! pretty (length a)) as [v|] eqn:E;
    [|done].
  apply lookup_Map_of_Object_entries in E as (i & kv' & Hi & Heq & _).
  apply pretty_nat_inj in Heq. apply lookup_lt_Some in Hi. lia.
Qed.

(** X27.  What a snapshot gives back.  Writing a state to a snapshot
    and reading it as [load] does returns the completed mints, the daily
    statistics and the signals unchanged, and as many positions and seen
    mints as there were; but every position comes back under the decimal
    index it had in the array of the snapshot, as the pair of its mint
    and itself, and under no other key. *)
Theorem snapshot_round_trip (st : State) :
  let st' := revive (serialise st) in
  completedMints st' = completedMints st
  /\ dailyStats st' = dailyStats st
  /\ signals st' = signals st
  /\ size (positions st') = size (positions st)
  /\ size (seenMints st') = size (seenMints st)
  /\ (forall k v, positions st' !! k = Some v <->
        exists i mint position,
          map_to_list (positions st) !! i = Some (mint, position)
          /\ k = pretty i
          /\ v = pairArray mint (JObj position)).
Proof.
  unfold revive, serialise. simpl.
  split; [apply leibniz_equiv, list_to_set_elements|].
  split; [done|]. split; [done|]. split.
  { rewrite size_Map_of_Object_entries, length_map, length_map_to_list. done. }
  split.
  { rewrite map_size_fmap, size_Map_of_Object_entries, length_map_to_list.
    done. }
  intros k v. rewrite lookup_Map_of_Object_entries. split.
  - intros (i & kv & Hi & -> & ->).
    rewrite list_lookup_fmap in Hi.
    destruct (map_to_list (positions st) !! i) as [[mint position]|] eqn:E;
      [|done].
    injection Hi as <-. eauto 10.
  - intros (i & mint & position & Hi & -> & ->).
    exists i, (mint, JObj position). split; [|done].
    by rewrite list_lookup_fmap, Hi.
Qed.

End RoundTrip.

(** ** Retention, in general *)

(** X28.  Snapshot cycles with fresh identifiers, in whatever order the
    platform enumerates the directory: after at least one cycle the
    number of snapshot files is the smaller of five and of the number
    there would be had none been deleted. *)
Theorem snapshots_kept_after_cycles (readdir : list string -> list string)
    (cycles : list (Z * string)) (sm : StateManager.t)
    (st : StateManager.State) :
  (forall l, readdir l ≡ₚ l) ->
  StateManager.current sm = Some st ->
  NoDup (map fst (StateManager.snapshotsDir (StateManager.fs sm))) ->
  NoDup (map snd cycles) ->
  (forall c, c ∈ cycles ->
     (("snapshot_" ++ snd c ++ ".json")%string
      ∉ map fst (StateManager.snapshotsDir (StateManager.fs sm)))
     /\ (("snapshot_" ++ snd c ++ ".tmp")%string
         ∉ map fst (StateManager.snapshotsDir (StateManager.fs sm)))) ->
  cycles <> [] ->
  length (StateManager.snapshotsOnDisk
            (StateManager.snapshotCycles readdir cycles sm))
  = Nat.min 5 (length (StateManager.snapshotsOnDisk sm) + length cycles).
Proof.
  intros Hperm Hst Hnd Hids Hfresh Hne.
  by apply (snapshotCycles_count readdir Hperm cycles sm st).
Qed.

Lemma snapshots_kept_after_cycles_witness :
  length (StateManager.snapshotsOnDisk
            (StateManager.snapshotCycles (fun l => l) sevenCycles
               initialised))
  = Nat.min 5 (length (StateManager.snapshotsOnDisk initialised)
               + length sevenCycles).
Proof.
  apply (snapshots_kept_after_cycles (fun l => l) sevenCycles initialised _
           (fun l => reflexivity _) eq_refl).
  - simpl. apply NoDup_nil_2.
  - apply (bool_decide_unpack _). vm_compute. exact I.
  - intros c _. simpl. split; apply not_elem_of_nil.
  - discriminate.
Defined.

Lemma failed_snapshot_deletes_nothing_witness :
  StateManager.snapshotsOnDisk
    (snd (StateManager.takeSnapshot Js.sort 1700000300000
            "9b2f6c1e-7a34-4d8e-b1c5-3f0a9e6d2c71" StateManager.WriteFails
            initialised))
  = StateManager.snapshotsOnDisk initialised.
Proof.
  apply (failed_snapshot_deletes_nothing Js.sort 1700000300000
           "9b2f6c1e-7a34-4d8e-b1c5-3f0a9e6d2c71" initialised
           StateManager.WriteFails).
  - discriminate.
  - simpl. apply not_elem_of_nil.
Defined.
